(** * csmake-system-build: partition layout planner

    A shallow embedding of [CsmakeModules/SystemBuildMsdosPartitions.py],
    its GPT specialisation [SystemBuildGptPartitions.py], the file
    system step [SystemBuildFileSystem.py] and the aspect
    [SystemBuildGetPartitionDevices.py], with the properties that the
    design document states about them and further properties that the
    code shows.

    Conventions of the embedding:
    - Python [int] is [Z]; a [float] is a binary64 number, with the
      rounding of each operation written out on [Z]; [str] is [string]
      (byte strings, compared bytewise as Python 2 does); a [dict] is
      a [gmap]; the [options]
      dictionary is an association list in its iteration order, because
      two loops of the source depend on that order;
    - [self], the disk entry and the outside world (log, issued
      commands) are threaded explicitly through a state and exception
      monad [M];
    - external tools are an oracle giving the exit status of a command
      from the commands issued so far. *)

From Stdlib Require Import ZArith String Ascii List Lia.
From Stdlib Require Import Sorting.Permutation Sorting.Sorted.
From stdpp Require Import gmap strings list fin_maps pretty sorting.

Set Warnings "-clear-no-such-hyp".

Local Open Scope string_scope.
Local Open Scope list_scope.
Local Open Scope Z_scope.

(** ** Python primitives used by the modules *)

Module Py.

(** Exceptions that the modelled code can raise or let through. *)
Inductive exn :=
| ValueError
| IndexError
| KeyError
| ZeroDivisionError
| OverflowError
| SystemError (msg : string)
| CalledProcessError.

(** ["%d" % n] *)
Definition format_d (n : Z) : string := pretty n.

(** [needle in hay] on strings. *)
Fixpoint str_in (needle hay : string) : bool :=
  String.prefix needle hay ||
  match hay with
  | EmptyString => false
  | String _ hay' => str_in needle hay'
  end.

(** [c in s] for a single character. *)
Fixpoint chr_in (c : ascii) (s : string) : bool :=
  match s with
  | EmptyString => false
  | String a s' => Ascii.eqb a c || chr_in c s'
  end.

(** [s.startswith(p)] *)
Definition startswith (s p : string) : bool := String.prefix p s.

(** [s[n:]] *)
Fixpoint drop_str (n : nat) (s : string) : string :=
  match n, s with
  | O, _ => s
  | S n', String _ s' => drop_str n' s'
  | S _, EmptyString => EmptyString
  end.

(** [s[-1]], [None] standing for the [IndexError] on the empty string. *)
Fixpoint last_char (s : string) : option ascii :=
  match s with
  | EmptyString => None
  | String a EmptyString => Some a
  | String _ s' => last_char s'
  end.

Fixpoint lstrip (s : string) : string :=
  match s with
  | EmptyString => EmptyString
  | String a s' => if Ascii.is_space a then lstrip s' else s
  end.

Fixpoint rstrip (s : string) : string :=
  match s with
  | EmptyString => EmptyString
  | String a s' =>
      match rstrip s' with
      | EmptyString => if Ascii.is_space a then EmptyString else String a EmptyString
      | r => String a r
      end
  end.

(** [s.strip()] *)
Definition strip (s : string) : string := lstrip (rstrip s).

(** [s.split(sep)] for a one character separator: never empty. *)
Fixpoint split (sep : ascii) (s : string) : list string :=
  match s with
  | EmptyString => [EmptyString]
  | String a s' =>
      if Ascii.eqb a sep then EmptyString :: split sep s'
      else match split sep s' with
           | w :: ws => String a w :: ws
           | [] => [String a EmptyString]
           end
  end.

(** The integer nearest to the rational [n/d], with [d <> 0], a tie
    going away from zero. *)
Definition round_div (n d : Z) : Z :=
  Z.sgn n * Z.sgn d * ((2 * Z.abs n + Z.abs d) / (2 * Z.abs d)).

(** ** Binary64 arithmetic *)

(** Python's [float] is the binary64 format of IEEE 754: a product and
    a quotient are the exact results rounded to the nearest number of
    53 significant bits, ties to the even one. *)
Module Float.

(** A float: [Finite neg m e] is [m * 2^e], negated when [neg], with
    [0 <= m]; a mantissa of 0 is a zero. *)
Inductive float :=
| Finite (neg : bool) (m e : Z)
| Infinity (neg : bool)
| NaN.

(** The integer part of the binary logarithm of [n/d], for positive
    [n] and [d]. *)
Definition ilog2 (n d : Z) : Z :=
  let l := Z.log2 n - Z.log2 d in
  if (if 0 <=? l then d * 2 ^ l <=? n else d <=? n * 2 ^ (- l)) then l else l - 1.

(** The integer nearest to [num/den], a tie going to the even one. *)
Definition rne (num den : Z) : Z :=
  let q := num / den in
  let r := num mod den in
  if 2 * r <? den then q
  else if den <? 2 * r then q + 1
  else if Z.even q then q else q + 1.

(** The binary64 number nearest to [n/d], for positive [n] and [d]:
    its mantissa and exponent.  The exponent gives the mantissa 53
    bits, and is not below that of the subnormal numbers; [None] is
    the overflow, a result of [2^1024] or more. *)
Definition round53 (n d : Z) : option (Z * Z) :=
  let e := Z.max (ilog2 n d - 52) (-1074) in
  let m := if 0 <=? e then rne n (d * 2 ^ e) else rne (n * 2 ^ (- e)) d in
  if (0 <=? e) && (2 ^ 1024 <=? m * 2 ^ e) then None else Some (m, e).

(** The conversion of an [int] or a [long] in an arithmetic operation
    with a float. *)
Definition of_int (z : Z) : exn + float :=
  if z =? 0 then inr (Finite false 0 0)
  else match round53 (Z.abs z) 1 with
       | Some (m, e) => inr (Finite (z <? 0) m e)
       | None => inl OverflowError
       end.

(** [x * y] *)
Definition mul (x y : float) : float :=
  match x, y with
  | Finite s1 m1 e1, Finite s2 m2 e2 =>
      if m1 * m2 =? 0 then Finite (xorb s1 s2) 0 0
      else
        let e := e1 + e2 in
        match (if 0 <=? e then round53 (m1 * m2 * 2 ^ e) 1
               else round53 (m1 * m2) (2 ^ (- e))) with
        | Some (m, e') => Finite (xorb s1 s2) m e'
        | None => Infinity (xorb s1 s2)
        end
  | Finite s1 m1 _, Infinity s2 =>
      if m1 =? 0 then NaN else Infinity (xorb s1 s2)
  | Infinity s1, Finite s2 m2 _ =>
      if m2 =? 0 then NaN else Infinity (xorb s1 s2)
  | Infinity s1, Infinity s2 => Infinity (xorb s1 s2)
  | _, _ => NaN
  end.

(** [x / y]: Python raises on a divisor that is zero. *)
Definition div (x y : float) : exn + float :=
  match y with
  | Finite s2 m2 e2 =>
      if m2 =? 0 then inl ZeroDivisionError
      else
        match x with
        | Finite s1 m1 e1 =>
            if m1 =? 0 then inr (Finite (xorb s1 s2) 0 0)
            else
              match round53 (m1 * 2 ^ Z.max 0 (e1 - e2))
                            (m2 * 2 ^ Z.max 0 (e2 - e1)) with
              | Some (m, e) => inr (Finite (xorb s1 s2) m e)
              | None => inr (Infinity (xorb s1 s2))
              end
        | Infinity s1 => inr (Infinity (xorb s1 s2))
        | NaN => inr NaN
        end
  | Infinity s2 =>
      match x with
      | Finite s1 _ _ => inr (Finite (xorb s1 s2) 0 0)
      | _ => inr NaN
      end
  | NaN => inr NaN
  end.

(** [int(round(x))]: Python 2 rounds to the nearest integer, a tie
    going away from zero; an infinity and a NaN have no integer. *)
Definition int_round (x : float) : exn + Z :=
  match x with
  | Finite s m e =>
      let r := if 0 <=? e then m * 2 ^ e
               else (2 * m + 2 ^ (- e)) / 2 ^ (- e + 1) in
      inr (if s then - r else r)
  | Infinity _ => inl OverflowError
  | NaN => inl ValueError
  end.

(** [int(round(a*100.0/b))] for integers [a] and [b]. *)
Definition percent (a b : Z) : exn + Z :=
  match of_int a with
  | inl e => inl e
  | inr x =>
      let p := mul x (Finite false 100 0) in
      match of_int b with
      | inl e => inl e
      | inr y =>
          match div p y with
          | inl e => inl e
          | inr q => int_round q
          end
      end
  end.

End Float.

(** [list.sort(key=...)]: a stable sort, the keys compared with
    [leb]; elements with equal keys keep their relative order. *)
Section Sort.
Context {A K : Type} (leb : K -> K -> bool) (key : A -> K).

Fixpoint insert_by (x : A) (l : list A) : list A :=
  match l with
  | [] => [x]
  | y :: l' =>
      if leb (key x) (key y) then x :: l else y :: insert_by x l'
  end.

Fixpoint sort_by (l : list A) : list A :=
  match l with
  | [] => []
  | x :: l' => insert_by x (sort_by l')
  end.
End Sort.

End Py.

Import Py.

(** ** The state and exception monad of the modules *)

(** Entries of the build log.  The text is the format string of the
    call, without the double quotes that two of them put around a
    conversion; the arguments are not rendered. *)
Inductive log_entry :=
| Lerror (fmt : string)
| Lwarning (fmt : string)
| Lexception (fmt : string)
| Ldevdebug (fmt : string)
| Lfailed
| Lpassed.

(** An external command, as the [argv] list given to [subprocess]. *)
Abbreviation Cmd := (list string).

(** How a Python function ends: with a value, with the [return None]
    that follows [self.log.failed()], or with an exception. *)
Inductive Res (A : Type) :=
| Val (a : A)
| Ret_None
| Raise (e : exn).
Arguments Val {A} a.
Arguments Ret_None {A}.
Arguments Raise {A} e.

(** ** Data model *)

(** A value of the [partitions] dictionary of a disk: the keys
    ['number'], ['size'], ['device'] and ['fstab-id'].  The last one is
    [None] when the source leaves Python's [None] there. *)
Record PartRecord := {
  number : Z;
  size : string;
  device : string;
  fstab_id : option string
}.

(** The [system] object of a system entry.  Its class is not part of
    the partitioning modules; the only method they call is taken as a
    field: it parses a size request into bytes or raises. *)
Record SystemInstance := {
  _getSizeInBytes : string -> exn + Z
}.

(** A disk entry as an earlier build step leaves it. *)
Record DiskEntry := {
  d_device : string;
  d_size : Z;
  d_fstab_id : string;
  d_partitions : option (gmap string PartRecord)
}.

(** A value of [self.env.env]: the ['disks'] and ['system'] keys. *)
Record SystemEntry := {
  sys_disks : option (gmap string DiskEntry);
  sys_system : SystemInstance
}.

(** The arguments of one call of [_createNextPartition].  The source
    keeps no such list; it is recorded so that extents can be stated
    without parsing them back out of the command lines. *)
Record NextCall := {
  nc_type : string;
  nc_number : Z;
  nc_start : Z;
  nc_end : Z
}.

(** The attributes of [self] that [_doPartitioning] assigns, the two
    dictionaries of the disk entry it fills, and the outside world.
    [partEntry] is the dictionary stored as [diskEntry['partitions']]
    and aliased by [self.partEntry]; [disk_swaps] is
    [diskEntry['swaps']].  A record put in [disk_swaps] is the object
    that [partEntry] holds, and it is not written again afterwards, so
    its value is stored. *)
Record State := {
  partEntry : gmap string PartRecord;
  disk_swaps : list (string * PartRecord);
  swaps : list (string * Z * list string);
  systemInstance : SystemInstance;
  disksize : Z;
  startPercent : Z;
  extensionStart : Z;
  extensionEnd : Z;
  log : list log_entry;
  trace : list Cmd;
  calls : list NextCall
}.

Definition set_partEntry (f : gmap string PartRecord -> gmap string PartRecord) (s : State) : State :=
  {| partEntry := f (partEntry s); disk_swaps := disk_swaps s; swaps := swaps s;
     systemInstance := systemInstance s; disksize := disksize s;
     startPercent := startPercent s; extensionStart := extensionStart s;
     extensionEnd := extensionEnd s; log := log s; trace := trace s; calls := calls s |}.

Definition set_disk_swaps (f : list (string * PartRecord) -> list (string * PartRecord)) (s : State) : State :=
  {| partEntry := partEntry s; disk_swaps := f (disk_swaps s); swaps := swaps s;
     systemInstance := systemInstance s; disksize := disksize s;
     startPercent := startPercent s; extensionStart := extensionStart s;
     extensionEnd := extensionEnd s; log := log s; trace := trace s; calls := calls s |}.

Definition set_swaps (f : list (string * Z * list string) -> list (string * Z * list string)) (s : State) : State :=
  {| partEntry := partEntry s; disk_swaps := disk_swaps s; swaps := f (swaps s);
     systemInstance := systemInstance s; disksize := disksize s;
     startPercent := startPercent s; extensionStart := extensionStart s;
     extensionEnd := extensionEnd s; log := log s; trace := trace s; calls := calls s |}.

Definition set_sizes (sys : SystemInstance) (dsize : Z) (s : State) : State :=
  {| partEntry := partEntry s; disk_swaps := disk_swaps s; swaps := swaps s;
     systemInstance := sys; disksize := dsize;
     startPercent := 0; extensionStart := -1;
     extensionEnd := -1; log := log s; trace := trace s; calls := calls s |}.

Definition set_startPercent (v : Z) (s : State) : State :=
  {| partEntry := partEntry s; disk_swaps := disk_swaps s; swaps := swaps s;
     systemInstance := systemInstance s; disksize := disksize s;
     startPercent := v; extensionStart := extensionStart s;
     extensionEnd := extensionEnd s; log := log s; trace := trace s; calls := calls s |}.

Definition set_extension (vstart vend : Z) (s : State) : State :=
  {| partEntry := partEntry s; disk_swaps := disk_swaps s; swaps := swaps s;
     systemInstance := systemInstance s; disksize := disksize s;
     startPercent := startPercent s; extensionStart := vstart;
     extensionEnd := vend; log := log s; trace := trace s; calls := calls s |}.

Definition add_log (e : log_entry) (s : State) : State :=
  {| partEntry := partEntry s; disk_swaps := disk_swaps s; swaps := swaps s;
     systemInstance := systemInstance s; disksize := disksize s;
     startPercent := startPercent s; extensionStart := extensionStart s;
     extensionEnd := extensionEnd s; log := log s ++ [e]; trace := trace s; calls := calls s |}.

Definition add_trace (c : Cmd) (s : State) : State :=
  {| partEntry := partEntry s; disk_swaps := disk_swaps s; swaps := swaps s;
     systemInstance := systemInstance s; disksize := disksize s;
     startPercent := startPercent s; extensionStart := extensionStart s;
     extensionEnd := extensionEnd s; log := log s; trace := trace s ++ [c]; calls := calls s |}.

Definition add_call (c : NextCall) (s : State) : State :=
  {| partEntry := partEntry s; disk_swaps := disk_swaps s; swaps := swaps s;
     systemInstance := systemInstance s; disksize := disksize s;
     startPercent := startPercent s; extensionStart := extensionStart s;
     extensionEnd := extensionEnd s; log := log s; trace := trace s; calls := calls s ++ [c] |}.

Definition M (A : Type) : Type := State -> Res A * State.

Definition ret {A} (a : A) : M A := fun s => (Val a, s).
Definition raise {A} (e : exn) : M A := fun s => (Raise e, s).
Definition return_None {A} : M A := fun s => (Ret_None, s).

Definition bind {A B} (m : M A) (k : A -> M B) : M B :=
  fun s =>
    match m s with
    | (Val a, s') => k a s'
    | (Ret_None, s') => (Ret_None, s')
    | (Raise e, s') => (Raise e, s')
    end.

Notation "x <- c1 ;; c2" := (bind c1 (fun x => c2))
  (at level 100, c1 at next level, right associativity).
Notation "c1 ;;; c2" := (bind c1 (fun _ => c2))
  (at level 100, right associativity).

Definition get : M State := fun s => (Val s, s).
Definition modify (f : State -> State) : M unit := fun s => (Val tt, f s).

(** A Python expression that yields a value or raises. *)
Definition lift {A} (r : exn + A) : M A :=
  match r with
  | inl e => raise e
  | inr a => ret a
  end.

(** [l[i]] *)
Definition item (l : list string) (i : nat) : M string :=
  match nth_error l i with
  | Some x => ret x
  | None => raise IndexError
  end.

Definition log_error (fmt : string) : M unit := modify (add_log (Lerror fmt)).
Definition log_warning (fmt : string) : M unit := modify (add_log (Lwarning fmt)).
Definition log_exception (fmt : string) : M unit := modify (add_log (Lexception fmt)).
Definition log_devdebug (fmt : string) : M unit := modify (add_log (Ldevdebug fmt)).
Definition log_failed : M unit := modify (add_log Lfailed).
Definition log_passed : M unit := modify (add_log Lpassed).

(** [for x in l: body x] *)
Fixpoint for_each {A} (l : list A) (body : A -> M unit) : M unit :=
  match l with
  | [] => ret tt
  | x :: l' => body x ;;; for_each l' body
  end.

(** ** Scheme policy: the class attributes that the GPT module overrides *)

Record Policy := {
  PART_TYPE : string;
  PART_PRIMARY_PARTITIONS : Z;
  PART_LOGICAL_EXTENDED_ALLOWED : bool;
  PART_FIRST_START : string;
  (** the command line of [_editPartitionWithSfdisk], from the device,
      the partition number and [partition[3]] *)
  edit_command : string -> Z -> string -> Cmd
}.

Definition Msdos : Policy := {|
  PART_TYPE := "msdos";
  PART_PRIMARY_PARTITIONS := 4;
  PART_LOGICAL_EXTENDED_ALLOWED := true;
  PART_FIRST_START := "2048s";
  edit_command := fun dev n ty =>
    ["sudo"; "sfdisk"; "--part-type"; dev; format_d n; ty]
|}.

Definition Gpt : Policy := {|
  PART_TYPE := "gpt";
  PART_PRIMARY_PARTITIONS := 128;
  PART_LOGICAL_EXTENDED_ALLOWED := false;
  PART_FIRST_START := "2048s";
  edit_command := fun dev n ty =>
    ["sudo"; "gfdisk"; "--typecode=" +:+ format_d n +:+ ":" +:+ ty; dev]
|}.

(** [PART_FSTYPES], shared by both schemes. *)
Definition PART_FSTYPES (ty : string) : option string :=
  if String.eqb ty "ext2" then Some "ext2"
  else if String.eqb ty "linux" then Some "ext2"
  else if String.eqb ty "fat16" then Some "fat16"
  else if String.eqb ty "fat32" then Some "fat32"
  else if String.eqb ty "vfat" then Some "fat32"
  else if String.eqb ty "HFS" then Some "HFS"
  else if String.eqb ty "NTFS" then Some "NTFS"
  else if String.eqb ty "linux-swap" then Some "linux-swap"
  else if String.eqb ty "reiserfs" then Some "reiserfs"
  else if String.eqb ty "ufs" then Some "ufs"
  else None.

(** ** SystemBuildMsdosPartitions *)

Section Partitions.

(** The exit status of a command, given the commands issued before. *)
Variable tool : list Cmd -> Cmd -> Z.

(** The class attributes in force ([Msdos] or [Gpt]). *)
Variable pol : Policy.

(** [subprocess.call]: runs the command and returns its exit status. *)
Definition call (c : Cmd) : M Z :=
  fun s => (Val (tool (trace s) c), add_trace c s).

(** [subprocess.check_call]: raises on a non-zero exit status. *)
Definition check_call (c : Cmd) : M unit :=
  r <- call c ;;
  if r =? 0 then ret tt else raise CalledProcessError.

Definition _getEnvKey (system : string) : string :=
  "__SystemBuild_" +:+ system +:+ "__".

(** Line 128, [int(round(requestedSize*100.0/self.disksize))], is
    computed in binary64: the product and the quotient are rounded to
    53 bits, an integer too large for a float and an infinite quotient
    raise [OverflowError], a disk of size 0 [ZeroDivisionError]. *)
Definition _getRequestedPercentage (size : string) : M Z :=
  st <- get ;;
  requestedSize <- lift (_getSizeInBytes (systemInstance st) size) ;;
  result <- lift (Float.percent requestedSize (disksize st)) ;;
  if result =? 0 then
    log_warning "The requested partition was too small (%s), the partition has been rounded up to the next available size" ;;;
    ret 1
  else ret result.

Definition _editPartitionWithSfdisk (device : string) (number : Z)
    (partition : list string) : M unit :=
  p3 <- item partition 3 ;;
  result <- call (edit_command pol device number p3) ;;
  if result =? 0 then ret tt
  else log_warning "Did not successfully set the requested partition type".

Definition set_flag_command (device : string) (number : Z) (flag : string) : Cmd :=
  ["sudo"; "parted"; "-s"; device; "--"; "set"; format_d number; flag; "on"].

Definition mkpart_command (device parttype : string)
    (command_specifics : list string) (startstr : string) (end_ : Z) : Cmd :=
  ["sudo"; "parted"; "-s"; "-a"; "optimal"; device; "--"; "mkpart"; parttype]
    ++ command_specifics ++ [startstr; format_d end_ +:+ "%"].

Definition name_command (device : string) (number : Z) (name : string) : Cmd :=
  ["sudo"; "parted"; "-s"; device; "--"; "name"; format_d number; name].

(** Lines 168-174: one call for each flag. *)
Definition set_flags (device : string) (number : Z) (partition : list string)
    : M unit :=
  if bool_decide (4 < length partition)%nat then
    for_each (skipn 4 partition)
      (fun flag => check_call (set_flag_command device number flag))
  else ret tt.

(** The structure of [partition] is name, order, size, type, flags. *)
Definition _createNextPartition (device : string) (number : Z)
    (parttype : string) (partition : list string) (start end_ : Z) : M unit :=
  modify (add_call {| nc_type := parttype; nc_number := number;
                      nc_start := start; nc_end := end_ |}) ;;;
  t <- (if String.eqb parttype "extended" then ret ("ext2", false, [])
        else
          p3 <- item partition 3 ;;
          match PART_FSTYPES p3 with
          | Some fstype => ret (fstype, false, [fstype])
          | None => ret ("ext2", true, ["ext2"])
          end) ;;
  let '(fstype, callsfdisk, command_specifics) := t in
  let startstr :=
    if start =? 0 then PART_FIRST_START pol else format_d start +:+ "%" in
  check_call (mkpart_command device parttype command_specifics startstr end_) ;;;
  p0 <- item partition 0 ;;
  _ <- call (name_command device number p0) ;;
  set_flags device number partition ;;;
  (if callsfdisk then _editPartitionWithSfdisk device number partition
   else ret tt) ;;;
  if String.eqb fstype "linux-swap"
  then modify (set_swaps (fun l => l ++ [(device, number, partition)]))
  else ret tt.

Definition _createPrimaryPartition (device : string) (number : Z)
    (partition : list string) : M unit :=
  p2 <- item partition 2 ;;
  requestedPercent <- _getRequestedPercentage p2 ;;
  st <- get ;;
  let start := startPercent st in
  let end_ := start + requestedPercent in
  end_ <- (if end_ >? 100 then
             log_warning "Primary partition was truncated, %d%% beyond the end of the disk" ;;;
             ret 100
           else ret end_) ;;
  _createNextPartition device number "primary" partition start end_ ;;;
  modify (set_startPercent end_).

Definition _createExtendedPartition (device : string) (number : Z)
    (partition : list string) : M unit :=
  p2 <- item partition 2 ;;
  requestedPercent <- _getRequestedPercentage p2 ;;
  st <- get ;;
  let start := startPercent st in
  let end_ := start + requestedPercent in
  end_ <- (if end_ >? 100 then
             log_warning "Extended partition was truncated, %d%% beyond the end of the disk" ;;;
             ret 100
           else ret end_) ;;
  _createNextPartition device number "extended" partition start end_ ;;;
  modify (set_extension start end_).

Definition _createLogicalPartition (device : string) (number : Z)
    (partition : list string) : M unit :=
  st <- get ;;
  if extensionStart st =? -1 then
    log_error "Creating a logical partition without an extended partition" ;;;
    raise (SystemError "Logical partitions require extended partitions")
  else
    p2 <- item partition 2 ;;
    requestedPercent <- _getRequestedPercentage p2 ;;
    st <- get ;;
    let start := extensionStart st in
    let end_ := start + requestedPercent in
    end_ <- (if end_ >? extensionEnd st then
               log_warning "Logical partition was truncated, %d%% beyond the extended partition" ;;;
               ret (extensionEnd st)
             else ret end_) ;;
    _createNextPartition device number "logical" partition start end_ ;;;
    modify (set_extension end_ (extensionEnd st)).

(** Lines 218-238: the dictionary that [_createPartitionEntry] stores,
    from [part[2]] and the arguments of the call. *)
Definition partition_entry (sz : string) (number : Z)
    (device diskFstabId : string) (partFstabId : option string) : PartRecord :=
  let fulldevstring :=
    if number >? 0 then
      device +:+ (if str_in "loop" device then "p" else EmptyString) +:+ format_d number
    else device in
  let fullpartid :=
    if number >? 0 then
      diskFstabId +:+ (if str_in "loop" diskFstabId then "p" else EmptyString)
        +:+ format_d number
    else diskFstabId in
  let partFstabId :=
    match partFstabId with
    | None => if negb (str_in "=" diskFstabId) then Some fullpartid else None
    | Some given => Some given
    end in
  {| number := number; size := sz;
     device := fulldevstring; fstab_id := partFstabId |}.

Definition _createPartitionEntry (part : list string) (number : Z)
    (device diskFstabId : string) (partFstabId : option string) : M unit :=
  p2 <- item part 2 ;;
  p0 <- item part 0 ;;
  modify (set_partEntry
            (insert p0 (partition_entry p2 number device diskFstabId partFstabId))).

(** [options[k]] on the association list of the options. *)
Fixpoint option_value (options : list (string * string)) (k : string)
    : exn + string :=
  match options with
  | [] => inl KeyError
  | (k', v) :: rest =>
      if String.eqb k' k then inr v else option_value rest k
  end.

(** Lines 287-290: the list built from one [part_<name>] option. *)
Definition parse_partition (key value : string) : list string :=
  let name := drop_str 5 key in
  let partition := name :: split "," value in
  map strip
    (filter (fun x => bool_decide (0 < String.length (strip x))%nat) partition).

(** Lines 285-291: the declarations, in the iteration order of [options]. *)
Fixpoint declared_partitions (options : list (string * string))
    : list (list string) :=
  match options with
  | [] => []
  | (key, value) :: rest =>
      if startswith key "part_"
      then parse_partition key value :: declared_partitions rest
      else declared_partitions rest
  end.

(** The sort key [x[1]]; the default is never used by [sort_partitions]. *)
Definition order_token (part : list string) : string := nth 1 part EmptyString.

(** Line 293: [partitions.sort(key=lambda x: x[1])].  The keys of all
    elements are computed before anything is moved, so a declaration
    without an order token raises. *)
Definition sort_partitions (partitions : list (list string))
    : exn + list (list string) :=
  if forallb (fun p => bool_decide (2 <= length p)%nat) partitions
  then inr (sort_by String.leb order_token partitions)
  else inl IndexError.

(** The two handlers at lines 380-387. *)
Definition catch_part {A} (m : M A) : M A :=
  fun s =>
    match m s with
    | (Raise ValueError, s') =>
        (log_exception "Partition %s creation failed" ;;;
         log_failed ;;; return_None) s'
    | (Raise CalledProcessError, s') =>
        (log_exception "Partition %s shell call failed" ;;;
         log_failed ;;; return_None) s'
    | r => r
    end.

Definition ascii_is (o : option ascii) (c : ascii) : bool :=
  match o with
  | Some a => Ascii.eqb a c
  | None => false
  end.

(** Lines 304-379: the body of the [try] for one declaration, from the
    counters [primary] and [logical] to their next values. *)
Definition process_part (build : bool) (diskEntry : DiskEntry)
    (counters : Z * Z) (part : list string) : M (Z * Z) :=
  let '(primary, logical) := counters in
  token <- item part 1 ;;
  if ascii_is (last_char token) "L" then
    if negb (PART_LOGICAL_EXTENDED_ALLOWED pol) then
      log_error "Logical volumes are not allowed with type '%s'" ;;;
      log_failed ;;; return_None
    else if bool_decide (String.length token < 4)%nat
            || negb (ascii_is (String.get 1 token) "E")
            || negb (ascii_is (String.get 2 token) ":") then
      log_error "The format of 'part_%s' option is incorrect" ;;;
      log_error "   got: %s" ;;;
      log_error "   format required: <ex>:<part>L" ;;;
      log_error "      e.g.: 2:5L  where 2 is an extended partition" ;;;
      log_failed ;;; return_None
    else
      (if build then _createLogicalPartition (d_device diskEntry) logical part
       else ret tt) ;;;
      _createPartitionEntry part logical (d_device diskEntry)
        (d_fstab_id diskEntry) None ;;;
      ret (primary, logical + 1)
  else if ascii_is (last_char token) "E" then
    if negb (PART_LOGICAL_EXTENDED_ALLOWED pol) then
      log_error "Logical volumes are not allowed with type '%s'" ;;;
      log_failed ;;; return_None
    else if primary >? PART_PRIMARY_PARTITIONS pol then
      log_error "%s partition tables may only have 4 primary and extended partitions" ;;;
      log_error "   However, part_%s defines a 5th partition" ;;;
      log_failed ;;; return_None
    else if bool_decide (String.length token < 2)%nat then
      log_error "The format of 'part_%s' option is incorrect" ;;;
      log_error "    got: %s" ;;;
      log_error "    format required: <ex>E" ;;;
      log_error "       e.g.: 3E" ;;;
      log_failed ;;; return_None
    else
      st <- get ;;
      if negb (extensionStart st =? -1) then
        log_error "The disk can only have one extended partition" ;;;
        log_error "   part_%s specified a second extended partition" ;;;
        log_failed ;;; return_None
      else
        (if build then _createExtendedPartition (d_device diskEntry) primary part
         else ret tt) ;;;
        _createPartitionEntry part primary (d_device diskEntry)
          (d_fstab_id diskEntry) None ;;;
        ret (primary + 1, logical)
  else
    match last_char token with
    | None => raise IndexError
    | Some _ =>
        if primary >? PART_PRIMARY_PARTITIONS pol then
          log_error "%s partition tables may only have 4 primary and extended sections" ;;;
          log_error "   However, part_%s defines a 5th partition" ;;;
          log_failed ;;; return_None
        else
          (if build then _createPrimaryPartition (d_device diskEntry) primary part
           else ret tt) ;;;
          _createPartitionEntry part primary (d_device diskEntry)
            (d_fstab_id diskEntry) None ;;;
          ret (primary + 1, logical)
    end.

(** Lines 302-387: the loop over the sorted declarations. *)
Fixpoint partition_loop (build : bool) (diskEntry : DiskEntry)
    (parts : list (list string)) (counters : Z * Z) : M (Z * Z) :=
  match parts with
  | [] => ret counters
  | part :: rest =>
      counters' <- catch_part (process_part build diskEntry counters part) ;;
      partition_loop build diskEntry rest counters'
  end.

(** Lines 401-412: one turn of the swap pass.  An entry of
    [self.swaps] has at least four fields, so [partpartition[0]]
    exists; the bare [except] takes every exception. *)
Definition swap_step (build : bool) (sw : string * Z * list string) : M unit :=
  let '(_, _, partpartition) := sw in
  let name := hd EmptyString partpartition in
  fun s =>
    match
      ((if build then
          st <- get ;;
          match partEntry st !! name with
          | None => raise KeyError
          | Some r => check_call ["sudo"; "mkswap"; "-L"; name; device r]
          end
        else ret tt) ;;;
       st <- get ;;
       match partEntry st !! name with
       | None => raise KeyError
       | Some r =>
           let r' := {| number := number r; size := size r; device := device r;
                        fstab_id := Some ("LABEL=" +:+ name) |} in
           modify (set_partEntry (insert name r')) ;;;
           modify (set_disk_swaps (fun l => l ++ [(name, r')]))
       end) s
    with
    | (Raise _, s') =>
        log_exception "The swap, '%s', could not be initialized" s'
    | r => r
    end.

(** Lines 248-293: the system and the disk are looked up, the two
    dictionaries of the disk entry and the partition table are created
    and the declarations are collected and sorted.  The result is the
    disk entry and the declarations in processing order. *)
Definition prologue (env : gmap string SystemEntry)
    (options : list (string * string)) (build : bool)
    : M (DiskEntry * list (list string)) :=
  modify (set_swaps (fun _ => [])) ;;;
  system <- lift (option_value options "system") ;;
  diskname <- lift (option_value options "disk-name") ;;
  match env !! _getEnvKey system with
  | None =>
      log_error "System '%s' is not defined" ;;; log_failed ;;; return_None
  | Some systemEntry =>
      match sys_disks systemEntry ≫= (fun disks => disks !! diskname) with
      | None =>
          log_error "Disk '%s' is not defined for system '%s'" ;;;
          log_failed ;;; return_None
      | Some diskEntry =>
          match d_partitions diskEntry with
          | Some _ =>
              log_error "Parititions have already been defined for disk '%s'" ;;;
              log_failed ;;; return_None
          | None =>
              modify (set_partEntry (fun _ => ∅)) ;;;
              modify (set_disk_swaps (fun _ => [])) ;;;
              (if build then
                 check_call ["sudo"; "parted"; "-s"; d_device diskEntry; "--";
                             "mklabel"; PART_TYPE pol]
               else ret tt) ;;;
              modify (set_sizes (sys_system systemEntry) (d_size diskEntry)) ;;;
              log_devdebug "Processing partitions: %s" ;;;
              partitions <- lift (sort_partitions (declared_partitions options)) ;;
              ret (diskEntry, partitions)
          end
      end
  end.

(** Lines 388-415: probe, settle, the swap pass and the result. *)
Definition finish_partitioning (build : bool) (diskEntry : DiskEntry)
    : M (gmap string PartRecord) :=
  result <- call ["sudo"; "partprobe"; d_device diskEntry] ;;
  (if result =? 0 then ret tt else log_warning "Part probe failed") ;;;
  result <- call ["sudo"; "udevadm"; "settle"] ;;
  (if result =? 0 then ret tt else log_warning "settle failed") ;;;
  st <- get ;;
  for_each (swaps st) (swap_step build) ;;;
  log_passed ;;;
  st <- get ;;
  ret (partEntry st).

Definition _doPartitioning (env : gmap string SystemEntry)
    (options : list (string * string)) (build : bool)
    : M (gmap string PartRecord) :=
  found <- prologue env options build ;;
  let '(diskEntry, partitions) := found in
  _ <- partition_loop build diskEntry partitions (1, 5) ;;
  finish_partitioning build diskEntry.

Definition system_build env options := _doPartitioning env options true.
Definition build env options := _doPartitioning env options true.
Definition use_system_build env options := _doPartitioning env options false.

End Partitions.

(** ** SystemBuildFileSystem: the order of the mount points *)

Module FileSystem.

(** Line 87: [[x for x in options.keys() if x[0] == '/']]. *)
Fixpoint mount_keys (options : list (string * string)) : exn + list string :=
  match options with
  | [] => inr []
  | (k, _) :: rest =>
      match k with
      | EmptyString => inl IndexError
      | String a _ =>
          match mount_keys rest with
          | inl e => inl e
          | inr ks => inr (if Ascii.eqb a "/" then k :: ks else ks)
          end
      end
  end.

(** The sort key [len(x.split('/'))]. *)
Definition components (x : string) : nat := length (split "/" x).

(** Lines 87-90: the list that the loop of [_createFileSystemRecord]
    walks; each mount point is formatted and recorded in its turn. *)
Definition mountpts (options : list (string * string)) : exn + list string :=
  match mount_keys options with
  | inl e => inl e
  | inr ks => inr (sort_by Nat.leb components ks)
  end.

End FileSystem.

(** ** The size parser of the system object *)

(** Modelled from the spec: [SystemBuild._getSizeInBytes] belongs to a
    module that is not among the sources.  The design document says
    that it parses a size with a unit suffix into bytes and that a
    malformed size is fatal; the option documentation of the partition
    module gives the units as G and M.  Binary multiples are assumed.
    The theorems below hold for every parser; this one only serves to
    run the modules on concrete declarations. *)
Fixpoint parse_digits (s : string) (acc : option Z) : option Z * string :=
  match s with
  | EmptyString => (acc, EmptyString)
  | String a s' =>
      match Ascii.is_nat a with
      | Some d => parse_digits s' (Some (10 * default 0 acc + Z.of_nat d))
      | None => (acc, s)
      end
  end.

Definition size_in_bytes (size : string) : exn + Z :=
  match parse_digits size None with
  | (Some n, "M") => inr (n * 1048576)
  | (Some n, "G") => inr (n * 1073741824)
  | _ => inl ValueError
  end.

Definition unit_parser : SystemInstance := {| _getSizeInBytes := size_in_bytes |}.

(** Tools that always succeed. *)
Definition tools_ok : list Cmd -> Cmd -> Z := fun _ _ => 0.

(** A state before the first invocation; every field that is read is
    assigned by [_doPartitioning] first. *)
Definition blank : State := {|
  partEntry := ∅; disk_swaps := []; swaps := [];
  systemInstance := unit_parser; disksize := 0;
  startPercent := 0; extensionStart := 0; extensionEnd := 0;
  log := []; trace := []; calls := []
|}.

(** A system with one unpartitioned disk. *)
Definition one_disk (system diskname device : string) (dsize : Z)
    (fstab : string) : gmap string SystemEntry :=
  {[ _getEnvKey system :=
       {| sys_disks := Some {[ diskname :=
            {| d_device := device; d_size := dsize; d_fstab_id := fstab;
               d_partitions := None |} ]};
          sys_system := unit_parser |} ]}.

(** ** The environment of the later build steps *)

(** More of Python's string methods. *)
Module PyStr.

(** [s.lstrip(chars)]: drops the leading characters that belong to
    the set [chars]. *)
Fixpoint lstrip_chars (chars s : string) : string :=
  match s with
  | EmptyString => EmptyString
  | String a s' => if chr_in a chars then lstrip_chars chars s' else s
  end.

(** [s.split()]: the maximal runs of characters that are not white
    space. *)
Fixpoint split_ws (s : string) : list string :=
  match s with
  | EmptyString => []
  | String a s' =>
      if Ascii.is_space a then split_ws s'
      else match s' with
           | EmptyString => [String a EmptyString]
           | String b _ =>
               if Ascii.is_space b then String a EmptyString :: split_ws s'
               else match split_ws s' with
                    | w :: ws => String a w :: ws
                    | [] => [String a EmptyString]
                    end
           end
  end.

(** [s.split(sep, 1)] for a string that contains [sep]: the text
    before the first [sep] and the text after it. *)
Fixpoint split_once (sep : ascii) (s : string) : string * string :=
  match s with
  | EmptyString => (EmptyString, EmptyString)
  | String a s' =>
      if Ascii.eqb a sep then (EmptyString, s')
      else let '(before, after) := split_once sep s' in (String a before, after)
  end.

(** [s[:n]] *)
Fixpoint take_str (n : nat) (s : string) : string :=
  match n, s with
  | S n', String a s' => String a (take_str n' s')
  | _, _ => EmptyString
  end.

(** [s.upper()] on a byte string: the letters [a] to [z] only. *)
Definition upper_char (a : ascii) : ascii :=
  let n := nat_of_ascii a in
  if (Nat.leb 97 n && Nat.leb n 122)%bool then ascii_of_nat (n - 32) else a.

Fixpoint upper (s : string) : string :=
  match s with
  | EmptyString => EmptyString
  | String a s' => String (upper_char a) (upper s')
  end.

End PyStr.

Import PyStr.

(** What the later steps can raise: the exceptions of the partition
    modules, and Python's [TypeError]. *)
Inductive error :=
| Builtin (e : exn)
| TypeError.

(** How a method ends: with a value, with the early [return] that
    follows [self.log.failed()], or with an exception. *)
Inductive Out (A : Type) :=
| Done (a : A)
| Return_None
| Throw (e : error).
Arguments Done {A} a.
Arguments Return_None {A}.
Arguments Throw {A} e.

(** A value of the ['filesystem'] dictionary: the tuple
    [(mountpoint, device, type, fstab-id)]. *)
Definition FsTuple : Type := string * string * string * string.

(** A value of the ['filesystem-info'] dictionary.  The source stores
    the disk entry and the partition record themselves, not copies;
    they are named here by the keys under which the system entry holds
    them. *)
Record FsInfo := {
  info_disk : string;
  info_partition : option string
}.

(** A system entry with the keys that the file system step adds. *)
Record Entry := {
  e_system : SystemEntry;
  e_filesystem : option (gmap string FsTuple);
  e_filesystem_info : option (gmap string FsInfo)
}.

(** A value of [self.env.env]: a system entry or the text of a
    variable. *)
Inductive EnvValue :=
| Str (s : string)
| System (e : Entry).

Abbreviation Env := (gmap string EnvValue).

(** The objects that a step works on, with the log and the commands
    issued. *)
Record World (E : Type) := {
  w_obj : E;
  w_log : list log_entry;
  w_trace : list Cmd
}.
Arguments w_obj {E} w.
Arguments w_log {E} w.
Arguments w_trace {E} w.

Definition set_obj {E} (f : E -> E) (w : World E) : World E :=
  {| w_obj := f (w_obj w); w_log := w_log w; w_trace := w_trace w |}.

Definition add_w_log {E} (e : log_entry) (w : World E) : World E :=
  {| w_obj := w_obj w; w_log := w_log w ++ [e]; w_trace := w_trace w |}.

Definition add_w_trace {E} (c : Cmd) (w : World E) : World E :=
  {| w_obj := w_obj w; w_log := w_log w; w_trace := w_trace w ++ [c] |}.

Definition W (E A : Type) : Type := World E -> Out A * World E.

Definition wret {E A} (a : A) : W E A := fun w => (Done a, w).
Definition wraise {E A} (e : error) : W E A := fun w => (Throw e, w).
Definition wreturn_None {E A} : W E A := fun w => (Return_None, w).

Definition wbind {E A B} (m : W E A) (k : A -> W E B) : W E B :=
  fun w =>
    match m w with
    | (Done a, w') => k a w'
    | (Return_None, w') => (Return_None, w')
    | (Throw e, w') => (Throw e, w')
    end.

Declare Scope world_scope.
Delimit Scope world_scope with W.
Notation "x <- c1 ;; c2" := (wbind c1 (fun x => c2))
  (at level 100, c1 at next level, right associativity) : world_scope.
Notation "c1 ;;; c2" := (wbind c1 (fun _ => c2))
  (at level 100, right associativity) : world_scope.

Definition wget {E} : W E E := fun w => (Done (w_obj w), w).
Definition wmodify {E} (f : E -> E) : W E unit := fun w => (Done tt, set_obj f w).
Definition wlog {E} (e : log_entry) : W E unit := fun w => (Done tt, add_w_log e w).

Definition wlift {E A} (r : exn + A) : W E A :=
  match r with
  | inl e => wraise (Builtin e)
  | inr a => wret a
  end.

(** [for x in l: body x] *)
Fixpoint wfor_each {E A} (l : list A) (body : A -> W E unit) : W E unit :=
  match l with
  | [] => wret tt
  | x :: l' => (body x ;;; wfor_each l' body)%W
  end.

(** [try: m except: handler] with a bare [except]. *)
Definition try_except {E A} (m handler : W E A) : W E A :=
  fun w =>
    match m w with
    | (Throw _, w') => handler w'
    | r => r
    end.

(** ** SystemBuildFileSystem *)

(** The dictionaries that [_createFileSystemRecord] reads and fills:
    [systemEntry['disks']] ([None] when the key is absent), and the
    two it creates and stores as [systemEntry['filesystem']] and
    [systemEntry['filesystem-info']].  The system entry holds these
    objects during the whole call. *)
Record FsObjects := {
  disks : option (gmap string DiskEntry);
  fsEntry : gmap string FsTuple;
  fsinfoEntry : gmap string FsInfo
}.

Definition set_disks (f : gmap string DiskEntry -> gmap string DiskEntry)
    (o : FsObjects) : FsObjects :=
  {| disks := f <$> disks o; fsEntry := fsEntry o; fsinfoEntry := fsinfoEntry o |}.

Definition set_fsEntry (f : gmap string FsTuple -> gmap string FsTuple)
    (o : FsObjects) : FsObjects :=
  {| disks := disks o; fsEntry := f (fsEntry o); fsinfoEntry := fsinfoEntry o |}.

Definition set_fsinfoEntry (f : gmap string FsInfo -> gmap string FsInfo)
    (o : FsObjects) : FsObjects :=
  {| disks := disks o; fsEntry := fsEntry o; fsinfoEntry := f (fsinfoEntry o) |}.

(** The object that [fstabTarget] refers to. *)
Inductive Target :=
| OnDisk (diskname : string)
| OnPartition (diskname partname : string).

Global Instance Target_eq_dec : EqDecision Target.
Proof. solve_decision. Defined.

(** [fstabTarget['fstab-id'] = v] *)
Definition set_fstab_id (t : Target) (v : string) (ds : gmap string DiskEntry)
    : gmap string DiskEntry :=
  match t with
  | OnDisk d =>
      alter (fun de => {| d_device := d_device de; d_size := d_size de;
                          d_fstab_id := v; d_partitions := d_partitions de |}) d ds
  | OnPartition d p =>
      alter (fun de =>
               {| d_device := d_device de; d_size := d_size de;
                  d_fstab_id := d_fstab_id de;
                  d_partitions :=
                    alter (fun r => {| number := number r; size := size r;
                                       device := device r; fstab_id := Some v |}) p
                      <$> d_partitions de |}) d ds
  end.

(** Lines 92-100: the fields of one mount point option; [None] stands
    for the [ValueError] that the source raises and catches. *)
Definition mount_spec (value : string) : option (string * string * list string) :=
  match split "," value with
  | [csmakedevice; fstype] => Some (csmakedevice, fstype, [])
  | [csmakedevice; fstype; fsoptions] =>
      Some (csmakedevice, fstype, split_ws fsoptions)
  | _ => None
  end.

(** Lines 111-116. *)
Definition device_names (csmakedevice : string) : string * option string :=
  if chr_in "." csmakedevice then
    let '(diskname, partname) := split_once "." csmakedevice in
    (diskname, Some partname)
  else (csmakedevice, None).

Section FileSystemRecord.

(** The exit status of a command, given the commands issued before. *)
Variable tool : list Cmd -> Cmd -> Z.

Definition wcall {E} (c : Cmd) : W E Z :=
  fun w => (Done (tool (w_trace w) c), add_w_trace c w).

Definition wcheck_call {E} (c : Cmd) : W E unit :=
  (r <- wcall c ;;
   if r =? 0 then wret tt else wraise (Builtin CalledProcessError))%W.

(** The labelers return Python values; every one of this class
    returns the label, a string. *)
Definition label_with {E} (command : Cmd) (fslabel : string) (build : bool)
    : W E (option string) :=
  ((if build then wcheck_call command else wret tt) ;;;
   wret (Some fslabel))%W.

Definition _labelFileSystem_ext {E} (fslabel device : string) (build : bool)
    : W E (option string) :=
  label_with ["sudo"; "e2label"; device; fslabel] fslabel build.

Definition _labelFileSystem_ext2 {E} : string -> string -> bool -> W E (option string) :=
  _labelFileSystem_ext.
Definition _labelFileSystem_ext3 {E} : string -> string -> bool -> W E (option string) :=
  _labelFileSystem_ext.
Definition _labelFileSystem_ext4 {E} : string -> string -> bool -> W E (option string) :=
  _labelFileSystem_ext.

Definition _labelFileSystem_btrfs {E} (fslabel device : string) (build : bool)
    : W E (option string) :=
  label_with ["sudo"; "btrfs"; "filesystem"; "label"; device; fslabel] fslabel build.

Definition _labelFileSystem_vfat {E} (fslabel device : string) (build : bool)
    : W E (option string) :=
  let fslabel := upper (take_str (Nat.min (String.length fslabel) 11) fslabel) in
  label_with ["sudo"; "fatlabel"; device; fslabel] fslabel build.

Definition _labelFileSystem_fat {E} : string -> string -> bool -> W E (option string) :=
  _labelFileSystem_vfat.

Definition _labelFileSystem_NTFS {E} (fslabel device : string) (build : bool)
    : W E (option string) :=
  label_with ["sudo"; "ntfslabel"; device; fslabel] fslabel build.

Definition _labelFileSystem_jfs {E} (fslabel device : string) (build : bool)
    : W E (option string) :=
  label_with ["sudo"; "jfs_tune"; "-L"; fslabel; device] fslabel build.

Definition _labelFileSystem_xfs {E} (fslabel device : string) (build : bool)
    : W E (option string) :=
  label_with ["sudo"; "xfs_admin"; "-L"; fslabel; device] fslabel build.

(** [hasattr(self, "_labelFileSystem_%s" % fstype)] and the [getattr]
    that follows: the methods of the class with that prefix. *)
Definition labeler {E} (fstype : string)
    : option (string -> string -> bool -> W E (option string)) :=
  if String.eqb fstype "ext2" then Some _labelFileSystem_ext2
  else if String.eqb fstype "ext3" then Some _labelFileSystem_ext3
  else if String.eqb fstype "ext4" then Some _labelFileSystem_ext4
  else if String.eqb fstype "ext" then Some _labelFileSystem_ext
  else if String.eqb fstype "btrfs" then Some _labelFileSystem_btrfs
  else if String.eqb fstype "vfat" then Some _labelFileSystem_vfat
  else if String.eqb fstype "fat" then Some _labelFileSystem_fat
  else if String.eqb fstype "NTFS" then Some _labelFileSystem_NTFS
  else if String.eqb fstype "jfs" then Some _labelFileSystem_jfs
  else if String.eqb fstype "xfs" then Some _labelFileSystem_xfs
  else None.

Definition label_failure : string :=
  "Failed to label filesystem - the booted image may not be able to find: %s".

(** Lines 153-163, given the value [current] that
    [fstabTarget['fstab-id']] has at line 153; the result is the value
    it has at line 164.  Nothing else writes that key in between. *)
Definition label_target (build : bool) (fstype fslabel device : string)
    (target : Target) (current : option string) : W FsObjects string :=
  match current with
  | None => wraise TypeError
  | Some id =>
      if negb (chr_in "=" id) then
        match labeler fstype with
        | Some method =>
            try_except
              (newlabel <- method fslabel device build ;;
               match newlabel with
               | Some l =>
                   wmodify (set_disks (set_fstab_id target ("LABEL=" +:+ l))) ;;;
                   wret ("LABEL=" +:+ l)
               | None => wlog (Lwarning label_failure) ;;; wret id
               end)%W
              (wlog (Lexception label_failure) ;;; wret id)%W
        | None => wret id
        end
      else wret id
  end.

(** Lines 143-164. *)
Definition make_filesystem (build : bool) (mountpt fstype : string)
    (fsoptions : list string) (fslabel device : string) (target : Target)
    (current : option string) : W FsObjects unit :=
  ((if build then
      wcheck_call (["sudo"; "mkfs"; "-t"; fstype] ++ fsoptions ++ [device])
    else wret tt) ;;;
   fstabid <- label_target build fstype fslabel device target current ;;
   wmodify (set_fsEntry (insert mountpt (mountpt, device, fstype, fstabid))))%W.

(** Lines 91-164: the body of the loop. *)
Definition record_mount (options : list (string * string)) (build : bool)
    (mountpt : string) : W FsObjects unit :=
  (value <- wlift (option_value options mountpt) ;;
   match mount_spec value with
   | None =>
       wlog (Lerror "Filesystem spec was invalid (%s): '%s=%s'") ;;;
       wlog Lfailed ;;; wreturn_None
   | Some (csmakedevice, fstype, fsoptions) =>
       let csmakedevice := strip csmakedevice in
       let '(diskname, partname) := device_names csmakedevice in
       let fstype := strip fstype in
       o <- wget ;;
       alldisks <- wlift (match disks o with
                          | Some ds => inr ds
                          | None => inl KeyError
                          end) ;;
       match alldisks !! diskname with
       | None =>
           wlog (Lerror "Device '%s' for mount point '%s' undefined") ;;;
           wlog Lfailed ;;; wreturn_None
       | Some diskEntry =>
           wmodify (set_fsinfoEntry
                      (insert mountpt {| info_disk := diskname;
                                         info_partition := None |})) ;;;
           match partname with
           | None =>
               make_filesystem build mountpt fstype fsoptions diskname
                 (d_device diskEntry) (OnDisk diskname)
                 (Some (d_fstab_id diskEntry))
           | Some partname =>
               partEntry <- wlift (match d_partitions diskEntry with
                                   | Some ps => inr ps
                                   | None => inl KeyError
                                   end) ;;
               match partEntry !! partname with
               | None =>
                   wlog (Lerror "Partition '%s' for disk '%s' undefined") ;;;
                   wlog Lfailed ;;; wreturn_None
               | Some record =>
                   wmodify (set_fsinfoEntry
                              (insert mountpt {| info_disk := diskname;
                                                 info_partition := Some partname |})) ;;;
                   make_filesystem build mountpt fstype fsoptions partname
                     (device record) (OnPartition diskname partname)
                     (fstab_id record)
               end
           end
       end
   end)%W.

(** Lines 87-167, on the dictionaries of the system entry. *)
Definition record_all (options : list (string * string)) (build : bool)
    : W FsObjects (gmap string FsTuple) :=
  (mountpts <- wlift (FileSystem.mountpts options) ;;
   wfor_each mountpts (record_mount options build) ;;;
   wcall ["sync"] ;;;
   wlog Lpassed ;;;
   o <- wget ;;
   wret (fsEntry o))%W.

(** The system entry that holds the dictionaries [o]. *)
Definition entry_with (systemEntry : Entry) (o : FsObjects) : Entry :=
  {| e_system := {| sys_disks := disks o;
                    sys_system := sys_system (e_system systemEntry) |};
     e_filesystem := Some (fsEntry o);
     e_filesystem_info := Some (fsinfoEntry o) |}.

(** Runs [m] on the dictionaries of the entry under [key], which
    lines 83-86 have given an empty ['filesystem'] and an empty
    ['filesystem-info']; however [m] ends, the entry keeps what [m]
    did to them. *)
Definition on_entry {A} (key : string) (systemEntry : Entry)
    (m : W FsObjects A) : W Env A :=
  fun w =>
    let '(r, w') :=
      m {| w_obj := {| disks := sys_disks (e_system systemEntry);
                       fsEntry := ∅; fsinfoEntry := ∅ |};
           w_log := w_log w; w_trace := w_trace w |} in
    (r, {| w_obj := <[key := System (entry_with systemEntry (w_obj w'))]> (w_obj w);
           w_log := w_log w'; w_trace := w_trace w' |}).

Definition already_defined {A} : W Env A :=
  (wlog (Lerror "System '%s' already has a filesystem defined") ;;;
   wlog Lfailed ;;; wreturn_None)%W.

Definition _createFileSystemRecord (options : list (string * string))
    (build : bool) : W Env (gmap string FsTuple) :=
  (system <- wlift (option_value options "system") ;;
   let key := _getEnvKey system in
   env <- wget ;;
   match env !! key with
   | None =>
       wlog (Lerror "System '%s' is not defined") ;;;
       wlog Lfailed ;;; wreturn_None
   | Some (Str text) =>
       (* ['filesystem' in systemEntry] on a string, then an item
          assignment to it *)
       if str_in "filesystem" text then already_defined
       else wraise TypeError
   | Some (System systemEntry) =>
       match e_filesystem systemEntry with
       | Some _ => already_defined
       | None => on_entry key systemEntry (record_all options build)
       end
   end)%W.

End FileSystemRecord.

Module SystemBuildFileSystem.
Definition build tool options := _createFileSystemRecord tool options true.
Definition system_build := build.
Definition use_system_build tool options := _createFileSystemRecord tool options false.
End SystemBuildFileSystem.

(** ** SystemBuildGetPartitionDevices *)

Module GetPartitionDevices.

(** Lines 49-54; [self.options] is the argument. *)
Fixpoint _getEnvironmentVariables (options : list (string * string))
    : list (string * string) :=
  match options with
  | [] => []
  | (option, envvar) :: rest =>
      if startswith option "env_" then
        (lstrip_chars "env_" option, envvar) :: _getEnvironmentVariables rest
      else _getEnvironmentVariables rest
  end.

(** Lines 63-65 and 103-105: binds a variable, with a warning when it
    was bound already. *)
Definition bind_variable (env value : string) : W Env unit :=
  (vars <- wget ;;
   (if decide (is_Some (vars !! env))
    then wlog (Lwarning "Overwriting environment '%s'") else wret tt) ;;;
   wmodify (insert env (Str value)))%W.

(** Lines 87-110. *)
Definition start__build (options : list (string * string)) : W Env unit :=
  (let envvars := _getEnvironmentVariables options in
   (* a missing ['system'] option raises again in the handler *)
   name <- wlift (option_value options "system") ;;
   vars <- wget ;;
   match vars !! _getEnvKey name with
   | None =>
       wlog (Lerror "System '%s' could not be found") ;;;
       wlog Lfailed ;;; wreturn_None
   | Some system =>
       wfor_each envvars (fun '(mpt, env) =>
         match system with
         | Str text =>
             (* ['filesystem' not in system] on a string, then an
                index by a string *)
             if negb (str_in "filesystem" text) then
               wlog (Lerror "The filesystem for the SystemBuild is not yet defined") ;;;
               wlog Lfailed ;;; wreturn_None
             else wraise TypeError
         | System entry =>
             match e_filesystem entry with
             | None =>
                 wlog (Lerror "The filesystem for the SystemBuild is not yet defined") ;;;
                 wlog Lfailed ;;; wreturn_None
             | Some filesystem =>
                 match filesystem !! mpt with
                 | Some (_, device, _, _) => bind_variable env device
                 | None =>
                     wlog (Lwarning "Mountpoint '%s' does not exist in system '%s'.") ;;;
                     wmodify (insert env (Str "## Device not found"))
                 end
             end
         end) ;;;
       wlog Lpassed
   end)%W.

(** Lines 56-67. *)
Definition start (phase : string) (options : list (string * string))
    : W Env unit :=
  if (String.eqb phase "build" || String.eqb phase "system_build")%bool then
    start__build options
  else
    (wfor_each (_getEnvironmentVariables options)
       (fun '(_, env) => bind_variable env "<undefined>") ;;;
     wlog Lpassed)%W.

(** Lines 69-76. *)
Definition end_ (options : list (string * string)) : W Env unit :=
  (wfor_each (_getEnvironmentVariables options)
     (fun '(_, env) =>
        vars <- wget ;;
        if decide (is_Some (vars !! env)) then wmodify (delete env)
        else wret tt) ;;;
   wlog Lpassed)%W.

Definition start__system_build := start__build.
Definition start__use_system_build := start__build.
Definition end__build := end_.
Definition end__system_build := end_.
Definition end__use_system_build := end_.

End GetPartitionDevices.

(** * Vocabulary of the properties *)

(** The order of the keys, on the elements. *)
Definition key_le {A K} (leb : K -> K -> bool) (key : A -> K) (x y : A) : Prop :=
  leb (key x) (key y) = true.

(** The elements whose key is equivalent to [k]. *)
Definition same_key {A K} (leb : K -> K -> bool) (key : A -> K) (k : K) (x : A)
    : bool :=
  leb k (key x) && leb (key x) k.

(** What cannot be negative. *)
Definition nonneg (x : Float.float) : Prop :=
  match x with
  | Float.Finite neg m _ => neg = false /\ 0 <= m
  | Float.Infinity neg => neg = false
  | Float.NaN => True
  end.

(** The warning of line 131. *)
Definition too_small_warning : log_entry :=
  Lwarning "The requested partition was too small (%s), the partition has been rounded up to the next available size".

(** A state on which only the size resolver matters. *)
Definition sized (dsize : Z) : State := set_sizes unit_parser dsize blank.

(** [keeps f m]: running [m] leaves the observation [f] of the state
    as it was, however [m] ends. *)
Definition keeps {X A} (f : State -> X) (m : M A) : Prop :=
  forall s, f (snd (m s)) = f s.


(** The class of a declaration, as line 304 decides it. *)
Definition is_logical (part : list string) : bool :=
  ascii_is (last_char (order_token part)) "L".

(** What a step of the loop may do to the partition dictionary: on
    success [Q] holds, otherwise the dictionary is as before. *)
Definition outcome {A} (Q : A -> State -> Prop) (s : State)
    (x : Res A * State) : Prop :=
  match x with
  | (Val a, s') => Q a s'
  | (_, s') => partEntry s' = partEntry s
  end.

(** A declaration that the loop accepts: its record is stored under
    its name, with the number of its class counter, and that counter
    moves on. *)
Definition step_post (pol : Policy) (disk : DiskEntry) (p l : Z) (part : list string)
    (s : State) (c : Z * Z) (s' : State) : Prop :=
  exists name token sz,
    nth_error part 0 = Some name /\ nth_error part 1 = Some token
    /\ nth_error part 2 = Some sz
    /\ partEntry s'
       = <[name := partition_entry sz (if is_logical part then l else p)
                     (d_device disk) (d_fstab_id disk) None]> (partEntry s)
    /\ c = (if is_logical part then (p, l + 1) else (p + 1, l))
    /\ (is_logical part = false -> p <= PART_PRIMARY_PARTITIONS pol).

(** How many of [parts] are of the given class. *)
Fixpoint count_class (lg : bool) (parts : list (list string)) : Z :=
  match parts with
  | [] => 0
  | part :: rest =>
      (if Bool.eqb (is_logical part) lg then 1 else 0) + count_class lg rest
  end.

(** The number of the declaration at position [i] when the counters
    start at [p] and [l]: its class counter, plus the number of
    declarations of its class before it. *)
Definition numbered_from (p l : Z) (parts : list (list string)) (i : nat)
    (part : list string) : Z :=
  (if is_logical part then l else p)
  + count_class (is_logical part) (take i parts).

(** A record without its boot-time identifier. *)
Definition without_fstab_id (r : PartRecord) : PartRecord :=
  {| number := number r; size := size r; device := device r; fstab_id := None |}.

(** The number that the scheme gives to the declaration at position
    [i]: counted from 1 among the primary and extended declarations,
    from 5 among the logical ones. *)
Definition class_number (parts : list (list string)) (i : nat)
    (part : list string) : Z :=
  (if is_logical part then 5 else 1)
  + count_class (is_logical part) (take i parts).

(** A disk of 100 GiB and five declarations, given out of order. *)
Definition example_env : gmap string SystemEntry :=
  one_disk "mysystem" "mydisk" "/dev/sda" 107374182400 "/dev/sda".

Definition example_options : list (string * string) :=
  [("system", "mysystem"); ("disk-name", "mydisk");
   ("part_swap", "2E:6L, 2G, linux-swap");
   ("part_home", "3, 20G, ext4");
   ("part_boot", "01, 1G, ext2, boot");
   ("part_data", "2E:5L, 20G, ext4");
   ("part_ext", "2E, 50G, extended")].

Definition example_disk : DiskEntry :=
  {| d_device := "/dev/sda"; d_size := 107374182400; d_fstab_id := "/dev/sda";
     d_partitions := None |}.

Definition example_parts : list (list string) :=
  [["boot"; "01"; "1G"; "ext2"; "boot"];
   ["ext"; "2E"; "50G"; "extended"];
   ["data"; "2E:5L"; "20G"; "ext4"];
   ["swap"; "2E:6L"; "2G"; "linux-swap"];
   ["home"; "3"; "20G"; "ext4"]].



(** The separator between a device string and a partition number. *)
Definition partsep (dev : string) : string :=
  if str_in "loop" dev then "p" else EmptyString.

(** What C7 says the boot-time identifier of a partition is: the disk's
    own, or a numbered one when the disk's contains ['=']. *)
Definition claimed_fstab_id (diskFstabId : string) (n : Z) : option string :=
  if str_in "=" diskFstabId
  then Some (diskFstabId +:+ partsep diskFstabId +:+ format_d n)
  else Some diskFstabId.

(** The state after some more commands. *)
Definition add_traces (cmds : list Cmd) (s : State) : State :=
  fold_left (fun s c => add_trace c s) cmds s.

(** A partitioning tool that refuses to set flags. *)
Definition refuses_flags : list Cmd -> Cmd -> Z :=
  fun _ c => if String.eqb (nth 5 c EmptyString) "set" then 1 else 0.


(** The class test of line 328. *)
Definition is_extended (part : list string) : bool :=
  ascii_is (last_char (order_token part)) "E".

(** A logical declaration before the extended one it names. *)
Definition orphan_options : list (string * string) :=
  [("system", "mysystem"); ("disk-name", "mydisk");
   ("part_boot", "1, 1G, ext2, boot");
   ("part_data", "2E:5L, 20G, ext2")].

(** The declarations of the example in the design document. *)
Definition documented_options : list (string * string) :=
  [("system", "mysystem"); ("disk-name", "mydisk");
   ("part_root", "01,10G,ext4,boot");
   ("part_swap", "02,2G,linux-swap")].

(** Two extents [[start,end)] that share a point. *)
Definition overlap (a b : NextCall) : Prop :=
  nc_start a < nc_end b /\ nc_start b < nc_end a.

(** An extended partition followed by a primary one. *)
Definition extended_first_options : list (string * string) :=
  [("system", "mysystem"); ("disk-name", "mydisk");
   ("part_ext", "1E, 50G, extended");
   ("part_data", "2, 20G, ext2")].

(** What the creation of partitions reads and writes besides the log,
    the commands and the swap list. *)
Definition layout (s : State) : list NextCall * (Z * Z * Z) * (SystemInstance * Z) :=
  (calls s, (startPercent s, extensionStart s, extensionEnd s),
   (systemInstance s, disksize s)).

(** [a] ends where [b] starts, or before. *)
Definition before (a b : NextCall) : Prop := nc_end a <= nc_start b.

(** [a] lies inside [b]. *)
Definition within (a b : NextCall) : Prop :=
  nc_start b <= nc_start a /\ nc_end a <= nc_end b.

(** The part of the layout rule that the code keeps, for a partition
    [a] created before a partition [b]: primary partitions follow each
    other, logical partitions follow each other, a logical partition
    lies inside the extended partition, and no second extended
    partition is created. *)
Definition laid_out (a b : NextCall) : Prop :=
  (nc_type a = "primary" -> nc_type b = "primary" -> before a b)
  /\ (nc_type a = "logical" -> nc_type b = "logical" -> before a b)
  /\ (nc_type a = "extended" -> nc_type b = "logical" -> within b a)
  /\ (nc_type a = "extended" -> nc_type b <> "extended").

Definition on_disk (a : NextCall) : Prop :=
  0 <= nc_start a <= nc_end a /\ nc_end a <= 100.

(** The sizes that the resolver can be given. *)
Definition sizes_ok (s : State) : Prop :=
  0 < disksize s
  /\ forall size bytes,
       _getSizeInBytes (systemInstance s) size = inr bytes -> 0 <= bytes.

(** The invariant of the loop in build mode, on the calls made so
    far, the cursor of the disk and the span of the extended partition. *)
Definition good (cs : list NextCall) (sp es ee : Z) : Prop :=
  0 <= sp <= 100
  /\ StronglySorted laid_out cs
  /\ Forall on_disk cs
  /\ Forall (fun a => nc_type a = "primary" -> nc_end a <= sp) cs
  /\ (es = -1 -> Forall (fun a => nc_type a = "primary") cs)
  /\ (es <> -1 ->
      0 <= es <= ee /\ ee <= 100
      /\ Forall (fun a =>
                   (nc_type a = "extended" -> nc_start a <= es /\ nc_end a = ee)
                   /\ (nc_type a = "logical" -> nc_end a <= es)) cs).

Definition Inv (s : State) : Prop :=
  good (calls s) (startPercent s) (extensionStart s) (extensionEnd s).

(** What holds of the calls however the run ends. *)
Definition Final (s : State) : Prop :=
  StronglySorted laid_out (calls s) /\ Forall on_disk (calls s).

(** What is asked of a piece of the loop: the calls are laid out
    however it ends, and the invariant holds again when it completes. *)
Definition ok_result {A} (x : Res A * State) : Prop :=
  Final (snd x) /\ sizes_ok (snd x)
  /\ (forall a, fst x = Val a -> Inv (snd x)).

Definition effect {A} (m : M A) (s : State) : Prop := ok_result (m s).

(** The swap list of the disk and its partition dictionary agree:
    every entry of the list is the record stored under its label, and
    that record refers to the partition by this label. *)
Definition swaps_labelled (s : State) : Prop :=
  forall label rec,
    (label, rec) ∈ disk_swaps s ->
    partEntry s !! label = Some rec
    /\ fstab_id rec = Some ("LABEL=" +:+ label).

(** A disk that has its partitions already. *)
Definition partitioned_env : gmap string SystemEntry :=
  {[ _getEnvKey "mysystem" :=
       {| sys_disks := Some {[ "mydisk" :=
            {| d_device := "/dev/sda"; d_size := 107374182400;
               d_fstab_id := "/dev/sda"; d_partitions := Some ∅ |} ]};
          sys_system := unit_parser |} ]}.

(** [wkeeps f m]: running [m] leaves the observation [f] as it was,
    however [m] ends. *)
Definition wkeeps {E X A} (f : World E -> X) (m : W E A) : Prop :=
  forall w, f (snd (m w)) = f w.

(** The ways in which [_createFileSystemRecord] ends before it
    touches the system entry. *)
Definition stops_early {A} (w : World Env) (r : Out A) (w' : World Env) : Prop :=
  w_obj w' = w_obj w /\ w_trace w' = w_trace w
  /\ ((r = Throw (Builtin KeyError) /\ w_log w' = w_log w)
      \/ (r = Throw TypeError /\ w_log w' = w_log w)
      \/ (r = Return_None
          /\ exists msg, w_log w' = w_log w ++ [Lerror msg; Lfailed])).

(** What a mount point on disk [d], or on its partition [p], refers
    to: the label for its file system, its device, the object that
    carries its fstab id, and that id. *)
Definition fs_target (ds : gmap string DiskEntry) (d : string) (p : option string)
    : option (string * string * Target * option string) :=
  de ← ds !! d;
  match p with
  | None => Some (d, d_device de, OnDisk d, Some (d_fstab_id de))
  | Some pn =>
      ps ← d_partitions de;
      rec ← ps !! pn;
      Some (pn, device rec, OnPartition d pn, fstab_id rec)
  end.

(** The disk and the partition that an option value names. *)
Definition named_device (value : string) : option (string * option string) :=
  match mount_spec value with
  | Some (csmakedevice, _, _) => Some (device_names (strip csmakedevice))
  | None => None
  end.

(** What one round of the loop of [_createFileSystemRecord] has done
    when it comes to its end. *)
Definition mount_recorded (tool : list Cmd -> Cmd -> Z)
    (options : list (string * string)) (build : bool) (m : string)
    (w w1 : World FsObjects) : Prop :=
  exists value d p ds lbl dev ty tgt id id',
    option_value options m = inr value
    /\ named_device value = Some (d, p)
    /\ disks (w_obj w) = Some ds
    /\ fs_target ds d p = Some (lbl, dev, tgt, Some id)
    /\ fsEntry (w_obj w1) = <[m := (m, dev, ty, id')]> (fsEntry (w_obj w))
    /\ fsinfoEntry (w_obj w1)
       = <[m := {| info_disk := d; info_partition := p |}]> (fsinfoEntry (w_obj w))
    /\ ((disks (w_obj w1) = Some ds /\ id' = id)
        \/ (exists l, id' = "LABEL=" +:+ l)
           /\ chr_in "=" id = false
           /\ disks (w_obj w1) = Some (set_fstab_id tgt id' ds))
    /\ (chr_in "=" id' = true
        \/ @labeler tool FsObjects ty = None
        \/ (build = true /\ Lexception label_failure ∈ w_log w1))
    /\ (exists l, w_log w1 = w_log w ++ l).

(** The label of an entry of the file system table is in its fstab
    id, unless its type has no labeler or the failure is in the log. *)
Definition labelled_or_reported (tool : list Cmd -> Cmd -> Z) (build : bool)
    (log : list log_entry) (ty id : string) : Prop :=
  chr_in "=" id = true
  \/ @labeler tool FsObjects ty = None
  \/ (build = true /\ Lexception label_failure ∈ log).

(** The invariant of the loop of [_createFileSystemRecord], after the
    mount points [done]. *)
Definition recorded (tool : list Cmd -> Cmd -> Z) (build : bool)
    (done : list string) (w : World FsObjects) : Prop :=
  (forall m, is_Some (fsEntry (w_obj w) !! m) <-> m ∈ done)
  /\ (forall m, is_Some (fsinfoEntry (w_obj w) !! m) <-> m ∈ done)
  /\ forall m mp dev ty id,
       fsEntry (w_obj w) !! m = Some (mp, dev, ty, id) ->
       mp = m
       /\ labelled_or_reported tool build (w_log w) ty id
       /\ exists i ds lbl tgt cur,
            fsinfoEntry (w_obj w) !! m = Some i
            /\ disks (w_obj w) = Some ds
            /\ fs_target ds (info_disk i) (info_partition i)
               = Some (lbl, dev, tgt, cur).

(** The device that the table [fs] gives for a mount point, or the
    text that [start__build] binds when it has none. *)
Definition device_of (fs : gmap string FsTuple) (m : string) : string :=
  match fs !! m with
  | Some (_, dev, _, _) => dev
  | None => "## Device not found"
  end.

(** The variables that the options of the aspect name. *)
Definition variables (options : list (string * string)) : list string :=
  (GetPartitionDevices._getEnvironmentVariables options).*2.

(** The environment after the partition step: the system of
    [one_disk], its disk holding the partition table [parts]. *)
Definition partitioned_system (system diskname device : string) (dsize : Z)
    (fstab : string) (parts : gmap string PartRecord) : Env :=
  {[ _getEnvKey system :=
       System {| e_system :=
                   {| sys_disks := Some {[ diskname :=
                        {| d_device := device; d_size := dsize;
                           d_fstab_id := fstab; d_partitions := Some parts |} ]};
                      sys_system := unit_parser |};
                 e_filesystem := None;
                 e_filesystem_info := None |} ]}.

(** The example disk with the partitions that the partition step makes
    of [example_options]. *)
Definition example_system : Env :=
  partitioned_system "mysystem" "mydisk" "/dev/sda" 107374182400 "/dev/sda"
    (partEntry (snd (_doPartitioning tools_ok Msdos example_env example_options
                       true blank))).

(** A disk that is known by a UUID, partitioned without building. *)
Definition uuid_system : Env :=
  partitioned_system "mysystem" "mydisk" "/dev/sda" 107374182400 "UUID=0a1b"
    (partEntry (snd (_doPartitioning tools_ok Msdos
                       (one_disk "mysystem" "mydisk" "/dev/sda" 107374182400
                          "UUID=0a1b")
                       documented_options false blank))).

Definition world (env : Env) : World Env :=
  {| w_obj := env; w_log := []; w_trace := [] |}.

Definition fs_options : list (string * string) :=
  [("system", "mysystem");
   ("/home", "mydisk.home, ext4");
   ("/boot", "mydisk.boot, vfat, -F 32");
   ("/", "mydisk.data, btrfs")].

Definition fs_table : gmap string FsTuple :=
  {[ "/" := ("/", "/dev/sda5", "btrfs", "LABEL=data");
     "/boot" := ("/boot", "/dev/sda1", "vfat", "LABEL=BOOT");
     "/home" := ("/home", "/dev/sda3", "ext4", "LABEL=home") ]}.

Definition root_only : list (string * string) :=
  [("system", "mysystem"); ("/", "mydisk.root, ext4")].

Definition device_options : list (string * string) :=
  [("system", "mysystem"); ("env_/", "ROOTDEV"); ("env_/boot", "BOOTDEV");
   ("env_/var", "VARDEV")].

(** * Properties *)

(** ** The stable sort *)

Section SortFacts.
Context {A K : Type} (leb : K -> K -> bool) (key : A -> K).
Hypothesis leb_total : forall x y, leb x y = true \/ leb y x = true.
Hypothesis leb_trans :
  forall x y z, leb x y = true -> leb y z = true -> leb x z = true.

Lemma insert_by_perm x l : Permutation (x :: l) (insert_by leb key x l).
Proof.
  induction l as [|y l IH]; simpl; [reflexivity|].
  destruct (leb (key x) (key y)); [reflexivity|].
  rewrite perm_swap. now apply perm_skip.
Qed.

Lemma sort_by_perm l : Permutation l (sort_by leb key l).
Proof.
  induction l as [|x l IH]; simpl; [constructor|].
  rewrite <- insert_by_perm. now apply perm_skip.
Qed.

Lemma insert_by_sorted x l :
  StronglySorted (key_le leb key) l ->
  StronglySorted (key_le leb key) (insert_by leb key x l).
Proof.
  induction 1 as [|y l Hs IH Hy]; simpl.
  - repeat constructor.
  - destruct (leb (key x) (key y)) eqn:E.
    + constructor; [now constructor|].
      constructor; [exact E|].
      eapply Forall_impl; [exact Hy|].
      intros z Hz. unfold key_le in *. eauto.
    + constructor; [exact IH|].
      apply (Permutation_Forall (insert_by_perm x l)).
      constructor; [|exact Hy].
      unfold key_le. destruct (leb_total (key x) (key y)); congruence.
Qed.

Lemma sort_by_sorted l : StronglySorted (key_le leb key) (sort_by leb key l).
Proof.
  induction l; simpl; [constructor|]. now apply insert_by_sorted.
Qed.

Lemma insert_by_stable k x l :
  filter (fun y => same_key leb key k y = true) (insert_by leb key x l)
  = filter (fun y => same_key leb key k y = true) (x :: l).
Proof.
  induction l as [|y l IH]; simpl; [reflexivity|].
  destruct (leb (key x) (key y)) eqn:E; [reflexivity|].
  rewrite filter_cons, IH, !filter_cons.
  destruct (decide (same_key leb key k y = true)) as [Hy|Hy];
    destruct (decide (same_key leb key k x = true)) as [Hx|Hx]; try reflexivity.
  exfalso. unfold same_key in *.
  apply andb_true_iff in Hx as [_ Hx], Hy as [Hy _].
  rewrite (leb_trans _ _ _ Hx Hy) in E. discriminate.
Qed.

Lemma sort_by_stable k l :
  filter (fun y => same_key leb key k y = true) (sort_by leb key l)
  = filter (fun y => same_key leb key k y = true) l.
Proof.
  induction l as [|x l IH]; simpl; [reflexivity|].
  rewrite insert_by_stable, !filter_cons, IH. reflexivity.
Qed.

(** In a sorted list an element with a strictly smaller key comes first. *)
Lemma sorted_precedes a b l :
  StronglySorted (key_le leb key) l -> a ∈ l -> b ∈ l -> leb (key b) (key a) = false ->
  exists l1 l2 l3, l = l1 ++ a :: l2 ++ b :: l3.
Proof.
  intros Hs Ha Hb Hlt.
  apply list_elem_of_split in Hb as (l1 & l3 & ->).
  apply elem_of_app in Ha as [Ha|Ha].
  - apply list_elem_of_split in Ha as (l0 & l2 & ->).
    exists l0, l2, l3. now rewrite <- app_assoc.
  - exfalso.
    apply StronglySorted_app_1_r in Hs.
    apply StronglySorted_inv in Hs as [_ Hall].
    apply elem_of_cons in Ha as [->|Ha].
    + destruct (leb_total (key b) (key b)); congruence.
    + rewrite Forall_forall in Hall. specialize (Hall _ Ha).
      unfold key_le in Hall. congruence.
Qed.
End SortFacts.

Lemma StronglySorted_weaken {A} (R S : A -> A -> Prop) l :
  (forall x y, R x y -> S x y) -> StronglySorted R l -> StronglySorted S l.
Proof.
  intros HRS. induction 1 as [|x l Hs IH Hx]; constructor; [exact IH|].
  eapply Forall_impl; [exact Hx|]. auto.
Qed.

(** ** The order of the mount points *)

Section MountOrder.
Import FileSystem.

Lemma split_nonempty sep s : split sep s <> [].
Proof.
  destruct s as [|a s]; simpl; [discriminate|].
  destruct (Ascii.eqb a sep); [discriminate|].
  destruct (split sep s); discriminate.
Qed.

Lemma components_slash s : (2 <= components (String "/" s))%nat.
Proof.
  unfold components. simpl.
  pose proof (split_nonempty "/" s).
  destruct (split "/" s); [congruence|simpl; lia].
Qed.

Lemma mount_keys_slash options ks :
  mount_keys options = inr ks ->
  Forall (fun k => exists s, k = String "/" s) ks.
Proof.
  revert ks. induction options as [|[k v] rest IH]; simpl; intros ks H.
  - injection H as <-. constructor.
  - destruct k as [|a k]; [discriminate|].
    destruct (mount_keys rest) as [e|ks'] eqn:E; [discriminate|].
    injection H as <-.
    destruct (Ascii.eqb a "/") eqn:Ea; [|now apply IH].
    constructor; [|now apply IH].
    apply Ascii.eqb_eq in Ea as ->. now exists k.
Qed.

Lemma nat_leb_total x y : Nat.leb x y = true \/ Nat.leb y x = true.
Proof. rewrite !Nat.leb_le. lia. Qed.

Lemma nat_leb_trans x y z :
  Nat.leb x y = true -> Nat.leb y z = true -> Nat.leb x z = true.
Proof. rewrite !Nat.leb_le. lia. Qed.

(** C10, as the code has it.  The mount points are walked in
    ascending order of [len(x.split('/'))], mount points with the
    same number of components in the iteration order of the options.
    The root ['/'] has two components, like ['/boot'] and every other
    mount point directly under it, so it is only known to come before
    the mount points with three components or more. *)
Theorem C10_mount_order options ks :
  mount_keys options = inr ks ->
  exists l,
    mountpts options = inr l
    /\ Permutation ks l
    /\ StronglySorted (fun x y => (components x <= components y)%nat) l
    /\ (forall n, filter (fun x => components x = n) l
                  = filter (fun x => components x = n) ks)
    /\ (forall x, x ∈ l -> (components "/" <= components x)%nat)
    /\ (forall x, "/" ∈ l -> x ∈ l -> (components "/" < components x)%nat ->
          exists l1 l2 l3, l = l1 ++ "/" :: l2 ++ x :: l3).
Proof.
  intros Hk. unfold mountpts. rewrite Hk.
  set (l := sort_by Nat.leb components ks).
  assert (Hs : StronglySorted (key_le Nat.leb components) l)
    by apply (sort_by_sorted _ _ nat_leb_total nat_leb_trans).
  exists l. split; [reflexivity|].
  split; [apply sort_by_perm|].
  split.
  { eapply StronglySorted_weaken; [|exact Hs].
    intros x y Hxy. now apply Nat.leb_le. }
  split.
  { intros n.
    rewrite (list_filter_iff _ (fun y => same_key Nat.leb components n y = true) l),
      (list_filter_iff _ (fun y => same_key Nat.leb components n y = true) ks).
    - apply (sort_by_stable _ _ nat_leb_trans).
    - intros x. unfold same_key. rewrite andb_true_iff, !Nat.leb_le. lia.
    - intros x. unfold same_key. rewrite andb_true_iff, !Nat.leb_le. lia. }
  split.
  { intros x Hx.
    apply (elem_of_Permutation_proper _ _ _ (sort_by_perm Nat.leb components ks)) in Hx.
    pose proof (mount_keys_slash _ _ Hk) as Hall.
    rewrite Forall_forall in Hall.
    destruct (Hall _ Hx) as [s ->].
    change (components "/") with 2%nat. apply components_slash. }
  intros x Hr Hx Hlt.
  apply (sorted_precedes Nat.leb components nat_leb_total); auto.
  apply Nat.leb_gt. exact Hlt.
Qed.

(** An instance of the theorem on the mount points of the module
    documentation. *)
Lemma C10_mount_order_witness :
  mount_keys [("system", "mysystem"); ("/home", "mylvm_home, ext4");
              ("/var/log", "my_disk.logs, ext4"); ("/", "mylvm_lv, btrfs")]
    = inr ["/home"; "/var/log"; "/"]
  /\ exists l,
    mountpts [("system", "mysystem"); ("/home", "mylvm_home, ext4");
              ("/var/log", "my_disk.logs, ext4"); ("/", "mylvm_lv, btrfs")]
      = inr l
    /\ Permutation ["/home"; "/var/log"; "/"] l
    /\ StronglySorted (fun x y => (components x <= components y)%nat) l
    /\ (forall n, filter (fun x => components x = n) l
                  = filter (fun x => components x = n) ["/home"; "/var/log"; "/"])
    /\ (forall x, x ∈ l -> (components "/" <= components x)%nat)
    /\ (forall x, "/" ∈ l -> x ∈ l -> (components "/" < components x)%nat ->
          exists l1 l2 l3, l = l1 ++ "/" :: l2 ++ x :: l3).
Proof.
  split; [reflexivity|].
  apply (C10_mount_order
           [("system", "mysystem"); ("/home", "mylvm_home, ext4");
            ("/var/log", "my_disk.logs, ext4"); ("/", "mylvm_lv, btrfs")]).
  reflexivity.
Defined.

(** C10 as stated fails: when the options yield ['/boot'] before
    ['/'], the loop formats and records ['/boot'] first, because both
    have two components. *)
Lemma C10_boot_before_root :
  mountpts [("system", "mysystem"); ("/boot", "my_disk.my_boot_partition, ext2");
            ("/", "mylvm_lv, btrfs")]
    = inr ["/boot"; "/"]
  /\ components "/" = components "/boot".
Proof. split; reflexivity. Qed.

End MountOrder.

(** ** The size resolver *)

(** [round_div] is the nearest integer of a non-negative quotient,
    a tie going up. *)
Lemma round_div_nearest n d :
  0 <= n -> 0 < d ->
  2 * n - d < 2 * d * round_div n d <= 2 * n + d.
Proof.
  intros Hn Hd. unfold round_div.
  rewrite (Z.abs_eq n), (Z.abs_eq d), (Z.sgn_pos d) by lia.
  pose proof (Z.div_mod (2 * n + d) (2 * d) ltac:(lia)) as Hdm.
  pose proof (Z.mod_pos_bound (2 * n + d) (2 * d) ltac:(lia)) as Hmod.
  pose proof (Z.div_pos (2 * n + d) (2 * d) ltac:(lia) ltac:(lia)) as Hq.
  destruct (Z.eq_dec n 0) as [->|Hn0].
  - simpl Z.sgn. rewrite Z.div_small by lia. lia.
  - rewrite (Z.sgn_pos n) by lia. lia.
Qed.

Lemma round_div_nonneg n d : 0 <= n -> 0 < d -> 0 <= round_div n d.
Proof.
  intros Hn Hd. pose proof (round_div_nearest n d Hn Hd). nia.
Qed.

(** *** Binary64 arithmetic *)

Section FloatFacts.
Import Float.

(** [ilog2 n d] is not above the logarithm of [n/d]. *)
Lemma ilog2_lower n d :
  0 < n -> 0 < d ->
  (0 <= ilog2 n d -> d * 2 ^ ilog2 n d <= n)
  /\ (ilog2 n d < 0 -> d <= n * 2 ^ (- ilog2 n d)).
Proof.
  intros Hn Hd. unfold ilog2.
  pose proof (Z.log2_spec n Hn) as [Hn1 Hn2].
  pose proof (Z.log2_spec d Hd) as [Hd1 Hd2].
  pose proof (Z.log2_nonneg n) as Ha. pose proof (Z.log2_nonneg d) as Hb.
  set (a := Z.log2 n) in *. set (b := Z.log2 d) in *.
  cbv zeta.
  replace (Z.succ b) with (b + 1) in Hd2 by lia.
  assert (Hbelow : (0 <= a - b - 1 -> d * 2 ^ (a - b - 1) <= n)
                   /\ (a - b - 1 < 0 -> d <= n * 2 ^ (- (a - b - 1)))).
  { split; intros Hf.
    - replace a with (b + 1 + (a - b - 1)) in Hn1 by lia.
      rewrite Z.pow_add_r in Hn1 by lia.
      assert (0 < 2 ^ (a - b - 1)) by (apply Z.pow_pos_nonneg; lia).
      nia.
    - replace (- (a - b - 1)) with (b + 1 - a) by lia.
      assert (Hp : 2 ^ (b + 1) = 2 ^ a * 2 ^ (b + 1 - a)).
      { rewrite <- Z.pow_add_r by lia. f_equal. lia. }
      assert (0 < 2 ^ (b + 1 - a)) by (apply Z.pow_pos_nonneg; lia).
      nia. }
  destruct (0 <=? a - b) eqn:Hl.
  - apply Z.leb_le in Hl.
    destruct (d * 2 ^ (a - b) <=? n) eqn:Ht; [|exact Hbelow].
    apply Z.leb_le in Ht. split; [auto|lia].
  - apply Z.leb_gt in Hl.
    destruct (d <=? n * 2 ^ (- (a - b))) eqn:Ht; [|exact Hbelow].
    apply Z.leb_le in Ht. split; [lia|auto].
Qed.

Lemma rne_lower num den a :
  0 < den -> a * den <= num -> a <= rne num den.
Proof.
  intros Hden Ha. unfold rne. cbv zeta.
  pose proof (Z.div_mod num den ltac:(lia)) as Hdm.
  pose proof (Z.mod_pos_bound num den Hden) as Hr.
  assert (a <= num / den) by (apply Z.div_le_lower_bound; lia).
  repeat match goal with |- context [if ?b then _ else _] => destruct b end; lia.
Qed.

Lemma rne_upper num den c :
  0 < den -> 2 * num < (2 * c - 1) * den -> rne num den <= c - 1.
Proof.
  intros Hden Hc. unfold rne. cbv zeta.
  pose proof (Z.div_mod num den ltac:(lia)) as Hdm.
  pose proof (Z.mod_pos_bound num den Hden) as Hr.
  set (q := num / den) in *. set (r := num mod den) in *.
  assert (Hq : q <= c - 1) by nia.
  destruct (2 * r <? den) eqn:H1; [exact Hq|].
  apply Z.ltb_ge in H1.
  assert (q <= c - 2) by nia.
  repeat match goal with |- context [if ?b then _ else _] => destruct b end; lia.
Qed.

Lemma rne_nonneg num den : 0 <= num -> 0 < den -> 0 <= rne num den.
Proof. intros Hn Hd. apply rne_lower; lia. Qed.

Lemma rne_exact v den : 0 < den -> rne (v * den) den = v.
Proof.
  intros Hd. unfold rne. cbv zeta.
  rewrite Z.div_mul, Z.mod_mul by lia.
  replace (2 * 0 <? den) with true by (symmetry; apply Z.ltb_lt; lia).
  reflexivity.
Qed.

(** A rational that is an integer below [2^53] is a float. *)
Lemma round53_exact v c :
  0 < v < 2 ^ 53 -> 0 < c ->
  exists m e,
    round53 (v * c) c = Some (m, e) /\ e <= 0 /\ m = v * 2 ^ (- e).
Proof.
  intros Hv Hc. unfold round53. cbv zeta.
  destruct (ilog2_lower (v * c) c ltac:(nia) Hc) as [Hlo _].
  set (f := ilog2 (v * c) c) in *.
  assert (Hf : f <= 52).
  { destruct (Z_le_gt_dec f 52) as [|Hgt]; [assumption|exfalso].
    specialize (Hlo ltac:(lia)).
    assert (2 ^ 53 <= 2 ^ f) by (apply Z.pow_le_mono_r; lia).
    assert (2 ^ f <= v).
    { apply (Z.mul_le_mono_pos_r _ _ c); [lia|].
      replace (2 ^ f * c) with (c * 2 ^ f) by ring. exact Hlo. }
    lia. }
  set (e := Z.max (f - 52) (-1074)).
  assert (He : e <= 0) by (unfold e; lia).
  assert (Hpos : 0 < 2 ^ (- e)) by (apply Z.pow_pos_nonneg; lia).
  destruct (0 <=? e) eqn:E0.
  - apply Z.leb_le in E0. assert (e = 0) as -> by lia.
    cbn [Z.opp]. rewrite !Z.pow_0_r, !Z.mul_1_r, rne_exact by assumption.
    replace (2 ^ 1024 <=? v) with false.
    + exists v, 0. cbn. repeat split; lia.
    + symmetry. apply Z.leb_gt.
      assert (2 ^ 53 < 2 ^ 1024) by (apply Z.pow_lt_mono_r; lia). lia.
  - cbn [andb]. exists (v * 2 ^ (- e)), e.
    split; [|split; [exact He|reflexivity]].
    replace (v * c * 2 ^ (- e)) with (v * 2 ^ (- e) * c) by ring.
    now rewrite rne_exact.
Qed.

(** The quotient of two integers that leave the division room: the
    float nearest to it rounds to the integer that the quotient itself
    rounds to. *)
Lemma round53_quotient P D c :
  0 < P < 2 ^ 52 -> 0 < D < 2 ^ 53 -> 0 < c ->
  exists m e,
    round53 (P * c) (D * c) = Some (m, e)
    /\ int_round (Finite false m e) = inr (round_div P D).
Proof.
  intros HP HD Hc. unfold round53. cbv zeta.
  destruct (ilog2_lower (P * c) (D * c) ltac:(nia) ltac:(nia)) as [Hlo1 Hlo2].
  set (f := ilog2 (P * c) (D * c)) in *.
  assert (Hf : f <= 51).
  { destruct (Z_le_gt_dec f 51) as [|Hgt]; [assumption|exfalso].
    specialize (Hlo1 ltac:(lia)).
    assert (2 ^ 52 <= 2 ^ f) by (apply Z.pow_le_mono_r; lia).
    assert (D * 2 ^ f <= P).
    { apply (Z.mul_le_mono_pos_r _ _ c); [lia|].
      replace (D * 2 ^ f * c) with (D * c * 2 ^ f) by ring. exact Hlo1. }
    nia. }
  set (e := Z.max (f - 52) (-1074)).
  assert (He : -1074 <= e <= -1) by (unfold e; lia).
  set (E' := 2 ^ (- e - 1)).
  assert (HE' : 0 < E') by (apply Z.pow_pos_nonneg; lia).
  assert (HE : 2 ^ (- e) = 2 * E').
  { unfold E'. replace (- e) with (1 + (- e - 1)) at 1 by lia.
    rewrite Z.pow_add_r by lia. reflexivity. }
  assert (HD' : D < 2 * E').
  { rewrite <- HE. destruct (Z.eq_dec e (-1074)) as [->|Hne].
    - assert (2 ^ 53 < 2 ^ (- -1074)) by (apply Z.pow_lt_mono_r; lia). lia.
    - assert (e = f - 52) as -> by (unfold e in *; lia).
      destruct (Z_le_gt_dec 0 f) as [Hf0|Hf0].
      + specialize (Hlo1 Hf0).
        assert (D * 2 ^ f <= P).
        { apply (Z.mul_le_mono_pos_r _ _ c); [lia|].
          replace (D * 2 ^ f * c) with (D * c * 2 ^ f) by ring. exact Hlo1. }
        assert (H52 : 2 ^ 52 = 2 ^ f * 2 ^ (- (f - 52))).
        { rewrite <- Z.pow_add_r by lia. f_equal. lia. }
        assert (0 < 2 ^ f) by (apply Z.pow_pos_nonneg; lia).
        assert (0 < 2 ^ (- (f - 52))) by (apply Z.pow_pos_nonneg; lia).
        nia.
      + specialize (Hlo2 ltac:(lia)).
        assert (D <= P * 2 ^ (- f)).
        { apply (Z.mul_le_mono_pos_r _ _ c); [lia|].
          replace (P * 2 ^ (- f) * c) with (P * c * 2 ^ (- f)) by ring. exact Hlo2. }
        assert (H52 : 2 ^ (- (f - 52)) = 2 ^ 52 * 2 ^ (- f)).
        { rewrite <- Z.pow_add_r by lia. f_equal. lia. }
        assert (0 < 2 ^ (- f)) by (apply Z.pow_pos_nonneg; lia).
        nia. }
  replace (0 <=? e) with false by (symmetry; apply Z.leb_gt; lia).
  cbn [andb]. eexists _, e. split; [reflexivity|].
  unfold int_round.
  replace (0 <=? e) with false by (symmetry; apply Z.leb_gt; lia).
  f_equal.
  replace (- e + 1) with (1 + - e) by lia.
  rewrite Z.pow_add_r, HE by lia. change (2 ^ 1) with 2.
  set (k := round_div P D).
  assert (Hk : (2 * k - 1) * D <= 2 * P < (2 * k + 1) * D).
  { unfold k, round_div.
    rewrite (Z.abs_eq P), (Z.abs_eq D), (Z.sgn_pos P), (Z.sgn_pos D) by lia.
    pose proof (Z.div_mod (2 * P + D) (2 * D) ltac:(lia)) as Hdm.
    pose proof (Z.mod_pos_bound (2 * P + D) (2 * D) ltac:(lia)) as Hmod.
    lia. }
  set (m := rne (P * c * (2 * E')) (D * c)).
  assert (Hm1 : (2 * k - 1) * E' <= m).
  { apply rne_lower; [nia|].
    replace ((2 * k - 1) * E' * (D * c)) with (((2 * k - 1) * D) * (E' * c)) by ring.
    replace (P * c * (2 * E')) with ((2 * P) * (E' * c)) by ring.
    apply Z.mul_le_mono_nonneg_r; [nia|lia]. }
  assert (Hm2 : m <= (2 * k + 1) * E' - 1).
  { apply rne_upper; [nia|].
    replace (2 * (P * c * (2 * E'))) with ((2 * (2 * P) * E') * c) by ring.
    replace ((2 * ((2 * k + 1) * E') - 1) * (D * c))
      with (((2 * k + 1) * D * (2 * E') - D) * c) by ring.
    apply Z.mul_lt_mono_pos_r; [lia|]. nia. }
  symmetry. apply Z.div_unique with (r := 2 * m + 2 * E' - 2 * (2 * E') * k); nia.
Qed.

Lemma of_int_positive z :
  0 < z < 2 ^ 53 ->
  exists m e, of_int z = inr (Finite false m e) /\ e <= 0 /\ m = z * 2 ^ (- e).
Proof.
  intros Hz. unfold of_int.
  replace (z =? 0) with false by (symmetry; apply Z.eqb_neq; lia).
  rewrite Z.abs_eq by lia.
  destruct (round53_exact z 1 Hz ltac:(lia)) as (m & e & Hr & He & Hm).
  rewrite Z.mul_1_r in Hr. rewrite Hr.
  replace (z <? 0) with false by (symmetry; apply Z.ltb_ge; lia).
  eauto.
Qed.

(** Within these bounds the float computation gives the nearest
    integer of the exact quotient. *)
Lemma percent_exact a b :
  0 <= a -> a * 100 < 2 ^ 52 -> 0 < b < 2 ^ 53 ->
  percent a b = inr (round_div (a * 100) b).
Proof.
  intros Ha Hbound Hb. unfold percent.
  destruct (of_int_positive b Hb) as (mb & eb & -> & Heb & Hmb).
  assert (Hpb : 0 < 2 ^ (- eb)) by (apply Z.pow_pos_nonneg; lia).
  destruct (Z.eq_dec a 0) as [->|Ha0].
  - cbn [of_int Z.eqb mul Z.mul]. cbn [Z.eqb div].
    replace (mb =? 0) with false by (symmetry; apply Z.eqb_neq; nia).
    cbn. unfold round_div. cbn. reflexivity.
  - assert (H53 : 2 ^ 52 < 2 ^ 53) by (apply Z.pow_lt_mono_r; lia).
    destruct (of_int_positive a ltac:(lia)) as (ma & ea & -> & Hea & Hma).
    assert (Hpa : 0 < 2 ^ (- ea)) by (apply Z.pow_pos_nonneg; lia).
    unfold mul.
    replace (ma * 100 =? 0) with false by (symmetry; apply Z.eqb_neq; nia).
    rewrite Z.add_0_r.
    assert (Hp : exists mp ep,
              (if 0 <=? ea then round53 (ma * 100 * 2 ^ ea) 1
               else round53 (ma * 100) (2 ^ (- ea))) = Some (mp, ep)
              /\ ep <= 0 /\ mp = a * 100 * 2 ^ (- ep)).
    { destruct (0 <=? ea) eqn:E0.
      - apply Z.leb_le in E0. assert (ea = 0) as -> by lia.
        cbn in Hma. rewrite Z.mul_1_r in Hma. subst ma.
        rewrite Z.pow_0_r, Z.mul_1_r.
        pose proof (round53_exact (a * 100) 1 ltac:(lia) ltac:(lia)) as H.
        now rewrite Z.mul_1_r in H.
      - subst ma.
        replace (a * 2 ^ (- ea) * 100) with (a * 100 * 2 ^ (- ea)) by ring.
        apply round53_exact; lia. }
    destruct Hp as (mp & ep & -> & Hep & Hmp).
    assert (Hpp : 0 < 2 ^ (- ep)) by (apply Z.pow_pos_nonneg; lia).
    unfold div.
    replace (mb =? 0) with false by (symmetry; apply Z.eqb_neq; nia).
    replace (mp =? 0) with false by (symmetry; apply Z.eqb_neq; nia).
    assert (Hq : exists c, 0 < c
              /\ mp * 2 ^ Z.max 0 (ep - eb) = a * 100 * c
              /\ mb * 2 ^ Z.max 0 (eb - ep) = b * c).
    { destruct (Z_le_gt_dec eb ep) as [Hle|Hgt].
      - exists (2 ^ (- eb)). split; [assumption|].
        rewrite (Z.max_r 0 (ep - eb)), (Z.max_l 0 (eb - ep)) by lia.
        rewrite Z.pow_0_r, Z.mul_1_r. split; [|assumption].
        subst mp. rewrite <- Z.mul_assoc, <- Z.pow_add_r by lia.
        do 2 f_equal. lia.
      - exists (2 ^ (- ep)). split; [assumption|].
        rewrite (Z.max_l 0 (ep - eb)), (Z.max_r 0 (eb - ep)) by lia.
        rewrite Z.pow_0_r, Z.mul_1_r. split; [assumption|].
        subst mb. rewrite <- Z.mul_assoc, <- Z.pow_add_r by lia.
        do 2 f_equal. lia. }
    destruct Hq as (c & Hc & -> & ->).
    destruct (round53_quotient (a * 100) b c ltac:(lia) Hb Hc)
      as (m & e & -> & Hr).
    exact Hr.
Qed.

Lemma round53_nonneg n d m e :
  0 < n -> 0 < d -> round53 n d = Some (m, e) -> 0 <= m.
Proof.
  intros Hn Hd. unfold round53. cbv zeta.
  set (e0 := Z.max (ilog2 n d - 52) (-1074)).
  destruct ((0 <=? e0) && _); [discriminate|].
  intros [= <- _].
  destruct (0 <=? e0) eqn:E0.
  - apply Z.leb_le in E0. apply rne_nonneg; [lia|].
    assert (0 < 2 ^ e0) by (apply Z.pow_pos_nonneg; lia). nia.
  - apply Z.leb_gt in E0. apply rne_nonneg; [|lia].
    assert (0 < 2 ^ (- e0)) by (apply Z.pow_pos_nonneg; lia). nia.
Qed.

Lemma of_int_nonneg z x : 0 <= z -> of_int z = inr x -> nonneg x.
Proof.
  intros Hz. unfold of_int. destruct (z =? 0) eqn:E0.
  - intros [= <-]. cbn. split; [reflexivity|lia].
  - apply Z.eqb_neq in E0.
    destruct (round53 (Z.abs z) 1) as [[m e]|] eqn:Hr; [|discriminate].
    intros [= <-]. cbn. split; [apply Z.ltb_ge; lia|].
    apply (round53_nonneg (Z.abs z) 1 m e); [lia|lia|exact Hr].
Qed.

Lemma mul_nonneg x y : nonneg x -> nonneg y -> nonneg (mul x y).
Proof.
  destruct x as [s1 m1 e1|s1|], y as [s2 m2 e2|s2|]; cbn; try tauto.
  - intros [-> H1] [-> H2]. destruct (m1 * m2 =? 0) eqn:E0; [cbn; split; [reflexivity|lia]|].
    apply Z.eqb_neq in E0.
    destruct (0 <=? e1 + e2) eqn:Ee.
    + apply Z.leb_le in Ee.
      assert (0 < 2 ^ (e1 + e2)) by (apply Z.pow_pos_nonneg; lia).
      destruct (round53 _ 1) as [[m e]|] eqn:Hr; cbn; [|reflexivity].
      split; [reflexivity|].
      eapply round53_nonneg; [| |exact Hr]; nia.
    + apply Z.leb_gt in Ee.
      assert (0 < 2 ^ (- (e1 + e2))) by (apply Z.pow_pos_nonneg; lia).
      destruct (round53 _ _) as [[m e]|] eqn:Hr; cbn; [|reflexivity].
      split; [reflexivity|].
      eapply round53_nonneg; [| |exact Hr]; nia.
  - intros [-> _] ->. now destruct (m1 =? 0).
  - intros -> [-> _]. now destruct (m2 =? 0).
  - now intros -> ->.
Qed.

Lemma div_nonneg x y q : nonneg x -> nonneg y -> div x y = inr q -> nonneg q.
Proof.
  destruct y as [s2 m2 e2|s2|]; cbn.
  - intros Hx [-> H2]. destruct (m2 =? 0) eqn:E2; [discriminate|].
    apply Z.eqb_neq in E2.
    destruct x as [s1 m1 e1|s1|]; cbn in Hx.
    + destruct Hx as [-> H1]. destruct (m1 =? 0) eqn:E1.
      * intros [= <-]. cbn. split; [reflexivity|lia].
      * apply Z.eqb_neq in E1.
        assert (0 < 2 ^ Z.max 0 (e1 - e2)) by (apply Z.pow_pos_nonneg; lia).
        assert (0 < 2 ^ Z.max 0 (e2 - e1)) by (apply Z.pow_pos_nonneg; lia).
        destruct (round53 _ _) as [[m e]|] eqn:Hr; intros [= <-]; cbn;
          [|reflexivity].
        split; [reflexivity|].
        eapply round53_nonneg; [| |exact Hr]; nia.
    + subst s1. now intros [= <-].
    + now intros [= <-].
  - intros Hx ->. destruct x as [s1 m1 e1|s1|]; cbn in Hx; intros [= <-]; cbn; auto.
    destruct Hx as [-> _]. split; [reflexivity|lia].
  - intros _ _. destruct x; now intros [= <-].
Qed.

Lemma int_round_nonneg x r : nonneg x -> int_round x = inr r -> 0 <= r.
Proof.
  destruct x as [s m e| |]; cbn; try discriminate.
  intros [-> Hm] [= <-].
  destruct (0 <=? e) eqn:Ee.
  - apply Z.leb_le in Ee. assert (0 < 2 ^ e) by (apply Z.pow_pos_nonneg; lia). nia.
  - apply Z.leb_gt in Ee.
    assert (0 < 2 ^ (- e)) by (apply Z.pow_pos_nonneg; lia).
    assert (0 < 2 ^ (- e + 1)) by (apply Z.pow_pos_nonneg; lia).
    apply Z.div_pos; lia.
Qed.

(** The percentage of a size that is not negative, on a disk that is
    not negative, is not negative. *)
Lemma percent_nonneg a b r :
  0 <= a -> 0 <= b -> percent a b = inr r -> 0 <= r.
Proof.
  intros Ha Hb. unfold percent.
  destruct (of_int a) as [?|x] eqn:Hx; [discriminate|].
  destruct (of_int b) as [?|y] eqn:Hy; [discriminate|].
  destruct (div _ y) as [?|q] eqn:Hq; [discriminate|].
  intros Hr. apply (int_round_nonneg q r); [|exact Hr].
  assert (H100 : nonneg (Finite false 100 0)) by (cbn; split; [reflexivity|lia]).
  exact (div_nonneg _ _ _ (mul_nonneg _ _ (of_int_nonneg _ _ Ha Hx) H100)
           (of_int_nonneg _ _ Hb Hy) Hq).
Qed.

(** A disk of size 0 cannot be divided. *)
Lemma percent_zero a r : percent a 0 <> inr r.
Proof.
  unfold percent. destruct (of_int a) as [?|x]; [discriminate|].
  cbn. discriminate.
Qed.

End FloatFacts.


(** C6, as the code has it.  For a request of [bytes >= 0] bytes on a
    disk of positive size, the resolver never returns less than 1.
    For a request below [2^52/100] bytes on a disk below [2^53] bytes
    it returns the nearest integer of [bytes*100/disksize], except
    that 0 becomes 1 with a warning in the log and no failure; beyond
    these sizes the rounding of the binary64 product and quotient
    decides.  The result has no upper bound, a request larger than the
    disk giving more than 100. *)
Theorem C6_requested_percentage size st bytes :
  _getSizeInBytes (systemInstance st) size = inr bytes ->
  0 <= bytes -> 0 < disksize st ->
  (forall pct st', _getRequestedPercentage size st = (Val pct, st') -> 1 <= pct)
  /\ (bytes * 100 < 2 ^ 52 -> disksize st < 2 ^ 53 ->
      let exact := round_div (bytes * 100) (disksize st) in
      2 * (bytes * 100) - disksize st < 2 * disksize st * exact
        <= 2 * (bytes * 100) + disksize st
      /\ _getRequestedPercentage size st
         = (Val (Z.max 1 exact),
            if exact =? 0 then add_log too_small_warning st else st)
      /\ 1 <= Z.max 1 exact).
Proof.
  intros Hsize Hb Hd. split.
  - intros pct st'.
    unfold _getRequestedPercentage, bind, get, lift. rewrite Hsize. cbn [ret].
    destruct (Float.percent bytes (disksize st)) as [e|r] eqn:Hr;
      [discriminate|].
    apply percent_nonneg in Hr; [|lia..]. cbn [ret].
    destruct (r =? 0) eqn:Ez.
    + intros [= <- _]. lia.
    + apply Z.eqb_neq in Ez. intros [= <- _]. lia.
  - intros Hb52 Hd53 exact.
    split; [apply round_div_nearest; lia|].
    split; [|lia].
    unfold _getRequestedPercentage, bind, get, lift. rewrite Hsize. cbn [ret].
    rewrite (percent_exact bytes (disksize st) Hb Hb52 ltac:(lia)).
    fold exact. cbn [ret].
    pose proof (round_div_nonneg (bytes * 100) (disksize st) ltac:(lia) Hd) as Hr.
    fold exact in Hr.
    destruct (exact =? 0) eqn:Ez.
    + apply Z.eqb_eq in Ez. rewrite Ez. reflexivity.
    + apply Z.eqb_neq in Ez. rewrite Z.max_r by lia. reflexivity.
Qed.

(** The request "1M" on a disk of 1 TiB: 1 percent and a warning. *)
Lemma C6_requested_percentage_witness :
  _getSizeInBytes (systemInstance (sized 1099511627776)) "1M" = inr 1048576
  /\ 0 <= 1048576 /\ 0 < disksize (sized 1099511627776)
  /\ 1048576 * 100 < 2 ^ 52 /\ disksize (sized 1099511627776) < 2 ^ 53
  /\ _getRequestedPercentage "1M" (sized 1099511627776)
     = (Val 1, add_log too_small_warning (sized 1099511627776)).
Proof.
  split; [reflexivity|]. split; [lia|]. split; [reflexivity|].
  split; [reflexivity|]. split; [reflexivity|].
  exact (proj1 (proj2 (proj2 (C6_requested_percentage "1M" (sized 1099511627776)
                                1048576 eq_refl ltac:(lia) eq_refl)
                         eq_refl eq_refl))).
Defined.

(** C6 as stated fails: a request of 2G on a disk of 1G resolves to
    200 percent, outside [1..100]. *)
Lemma C6_above_one_hundred :
  _getRequestedPercentage "2G" (sized 1073741824) = (Val 200, sized 1073741824)
  /\ ~ (1 <= 200 <= 100).
Proof. split; [vm_compute; reflexivity|lia]. Qed.

(** The ways in which line 128 raises: an integer that no float can
    hold, a quotient that no float can hold, a disk of size 0. *)
Lemma percentage_raises :
  Float.percent (10 ^ 400) 1 = inl OverflowError
  /\ Float.percent (10 ^ 307) 1 = inl OverflowError
  /\ Float.percent 1048576 0 = inl ZeroDivisionError.
Proof. repeat split; vm_compute; reflexivity. Qed.

(** Beyond the sizes of C6 the float quotient can land on a half that
    the exact quotient stays below: these sizes give 2 where the exact
    quotient, just under 1.5, has 1 for its nearest integer. *)
Lemma percentage_of_large_sizes :
  Float.percent 67553994410560 4503599627370667 = inr 2
  /\ round_div (67553994410560 * 100) 4503599627370667 = 1.
Proof. split; vm_compute; reflexivity. Qed.

(** ** Frame reasoning in the monad *)

Section Keeps.
Context {X : Type} (f : State -> X).

Lemma keeps_ret {A} (a : A) : keeps f (ret a).
Proof. intros s. reflexivity. Qed.

Lemma keeps_raise {A} e : keeps f (@raise A e).
Proof. intros s. reflexivity. Qed.

Lemma keeps_return_None {A} : keeps f (@return_None A).
Proof. intros s. reflexivity. Qed.

Lemma keeps_get : keeps f get.
Proof. intros s. reflexivity. Qed.

Lemma keeps_modify g : (forall s, f (g s) = f s) -> keeps f (modify g).
Proof. intros H s. apply H. Qed.

Lemma keeps_bind {A B} (m : M A) (k : A -> M B) :
  keeps f m -> (forall a, keeps f (k a)) -> keeps f (bind m k).
Proof.
  intros Hm Hk s. unfold bind. specialize (Hm s).
  destruct (m s) as [[a| |e] s1]; simpl in *; [|assumption..].
  now rewrite Hk.
Qed.

Lemma keeps_lift {A} (r : exn + A) : keeps f (lift r).
Proof. destruct r; intros st; reflexivity. Qed.

Lemma keeps_item l i : keeps f (item l i).
Proof. unfold item. destruct (nth_error l i); intros st; reflexivity. Qed.

Lemma keeps_for_each {A} (l : list A) body :
  (forall x, keeps f (body x)) -> keeps f (for_each l body).
Proof.
  intros Hb. induction l as [|x l IH]; simpl.
  - apply keeps_ret.
  - apply keeps_bind; auto.
Qed.

(** Observations that the log does not reach. *)
Hypothesis f_log : forall e s, f (add_log e s) = f s.

Lemma keeps_log_error fmt : keeps f (log_error fmt).
Proof. apply keeps_modify. intros; apply f_log. Qed.
Lemma keeps_log_warning fmt : keeps f (log_warning fmt).
Proof. apply keeps_modify. intros; apply f_log. Qed.
Lemma keeps_log_exception fmt : keeps f (log_exception fmt).
Proof. apply keeps_modify. intros; apply f_log. Qed.
Lemma keeps_log_failed : keeps f log_failed.
Proof. apply keeps_modify. intros; apply f_log. Qed.

Lemma keeps_catch_part {A} (m : M A) : keeps f m -> keeps f (catch_part m).
Proof.
  intros Hm s. unfold catch_part. specialize (Hm s).
  destruct (m s) as [[a| |[]] s1]; simpl in *; try assumption;
    unfold bind; simpl; now rewrite !f_log.
Qed.

(** Observations that the issued commands do not reach either. *)
Hypothesis f_trace : forall c s, f (add_trace c s) = f s.

Lemma keeps_call tool c : keeps f (call tool c).
Proof. intros s. apply f_trace. Qed.

Lemma keeps_check_call tool c : keeps f (check_call tool c).
Proof.
  apply keeps_bind; [apply keeps_call|].
  intros r. destruct (r =? 0); [apply keeps_ret|apply keeps_raise].
Qed.

End Keeps.

(** One step of a frame proof: the head of the program decides. *)
Ltac keeps_step :=
  lazymatch goal with
  | |- keeps _ (bind _ _) => apply keeps_bind; [|intros ?]
  | |- keeps _ (ret _) => apply keeps_ret
  | |- keeps _ (raise _) => apply keeps_raise
  | |- keeps _ return_None => apply keeps_return_None
  | |- keeps _ get => apply keeps_get
  | |- keeps _ (lift _) => apply keeps_lift
  | |- keeps _ (item _ _) => apply keeps_item
  | |- keeps _ (log_error _) => apply keeps_log_error; reflexivity
  | |- keeps _ (log_warning _) => apply keeps_log_warning; reflexivity
  | |- keeps _ (log_exception _) => apply keeps_log_exception; reflexivity
  | |- keeps _ log_failed => apply keeps_log_failed; reflexivity
  | |- keeps _ (call _ _) => apply keeps_call; reflexivity
  | |- keeps _ (check_call _ _) => apply keeps_check_call; reflexivity
  | |- keeps _ (for_each _ _) => apply keeps_for_each; intros ?
  | |- keeps _ (modify _) => apply keeps_modify; intros ?; reflexivity
  | |- keeps _ (catch_part _) => apply keeps_catch_part; [reflexivity|]
  | |- keeps _ (if ?b then _ else _) => destruct b
  | |- keeps _ (match ?x with _ => _ end) => destruct x
  | |- keeps _ (let '(_, _) := ?x in _) => destruct x
  end.

Ltac keeps_auto := repeat keeps_step.

Section PartitionFrames.
Variable tool : list Cmd -> Cmd -> Z.
Variable pol : Policy.

Lemma keeps_getRequestedPercentage {X} (f : State -> X) size :
  (forall e s, f (add_log e s) = f s) ->
  keeps f (_getRequestedPercentage size).
Proof.
  intros Hl. unfold _getRequestedPercentage.
  apply keeps_bind; [apply keeps_get|intros st].
  apply keeps_bind; [apply keeps_lift|intros b].
  apply keeps_bind; [apply keeps_lift|intros r].
  destruct (_ =? 0); [|apply keeps_ret].
  apply keeps_bind; [now apply keeps_log_warning|intros _; apply keeps_ret].
Qed.

(** The partition dictionary is written by [_createPartitionEntry]
    and by the swap pass only. *)
Lemma partEntry_createNextPartition dev n ty part st en :
  keeps partEntry (_createNextPartition tool pol dev n ty part st en).
Proof.
  unfold _createNextPartition, set_flags, _editPartitionWithSfdisk.
  keeps_auto.
Qed.

Lemma partEntry_createPrimaryPartition dev n part :
  keeps partEntry (_createPrimaryPartition tool pol dev n part).
Proof.
  unfold _createPrimaryPartition.
  apply keeps_bind; [apply keeps_item|intros p2].
  apply keeps_bind; [now apply keeps_getRequestedPercentage|intros pct].
  apply keeps_bind; [apply keeps_get|intros st].
  apply keeps_bind; [keeps_auto|intros en].
  apply keeps_bind; [apply partEntry_createNextPartition|intros _].
  keeps_auto.
Qed.

Lemma partEntry_createExtendedPartition dev n part :
  keeps partEntry (_createExtendedPartition tool pol dev n part).
Proof.
  unfold _createExtendedPartition.
  apply keeps_bind; [apply keeps_item|intros p2].
  apply keeps_bind; [now apply keeps_getRequestedPercentage|intros pct].
  apply keeps_bind; [apply keeps_get|intros st].
  apply keeps_bind; [keeps_auto|intros en].
  apply keeps_bind; [apply partEntry_createNextPartition|intros _].
  keeps_auto.
Qed.

Lemma partEntry_createLogicalPartition dev n part :
  keeps partEntry (_createLogicalPartition tool pol dev n part).
Proof.
  unfold _createLogicalPartition.
  apply keeps_bind; [apply keeps_get|intros st0].
  destruct (extensionStart st0 =? -1); [keeps_auto|].
  apply keeps_bind; [apply keeps_item|intros p2].
  apply keeps_bind; [now apply keeps_getRequestedPercentage|intros pct].
  apply keeps_bind; [apply keeps_get|intros st].
  apply keeps_bind; [keeps_auto|intros en].
  apply keeps_bind; [apply partEntry_createNextPartition|intros _].
  keeps_auto.
Qed.

End PartitionFrames.

(** ** One declaration at a time *)

Lemma outcome_catch_part {A} (Q : A -> State -> Prop) s (m : M A) :
  outcome Q s (m s) -> outcome Q s (catch_part m s).
Proof.
  unfold catch_part, outcome.
  destruct (m s) as [[a| |[]] s1]; simpl; auto.
Qed.

Lemma order_token_item part token :
  nth_error part 1 = Some token -> order_token part = token.
Proof.
  intros H. unfold order_token. now apply nth_error_nth.
Qed.

Section Steps.
Variable tool : list Cmd -> Cmd -> Z.
Variable pol : Policy.

(** The partition is created, if at all, and then recorded. *)
Lemma outcome_create_entry (create : M unit) part n dev fid (c : Z * Z) s :
  keeps partEntry create ->
  outcome (fun c' s' =>
      c' = c /\
      exists name sz,
        nth_error part 0 = Some name /\ nth_error part 2 = Some sz /\
        partEntry s' = <[name := partition_entry sz n dev fid None]> (partEntry s))
    s ((create ;;; _createPartitionEntry part n dev fid None ;;; ret c) s).
Proof.
  intros Hk. unfold bind. specialize (Hk s).
  destruct (create s) as [[[]| |e] s1]; cbn [snd] in Hk; [|exact Hk..].
  unfold _createPartitionEntry, bind, item.
  destruct (nth_error part 2) as [sz|]; [|exact Hk].
  destruct (nth_error part 0) as [name|]; [|exact Hk].
  split; [reflexivity|]. exists name, sz.
  split; [reflexivity|]. split; [reflexivity|].
  cbn. now rewrite Hk.
Qed.

Lemma process_part_step build disk p l part s :
  outcome (step_post pol disk p l part s) s
    (catch_part (process_part tool pol build disk (p, l) part) s).
Proof.
  apply outcome_catch_part.
  unfold process_part, step_post, is_logical.
  unfold bind at 1, item.
  destruct (nth_error part 1) as [token|] eqn:Etok; simpl; [|reflexivity].
  rewrite (order_token_item _ _ Etok).
  destruct (ascii_is (last_char token) "L") eqn:EL.
  { destruct (negb (PART_LOGICAL_EXTENDED_ALLOWED pol)); [reflexivity|].
    destruct (_ || _ || _); [reflexivity|].
    pose proof (outcome_create_entry
      (if build then _createLogicalPartition tool pol (d_device disk) l part else ret tt)
      part l (d_device disk) (d_fstab_id disk) (p, l + 1) s) as H.
    unfold outcome in *.
    destruct ((_ ;;; _) s) as [[c| |e] s1]; auto.
    - destruct H as (-> & name & sz & H0 & H2 & HE).
      { destruct build; [apply partEntry_createLogicalPartition|apply keeps_ret]. }
      exists name, token, sz. repeat split; auto. discriminate.
    - apply H. destruct build; [apply partEntry_createLogicalPartition|apply keeps_ret].
    - apply H. destruct build; [apply partEntry_createLogicalPartition|apply keeps_ret]. }
  destruct (ascii_is (last_char token) "E") eqn:EE.
  { destruct (negb (PART_LOGICAL_EXTENDED_ALLOWED pol)); [reflexivity|].
    destruct (p >? PART_PRIMARY_PARTITIONS pol) eqn:Ep; [reflexivity|].
    destruct (bool_decide _); [reflexivity|].
    unfold bind at 1, get.
    destruct (negb (extensionStart s =? -1)); [reflexivity|].
    pose proof (outcome_create_entry
      (if build then _createExtendedPartition tool pol (d_device disk) p part else ret tt)
      part p (d_device disk) (d_fstab_id disk) (p + 1, l) s) as H.
    unfold outcome in *.
    destruct ((_ ;;; _) s) as [[c| |e] s1]; auto.
    - destruct H as (-> & name & sz & H0 & H2 & HE).
      { destruct build; [apply partEntry_createExtendedPartition|apply keeps_ret]. }
      exists name, token, sz. repeat split; auto. lia.
    - apply H. destruct build; [apply partEntry_createExtendedPartition|apply keeps_ret].
    - apply H. destruct build; [apply partEntry_createExtendedPartition|apply keeps_ret]. }
  destruct (last_char token); [|reflexivity].
  destruct (p >? PART_PRIMARY_PARTITIONS pol) eqn:Ep; [reflexivity|].
  pose proof (outcome_create_entry
    (if build then _createPrimaryPartition tool pol (d_device disk) p part else ret tt)
    part p (d_device disk) (d_fstab_id disk) (p + 1, l) s) as H.
  unfold outcome in *.
  destruct ((_ ;;; _) s) as [[c| |e] s1]; auto.
  - destruct H as (-> & name & sz & H0 & H2 & HE).
    { destruct build; [apply partEntry_createPrimaryPartition|apply keeps_ret]. }
    exists name, token, sz. repeat split; auto. lia.
  - apply H. destruct build; [apply partEntry_createPrimaryPartition|apply keeps_ret].
  - apply H. destruct build; [apply partEntry_createPrimaryPartition|apply keeps_ret].
Qed.

End Steps.

(** ** The loop over the declarations *)

Lemma count_class_nonneg lg parts : 0 <= count_class lg parts.
Proof. induction parts as [|x r IH]; simpl; [lia|]. destruct (Bool.eqb _ _); lia. Qed.

Lemma count_class_app lg l1 l2 :
  count_class lg (l1 ++ l2) = count_class lg l1 + count_class lg l2.
Proof. induction l1 as [|x r IH]; simpl; [lia|]. rewrite IH. lia. Qed.

Section Loop.
Variable tool : list Cmd -> Cmd -> Z.
Variable pol : Policy.
Variable build : bool.
Variable disk : DiskEntry.

Abbreviation loop := (partition_loop tool pol build disk).
Abbreviation entry_of sz n :=
  (partition_entry sz n (d_device disk) (d_fstab_id disk) None).

(** Every record of the dictionary after the loop was there before or
    belongs to a declaration, with the number of its class counter. *)
Lemma loop_entries parts : forall p l s name rec,
  partEntry (snd (loop parts (p, l) s)) !! name = Some rec ->
  partEntry s !! name = Some rec
  \/ exists i part sz,
       parts !! i = Some part /\ nth_error part 0 = Some name
       /\ nth_error part 2 = Some sz
       /\ rec = entry_of sz (numbered_from p l parts i part)
       /\ (is_logical part = false ->
           numbered_from p l parts i part <= PART_PRIMARY_PARTITIONS pol).
Proof.
  induction parts as [|part rest IH]; intros p l s name rec Hrec.
  - left. exact Hrec.
  - simpl in Hrec. unfold bind in Hrec.
    pose proof (process_part_step tool pol build disk p l part s) as Hstep.
    destruct (catch_part _ s) as [[c| |e] s1]; simpl in Hstep, Hrec.
    + destruct Hstep as (name0 & token & sz & H0 & H1 & H2 & HE & -> & Hmax).
      assert (Hc : exists p' l', (if is_logical part then (p, l + 1) else (p + 1, l)) = (p', l')
                   /\ p' = p + count_class false [part] /\ l' = l + count_class true [part]).
      { simpl. destruct (is_logical part); simpl; eexists _, _; split; eauto; lia. }
      destruct Hc as (p' & l' & Hc & Hp' & Hl'). rewrite Hc in Hrec.
      destruct (IH p' l' s1 name rec Hrec) as [Hold|(i & pi & szi & Hi & Hn & Hs & -> & Hm)].
      * rewrite HE in Hold.
        destruct (decide (name0 = name)) as [->|Hne].
        -- rewrite lookup_insert_eq in Hold. injection Hold as <-.
           right. exists 0%nat, part, sz. repeat split; auto.
           ++ unfold numbered_from. simpl. f_equal. lia.
           ++ unfold numbered_from. simpl. intros Hl. rewrite Hl.
              specialize (Hmax Hl). lia.
        -- rewrite lookup_insert_ne in Hold by exact Hne. now left.
      * right. exists (S i), pi, szi.
        assert (Hnum : numbered_from p' l' rest i pi = numbered_from p l (part :: rest) (S i) pi).
        { unfold numbered_from. simpl. subst p' l'. simpl.
          destruct (is_logical pi), (is_logical part); simpl; lia. }
        rewrite <- Hnum. repeat split; auto.
    + left. now rewrite <- Hstep.
    + left. now rewrite <- Hstep.
Qed.



End Loop.

(** ** Before and after the loop *)

Section Around.
Variable tool : list Cmd -> Cmd -> Z.
Variable pol : Policy.

(** The swap pass rewrites boot-time identifiers and nothing else. *)
Lemma swap_step_records build sw :
  keeps (fun s => without_fstab_id <$> partEntry s) (swap_step tool build sw).
Proof.
  intros s. destruct sw as [[dev n] part]. unfold swap_step.
  set (name := hd EmptyString part).
  unfold bind at 1.
  assert (Hfirst : forall r1 s1,
    (if build then
       st <- get ;;
       match partEntry st !! name with
       | Some r => check_call tool ["sudo"; "mkswap"; "-L"; name; device r]
       | None => raise KeyError
       end
     else ret tt) s = (r1, s1) -> partEntry s1 = partEntry s).
  { intros r1 s1 H. destruct build; [|now inversion H].
    unfold bind, get in H. destruct (partEntry s !! name).
    - unfold check_call, bind, call in H.
      destruct (_ =? 0); inversion H; reflexivity.
    - inversion H; reflexivity. }
  destruct (_ s) as [r1 s1] eqn:E1. specialize (Hfirst _ _ eq_refl).
  destruct r1 as [[]| |e]; simpl; try (now rewrite Hfirst).
  unfold bind, get. destruct (partEntry s1 !! name) as [r|] eqn:Er; simpl.
  - rewrite fmap_insert, <- Hfirst.
    apply insert_id. now rewrite lookup_fmap, Er.
  - now rewrite Hfirst.
Qed.

Lemma finish_partitioning_records build disk :
  keeps (fun s => without_fstab_id <$> partEntry s)
    (finish_partitioning tool build disk).
Proof.
  unfold finish_partitioning.
  apply keeps_bind; [apply keeps_call; reflexivity|intros r1].
  apply keeps_bind; [destruct (r1 =? 0); [apply keeps_ret|apply keeps_log_warning; reflexivity]|intros _].
  apply keeps_bind; [apply keeps_call; reflexivity|intros r2].
  apply keeps_bind; [destruct (r2 =? 0); [apply keeps_ret|apply keeps_log_warning; reflexivity]|intros _].
  apply keeps_bind; [apply keeps_get|intros st].
  apply keeps_bind; [apply keeps_for_each; intros sw; apply swap_step_records|intros _].
  apply keeps_bind; [apply keeps_modify; reflexivity|intros _].
  apply keeps_bind; [apply keeps_get|intros st'].
  apply keeps_ret.
Qed.

(** The state in which the loop starts. *)
Lemma prologue_state env options build s disk parts s1 :
  prologue tool pol env options build s = (Val (disk, parts), s1) ->
  partEntry s1 = ∅ /\ swaps s1 = [] /\ disk_swaps s1 = []
  /\ startPercent s1 = 0 /\ extensionStart s1 = -1 /\ calls s1 = calls s
  /\ disksize s1 = d_size disk
  /\ sort_partitions (declared_partitions options) = inr parts.
Proof.
  unfold prologue. unfold bind at 1. simpl.
  unfold bind at 1. destruct (option_value options "system") as [e|system]; [discriminate|].
  simpl. unfold bind at 1.
  destruct (option_value options "disk-name") as [e|diskname]; [discriminate|].
  simpl.
  destruct (env !! _getEnvKey system) as [sys|]; [|discriminate].
  destruct (sys_disks sys ≫= _) as [d|]; [|discriminate].
  destruct (d_partitions d); [discriminate|].
  unfold bind at 1. simpl. unfold bind at 1. simpl. unfold bind at 1.
  destruct build.
  - unfold check_call, bind at 1, call. simpl.
    destruct (_ =? 0); [|discriminate]. simpl.
    unfold bind. simpl.
    destruct (sort_partitions _) as [e|ps]; [discriminate|]. simpl.
    intros H. inversion H; subst. simpl. tauto.
  - simpl. unfold bind. simpl.
    destruct (sort_partitions _) as [e|ps]; [discriminate|]. simpl.
    intros H. inversion H; subst. simpl. tauto.
Qed.

(** A run that does not get past the prologue, or that starts its
    loop and ends in any way, leaves a dictionary whose records are
    those that the loop left, up to the boot-time identifiers. *)
Lemma doPartitioning_records env options build s disk parts s1 :
  prologue tool pol env options build s = (Val (disk, parts), s1) ->
  without_fstab_id <$> partEntry (snd (_doPartitioning tool pol env options build s))
  = without_fstab_id <$>
      partEntry (snd (partition_loop tool pol build disk parts (1, 5) s1)).
Proof.
  intros Hpro. unfold _doPartitioning. unfold bind at 1. rewrite Hpro.
  unfold bind.
  destruct (partition_loop _ _ _ _ _ _ s1) as [[c| |e] s2]; try reflexivity.
  apply (finish_partitioning_records build disk s2).
Qed.

End Around.

(** ** Processing order and partition numbers *)






(** Within a class the numbers grow strictly with the position. *)
Lemma count_class_take_lt lg parts i j pi :
  parts !! i = Some pi -> is_logical pi = lg -> (i < j)%nat ->
  count_class lg (take i parts) < count_class lg (take j parts).
Proof.
  intros Hi Hlg Hij.
  rewrite <- (take_drop (S i) (take j parts)), take_take.
  replace (S i `min` j)%nat with (S i) by lia.
  rewrite (take_S_r _ _ _ Hi), !count_class_app. simpl.
  rewrite Hlg, Bool.eqb_reflx.
  pose proof (count_class_nonneg lg (drop (S i) (take j parts))). lia.
Qed.



(** ** The slot budget *)








(** ** Device paths and boot-time identifiers *)

Lemma partition_entry_positive sz n dev fid :
  0 < n ->
  partition_entry sz n dev fid None
  = {| number := n; size := sz;
       device := dev +:+ partsep dev +:+ format_d n;
       fstab_id := if str_in "=" fid then None
                   else Some (fid +:+ partsep fid +:+ format_d n) |}.
Proof.
  intros Hn. unfold partition_entry, partsep.
  assert (Hgt : (n >? 0) = true) by (apply Z.gtb_lt; lia).
  rewrite Hgt. destruct (str_in "=" fid); reflexivity.
Qed.

Lemma numbered_from_positive p l parts i part :
  0 < p -> 0 < l -> 0 < numbered_from p l parts i part.
Proof.
  intros Hp Hl. unfold numbered_from.
  pose proof (count_class_nonneg (is_logical part) (take i parts)).
  destruct (is_logical part); lia.
Qed.



(** A loop device and a plain disk, on the declarations of the
    example. *)
Example device_path_examples :
  device <$> (partEntry (snd (_doPartitioning tools_ok Msdos
      (one_disk "mysystem" "mydisk" "/dev/loop0" 107374182400 "/dev/loop0")
      example_options false blank)) !! "swap") = Some "/dev/loop0p6"
  /\ device <$> (partEntry (snd (_doPartitioning tools_ok Msdos example_env
      example_options false blank)) !! "swap") = Some "/dev/sda6".
Proof. split; vm_compute; reflexivity. Qed.

(** C7, as the code has it.  The loop gives a partition the numbered
    identifier (the disk's identifier, a ['p'] when it contains
    ['loop'], the partition number) when the disk's identifier has no
    ['=']; when it has one, the identifier of the partition is left
    unset. *)
Theorem C7_fstab_id tool pol build disk parts s :
  partEntry s = ∅ ->
  forall name rec,
    partEntry (snd (partition_loop tool pol build disk parts (1, 5) s)) !! name
      = Some rec ->
    fstab_id rec
    = if str_in "=" (d_fstab_id disk) then None
      else Some (d_fstab_id disk
                 +:+ (if str_in "loop" (d_fstab_id disk) then "p" else EmptyString)
                 +:+ format_d (number rec)).
Proof.
  intros Hempty name rec Hrec.
  apply loop_entries in Hrec as [Hold|(i & part & sz & _ & _ & _ & -> & _)].
  { rewrite Hempty, lookup_empty in Hold. discriminate. }
  pose proof (numbered_from_positive 1 5 parts i part ltac:(lia) ltac:(lia)) as Hpos.
  rewrite partition_entry_positive by exact Hpos. reflexivity.
Qed.

Lemma C7_fstab_id_witness :
  partEntry (sized 107374182400) = ∅
  /\ forall name rec,
       partEntry (snd (partition_loop tools_ok Msdos true example_disk
                         example_parts (1, 5) (sized 107374182400))) !! name
         = Some rec ->
       fstab_id rec = Some ("/dev/sda" +:+ format_d (number rec)).
Proof.
  split; [reflexivity|].
  exact (C7_fstab_id tools_ok Msdos true example_disk example_parts
           (sized 107374182400) eq_refl).
Defined.

(** C7 as stated fails in both cases.  A disk identified by
    [UUID=0a1b] leaves its partition without identifier, where the
    claim derives a numbered one; a disk identified by [/dev/sda] gives
    its first partition [/dev/sda1], where the claim propagates
    [/dev/sda]. *)
Lemma C7_not_as_claimed :
  let entry fid :=
    partEntry (snd (_createPartitionEntry ["root"; "01"; "10G"; "ext4"] 1
                      "/dev/sda" fid None blank)) !! "root" in
  fstab_id <$> entry "UUID=0a1b" = Some None
  /\ claimed_fstab_id "UUID=0a1b" 1 = Some "UUID=0a1b1"
  /\ fstab_id <$> entry "/dev/sda" = Some (Some "/dev/sda1")
  /\ claimed_fstab_id "/dev/sda" 1 = Some "/dev/sda".
Proof.
  cbv zeta. split; [vm_compute; reflexivity|]. split; [vm_compute; reflexivity|]. split; [vm_compute; reflexivity|]. vm_compute; reflexivity.
Qed.

(** ** Flags *)

Lemma trace_add_traces cmds : forall s, trace (add_traces cmds s) = trace s ++ cmds.
Proof.
  induction cmds as [|c cmds IH]; intros s; simpl.
  - now rewrite app_nil_r.
  - unfold add_traces in IH. rewrite IH. simpl. now rewrite <- app_assoc.
Qed.

Lemma add_traces_app l1 l2 s :
  add_traces (l1 ++ l2) s = add_traces l2 (add_traces l1 s).
Proof. apply fold_left_app. Qed.

Section Flags.
Variable tool : list Cmd -> Cmd -> Z.
Variables (dev : string) (n : Z).

Abbreviation flag_cmd := (set_flag_command dev n).
Abbreviation flag_loop flags :=
  (for_each flags (fun flag => check_call tool (flag_cmd flag))).



End Flags.



(** ** Logical declarations without an extended partition *)

Section NoExtended.
Variable tool : list Cmd -> Cmd -> Z.
Variable pol : Policy.







End NoExtended.

(** How [_doPartitioning] ends when its loop does not complete. *)
Lemma doPartitioning_loop_stops tool pol env options build s disk parts s1 r s2 :
  prologue tool pol env options build s = (Val (disk, parts), s1) ->
  partition_loop tool pol build disk parts (1, 5) s1 = (r, s2) ->
  (forall c, r <> Val c) ->
  snd (_doPartitioning tool pol env options build s) = s2
  /\ (r = Ret_None -> fst (_doPartitioning tool pol env options build s) = Ret_None)
  /\ (forall e, r = Raise e ->
        fst (_doPartitioning tool pol env options build s) = Raise e).
Proof.
  intros Hpro Hloop Hfail.
  assert (Hrun : _doPartitioning tool pol env options build s
                 = (match r with
                    | Raise e => Raise e
                    | _ => Ret_None
                    end, s2)).
  { unfold _doPartitioning, bind at 1. rewrite Hpro.
    unfold bind at 1. rewrite Hloop.
    destruct r as [c| |e]; [now destruct (Hfail c)|reflexivity..]. }
  rewrite Hrun. cbn [fst snd].
  split; [reflexivity|]. split.
  - intros ->. reflexivity.
  - intros e ->. reflexivity.
Qed.



(** The same declarations in build mode: the exception, after the
    commands of the first declaration only. *)
Example orphan_in_build_mode :
  let run := _doPartitioning tools_ok Msdos example_env orphan_options true blank in
  fst run = Raise (SystemError "Logical partitions require extended partitions")
  /\ length (trace (snd run)) = 4%nat
  /\ partEntry (snd run) !! "data" = None.
Proof.
  cbv zeta. split; [vm_compute; reflexivity|]. split; [vm_compute; reflexivity|]. vm_compute; reflexivity.
Qed.



(** ** Build mode and reuse mode *)

(** C5 on the documented example.  The build-mode run labels the swap
    partition and lists it in the [swaps] of the disk; the reuse-mode
    run over the same declarations and disk does neither, because
    [self.swaps] is filled by [_createNextPartition], which only the
    build mode calls.  The records of the two runs differ in the
    fstab-id of the swap partition. *)
Lemma C5_reuse_misses_swap_label :
  let built := build tools_ok Msdos example_env documented_options blank in
  let reused := use_system_build tools_ok Msdos example_env documented_options blank in
  fst built = Val (partEntry (snd built))
  /\ fst reused = Val (partEntry (snd reused))
  /\ partEntry (snd built) !! "swap"
     = Some {| number := 2; size := "2G"; device := "/dev/sda2";
               fstab_id := Some "LABEL=swap" |}
  /\ partEntry (snd reused) !! "swap"
     = Some {| number := 2; size := "2G"; device := "/dev/sda2";
               fstab_id := Some "/dev/sda2" |}
  /\ disk_swaps (snd built)
     = [("swap", {| number := 2; size := "2G"; device := "/dev/sda2";
                    fstab_id := Some "LABEL=swap" |})]
  /\ disk_swaps (snd reused) = [].
Proof.
  cbv zeta.
  split; [vm_compute; reflexivity|]. split; [vm_compute; reflexivity|].
  split; [vm_compute; reflexivity|]. split; [vm_compute; reflexivity|].
  split; vm_compute; reflexivity.
Qed.

(** ** Extents *)

(** C1 on an extended declaration followed by a primary one.
    [_createExtendedPartition] does not move [self.startPercent], so
    the primary partition is created at the start of the extended one:
    the extents [[0,50)] and [[0,20)] of the two siblings overlap. *)
Lemma C1_primary_over_extended :
  let run := build tools_ok Msdos example_env extended_first_options blank in
  fst run = Val (partEntry (snd run))
  /\ calls (snd run)
     = [{| nc_type := "extended"; nc_number := 1; nc_start := 0; nc_end := 50 |};
        {| nc_type := "primary"; nc_number := 2; nc_start := 0; nc_end := 20 |}]
  /\ overlap
       {| nc_type := "extended"; nc_number := 1; nc_start := 0; nc_end := 50 |}
       {| nc_type := "primary"; nc_number := 2; nc_start := 0; nc_end := 20 |}.
Proof.
  cbv zeta.
  split; [vm_compute; reflexivity|]. split; [vm_compute; reflexivity|].
  unfold overlap. simpl. lia.
Qed.

(** ** What the two modes do agree on *)

Section Modes.
Variable tool : list Cmd -> Cmd -> Z.
Variable pol : Policy.

(** The record step of a declaration, once the partition exists. *)
Lemma create_entry_value (create : M unit) part n dev fid (c : Z * Z) s c' s' :
  (create ;;; _createPartitionEntry part n dev fid None ;;; ret c) s = (Val c', s') ->
  c' = c /\ exists name sz,
    nth_error part 0 = Some name /\ nth_error part 2 = Some sz.
Proof.
  unfold bind at 1. destruct (create s) as [[[]| |e] s1]; try discriminate.
  unfold _createPartitionEntry, bind, item.
  destruct (nth_error part 2) as [sz|]; [|discriminate].
  destruct (nth_error part 0) as [name|]; [|discriminate].
  cbn. intros [= <- _]. eauto.
Qed.

Lemma entry_only part n dev fid (c : Z * Z) name sz s :
  nth_error part 0 = Some name -> nth_error part 2 = Some sz ->
  (ret tt ;;; _createPartitionEntry part n dev fid None ;;; ret c) s
  = (Val c, set_partEntry (insert name (partition_entry sz n dev fid None)) s).
Proof.
  intros H0 H2. unfold bind at 1, ret at 1. cbv beta iota.
  unfold _createPartitionEntry, bind, item. rewrite H2, H0. reflexivity.
Qed.

(** A declaration that build mode accepts is accepted in reuse mode,
    with the same counters and the same record. *)
Lemma step_reuse_follows disk c part s c' s' sr :
  catch_part (process_part tool pol true disk c part) s = (Val c', s') ->
  extensionStart sr = -1 ->
  exists name sz n,
    partEntry s' = <[name := partition_entry sz n (d_device disk) (d_fstab_id disk) None]>
                     (partEntry s)
    /\ catch_part (process_part tool pol false disk c part) sr
       = (Val c',
          set_partEntry
            (insert name (partition_entry sz n (d_device disk) (d_fstab_id disk) None)) sr).
Proof.
  intros Hrun Hext. destruct c as [p l].
  pose proof (process_part_step tool pol true disk p l part s) as Hstep.
  rewrite Hrun in Hstep. cbn in Hstep.
  destruct Hstep as (name & token & sz & H0 & H1 & H2 & HE & _ & _).
  exists name, sz, (if is_logical part then l else p).
  split; [exact HE|].
  unfold is_logical. rewrite (order_token_item _ _ H1).
  unfold catch_part, process_part, bind at 1, item in Hrun.
  rewrite H1 in Hrun. cbv beta iota in Hrun.
  unfold ret at 1 in Hrun. cbv beta iota in Hrun.
  unfold catch_part, process_part, bind at 1, item.
  rewrite H1. cbv beta iota. unfold ret at 1. cbv beta iota.
  revert Hrun.
  destruct (ascii_is (last_char token) "L").
  { destruct (negb (PART_LOGICAL_EXTENDED_ALLOWED pol)); [discriminate|].
    destruct (_ || _ || _); [discriminate|].
    intros Hrun.
    assert (Hc : c' = (p, l + 1)).
    { destruct ((_ ;;; _) s) as [[c0| |[]] s0] eqn:E; try discriminate.
      injection Hrun as <- <-.
      now destruct (create_entry_value _ _ _ _ _ _ _ _ _ E). }
    subst c'. now rewrite (entry_only _ _ _ _ _ _ _ _ H0 H2). }
  destruct (ascii_is (last_char token) "E").
  { destruct (negb (PART_LOGICAL_EXTENDED_ALLOWED pol)); [discriminate|].
    destruct (p >? PART_PRIMARY_PARTITIONS pol); [discriminate|].
    destruct (bool_decide _); [discriminate|].
    intros Hrun. unfold bind at 1, get in Hrun.
    unfold bind at 1, get. rewrite Hext.
    change (negb (-1 =? -1)) with false. cbv iota. revert Hrun.
    destruct (negb (extensionStart s =? -1)); [discriminate|].
    intros Hrun.
    assert (Hc : c' = (p + 1, l)).
    { destruct ((_ ;;; _) s) as [[c0| |[]] s0] eqn:E; try discriminate.
      injection Hrun as <- <-.
      now destruct (create_entry_value _ _ _ _ _ _ _ _ _ E). }
    subst c'. now rewrite (entry_only _ _ _ _ _ _ _ _ H0 H2). }
  destruct (last_char token); [|discriminate].
  destruct (p >? PART_PRIMARY_PARTITIONS pol); [discriminate|].
  intros Hrun.
  assert (Hc : c' = (p + 1, l)).
  { destruct ((_ ;;; _) s) as [[c0| |[]] s0] eqn:E; try discriminate.
    injection Hrun as <- <-.
    now destruct (create_entry_value _ _ _ _ _ _ _ _ _ E). }
  subst c'. now rewrite (entry_only _ _ _ _ _ _ _ _ H0 H2).
Qed.

Lemma loop_reuse_follows disk parts : forall c s c' s' sr,
  partition_loop tool pol true disk parts c s = (Val c', s') ->
  extensionStart sr = -1 ->
  partEntry sr = partEntry s ->
  exists sr',
    partition_loop tool pol false disk parts c sr = (Val c', sr')
    /\ partEntry sr' = partEntry s'.
Proof.
  induction parts as [|part parts IH]; intros c s c' s' sr Hrun Hext Hpe.
  - injection Hrun as <- <-. now exists sr.
  - cbn [partition_loop] in Hrun |- *. unfold bind at 1 in Hrun. unfold bind at 1.
    destruct (catch_part _ s) as [[c1| |e] s1] eqn:E1; try discriminate.
    destruct (step_reuse_follows _ _ _ _ _ _ sr E1 Hext)
      as (name & sz & n & HE & Hr).
    rewrite Hr.
    apply (IH _ _ _ _ _ Hrun); [exact Hext|].
    cbn. now rewrite HE, Hpe.
Qed.

End Modes.

Section ModesAgree.
Variable tool : list Cmd -> Cmd -> Z.
Variable pol : Policy.

(** A turn of the swap pass always completes. *)
Lemma swap_step_value build sw s : fst (swap_step tool build sw s) = Val tt.
Proof.
  destruct sw as [[dev n] part]. unfold swap_step.
  set (name := hd EmptyString part).
  unfold bind at 1.
  assert (Hfirst : forall r1 s1,
    (if build then
       st <- get ;;
       match partEntry st !! name with
       | Some r => check_call tool ["sudo"; "mkswap"; "-L"; name; device r]
       | None => raise KeyError
       end
     else ret tt) s = (r1, s1) -> r1 <> Ret_None).
  { intros r1 s1 H. destruct build; [|now inversion H].
    unfold bind, get in H. destruct (partEntry s !! name).
    - unfold check_call, bind, call in H.
      destruct (_ =? 0); inversion H; discriminate.
    - inversion H; discriminate. }
  destruct (_ s) as [r1 s1] eqn:E1. specialize (Hfirst _ _ eq_refl).
  destruct r1 as [[]| |e]; [|congruence|reflexivity].
  unfold bind, get. destruct (partEntry s1 !! name); reflexivity.
Qed.

Lemma swap_pass_value build sws : forall s,
  fst (for_each sws (swap_step tool build) s) = Val tt.
Proof.
  induction sws as [|sw sws IH]; intros s; [reflexivity|].
  cbn [for_each]. unfold bind at 1.
  pose proof (swap_step_value build sw s) as H.
  destruct (swap_step tool build sw s) as [[[]| |e] s1]; try discriminate.
  apply IH.
Qed.

(** After the loop nothing can fail: the result is the dictionary. *)
Lemma finish_partitioning_returns build disk s :
  exists s', finish_partitioning tool build disk s = (Val (partEntry s'), s').
Proof.
  assert (Hw : forall (r : Z) fmt s0, exists s0',
             (if r =? 0 then ret tt else log_warning fmt) s0 = (Val tt, s0')).
  { intros r fmt s0. destruct (r =? 0); eexists; reflexivity. }
  unfold finish_partitioning.
  unfold bind at 1, call. cbv beta iota.
  unfold bind at 1.
  destruct (Hw (tool (trace s) ["sudo"; "partprobe"; d_device disk])
              "Part probe failed"
              (add_trace ["sudo"; "partprobe"; d_device disk] s)) as [s2 ->].
  unfold bind at 1, call. cbv beta iota.
  unfold bind at 1.
  destruct (Hw (tool (trace s2) ["sudo"; "udevadm"; "settle"])
              "settle failed"
              (add_trace ["sudo"; "udevadm"; "settle"] s2)) as [s4 ->].
  unfold bind at 1, get. cbv beta iota.
  unfold bind at 1.
  pose proof (swap_pass_value build (swaps s4) s4) as Hs.
  destruct (for_each (swaps s4) (swap_step tool build) s4) as [[[]| |e] s5];
    try discriminate.
  eexists. reflexivity.
Qed.

Lemma finish_partitioning_value build disk s :
  fst (finish_partitioning tool build disk s)
  = Val (partEntry (snd (finish_partitioning tool build disk s))).
Proof.
  destruct (finish_partitioning_returns build disk s) as [s' ->]. reflexivity.
Qed.

(** The prologue of the reuse mode passes where the build mode's does. *)
Lemma prologue_reuse_follows env options s disk parts s1 :
  prologue tool pol env options true s = (Val (disk, parts), s1) ->
  exists s1r,
    prologue tool pol env options false s = (Val (disk, parts), s1r)
    /\ partEntry s1r = ∅ /\ extensionStart s1r = -1.
Proof.
  unfold prologue, check_call, call, log_error, log_failed, log_devdebug.
  unfold bind, lift, modify, ret, raise, return_None.
  destruct (option_value options "system") as [e|system]; [discriminate|].
  destruct (option_value options "disk-name") as [e|diskname]; [discriminate|].
  destruct (env !! _getEnvKey system) as [sys|]; [|discriminate].
  destruct (sys_disks sys ≫= _) as [d|]; [|discriminate].
  destruct (d_partitions d); [discriminate|].
  cbv beta iota.
  destruct (tool _ _ =? 0); [|discriminate].
  destruct (sort_partitions _) as [e|ps]; [discriminate|].
  intros H. inversion H; subst.
  eexists. split; [reflexivity|]. split; reflexivity.
Qed.

(** X2.  Whenever the build-mode run returns a partition dictionary, the
    reuse-mode run over the same declarations and disk returns one
    too, with the same names and, for each name, the same number, size
    and device.  Only the fstab-id may differ. *)
Theorem modes_agree_without_fstab_id env options s built sb :
  _doPartitioning tool pol env options true s = (Val built, sb) ->
  exists reused sr,
    _doPartitioning tool pol env options false s = (Val reused, sr)
    /\ without_fstab_id <$> reused = without_fstab_id <$> built.
Proof.
  intros Hb.
  destruct (prologue tool pol env options true s) as [[[disk parts]| |e] s1] eqn:Hpro.
  2,3: unfold _doPartitioning, bind at 1 in Hb; rewrite Hpro in Hb; discriminate.
  destruct (partition_loop tool pol true disk parts (1, 5) s1) as [[c| |e] s2] eqn:Hloop.
  2,3: unfold _doPartitioning, bind at 1 in Hb; rewrite Hpro in Hb;
       unfold bind at 1 in Hb; rewrite Hloop in Hb; discriminate.
  destruct (prologue_state _ _ _ _ _ _ _ _ _ Hpro) as (Hempty & _).
  destruct (prologue_reuse_follows _ _ _ _ _ _ Hpro) as (s1r & Hpror & Hemptyr & Hextr).
  destruct (loop_reuse_follows tool pol disk parts _ _ _ _ s1r Hloop Hextr)
    as (s2r & Hloopr & Hpe); [congruence|].
  pose proof (doPartitioning_records tool pol _ _ _ _ _ _ _ Hpro) as Hrb.
  pose proof (doPartitioning_records tool pol _ _ _ _ _ _ _ Hpror) as Hrr.
  rewrite Hb, Hloop in Hrb. rewrite Hloopr in Hrr. cbn [snd] in Hrb, Hrr.
  assert (Hvb : built = partEntry sb).
  { unfold _doPartitioning, bind at 1 in Hb. rewrite Hpro in Hb.
    unfold bind at 1 in Hb. rewrite Hloop in Hb.
    pose proof (finish_partitioning_value true disk s2) as Hv.
    rewrite Hb in Hv. cbn in Hv. now injection Hv. }
  assert (Hr : _doPartitioning tool pol env options false s
               = finish_partitioning tool false disk s2r).
  { unfold _doPartitioning, bind at 1. rewrite Hpror.
    unfold bind at 1. now rewrite Hloopr. }
  pose proof (finish_partitioning_value false disk s2r) as Hvr.
  rewrite <- Hr in Hvr.
  destruct (_doPartitioning tool pol env options false s) as [rr sr].
  cbn [fst snd] in Hvr, Hrr. subst rr.
  exists (partEntry sr), sr. split; [reflexivity|].
  rewrite Hrr, Hpe, <- Hrb, Hvb. reflexivity.
Qed.

End ModesAgree.

(** ** The extents that are laid out correctly *)

Lemma good_final cs sp es ee :
  good cs sp es ee -> StronglySorted laid_out cs /\ Forall on_disk cs.
Proof. intros (_ & H1 & H2 & _). auto. Qed.

Lemma good_primary cs sp es ee n en :
  good cs sp es ee -> sp <= en <= 100 ->
  good (cs ++ [{| nc_type := "primary"; nc_number := n;
                  nc_start := sp; nc_end := en |}]) en es ee.
Proof.
  intros (Hsp & Hss & Hon & Hprim & Hnone & Hext) Hen.
  split; [lia|]. split.
  { apply StronglySorted_app. split; [|split; [exact Hss|repeat constructor]].
    intros a b Ha Hb. apply list_elem_of_singleton in Hb as ->.
    rewrite Forall_forall in Hprim. specialize (Hprim _ Ha).
    unfold laid_out, before. cbn.
    split; [|split; [discriminate|split; discriminate]].
    intros Hty _. specialize (Hprim Hty). lia. }
  split.
  { apply Forall_app. split; [exact Hon|]. repeat constructor; cbn; lia. }
  split.
  { apply Forall_app. split.
    - eapply Forall_impl; [exact Hprim|]. cbn. intros a Ha Hty.
      specialize (Ha Hty). lia.
    - repeat constructor. cbn. lia. }
  split.
  { intros He. apply Forall_app. split; [auto|]. repeat constructor. }
  intros He. destruct (Hext He) as (H1 & H2 & Hall).
  split; [exact H1|]. split; [exact H2|].
  apply Forall_app. split; [exact Hall|].
  repeat constructor; cbn; discriminate.
Qed.

Lemma good_extended cs sp ee n en :
  good cs sp (-1) ee -> sp <= en <= 100 ->
  good (cs ++ [{| nc_type := "extended"; nc_number := n;
                  nc_start := sp; nc_end := en |}]) sp sp en.
Proof.
  intros (Hsp & Hss & Hon & Hprim & Hnone & Hext) Hen.
  specialize (Hnone eq_refl).
  split; [lia|]. split.
  { apply StronglySorted_app. split; [|split; [exact Hss|repeat constructor]].
    intros a b Ha Hb. apply list_elem_of_singleton in Hb as ->.
    rewrite Forall_forall in Hnone. specialize (Hnone _ Ha).
    unfold laid_out. cbn. rewrite Hnone.
    split; [discriminate|split; [discriminate|split; discriminate]]. }
  split.
  { apply Forall_app. split; [exact Hon|]. repeat constructor; cbn; lia. }
  split.
  { apply Forall_app. split; [exact Hprim|]. repeat constructor. cbn. discriminate. }
  split; [lia|].
  intros _. split; [lia|]. split; [lia|].
  apply Forall_app. split.
  - eapply Forall_impl; [exact Hnone|]. cbn. intros a Ha.
    rewrite Ha. split; discriminate.
  - repeat constructor; cbn; [lia|discriminate].
Qed.

Lemma good_logical cs sp es ee n en :
  good cs sp es ee -> es <> -1 -> es <= en <= ee ->
  good (cs ++ [{| nc_type := "logical"; nc_number := n;
                  nc_start := es; nc_end := en |}]) sp en ee.
Proof.
  intros (Hsp & Hss & Hon & Hprim & Hnone & Hext) Hes Hen.
  destruct (Hext Hes) as (H1 & H2 & Hall).
  split; [lia|]. split.
  { apply StronglySorted_app. split; [|split; [exact Hss|repeat constructor]].
    intros a b Ha Hb. apply list_elem_of_singleton in Hb as ->.
    rewrite Forall_forall in Hall. destruct (Hall _ Ha) as [He Hl].
    unfold laid_out, before, within. cbn.
    split; [discriminate|]. split; [|split; [|discriminate]].
    - intros Hty _. specialize (Hl Hty). lia.
    - intros Hty _. destruct (He Hty). lia. }
  split.
  { apply Forall_app. split; [exact Hon|]. repeat constructor; cbn; lia. }
  split.
  { apply Forall_app. split; [exact Hprim|]. repeat constructor. cbn. discriminate. }
  split; [lia|].
  intros _. split; [lia|]. split; [lia|].
  apply Forall_app. split.
  - eapply Forall_impl; [exact Hall|]. cbn. intros a [He Hl]. split.
    + intros Hty. destruct (He Hty). split; lia.
    + intros Hty. specialize (Hl Hty). lia.
  - constructor; [|constructor]. cbn. split; [discriminate|lia].
Qed.

Section Extents.
Variable tool : list Cmd -> Cmd -> Z.
Variable pol : Policy.

Lemma layout_createNextPartition dev n ty part st en s :
  layout (snd (_createNextPartition tool pol dev n ty part st en s))
  = (calls s ++ [{| nc_type := ty; nc_number := n; nc_start := st; nc_end := en |}],
     (startPercent s, extensionStart s, extensionEnd s),
     (systemInstance s, disksize s)).
Proof.
  unfold _createNextPartition. unfold bind at 1. cbn [modify].
  lazymatch goal with
  | |- layout (snd (?rest ?s1)) = _ =>
      assert (Hk : keeps layout rest);
      [unfold set_flags, _editPartitionWithSfdisk; keeps_auto
      |rewrite (Hk s1); reflexivity]
  end.
Qed.

Lemma getRequestedPercentage_value size s pct s' :
  sizes_ok s ->
  _getRequestedPercentage size s = (Val pct, s') ->
  1 <= pct /\ layout s' = layout s.
Proof.
  intros [Hd Hp] Hrun. split.
  - unfold _getRequestedPercentage, bind, get, lift in Hrun.
    destruct (_getSizeInBytes (systemInstance s) size) as [e|bytes] eqn:E;
      [discriminate|].
    cbn [ret] in Hrun.
    destruct (Float.percent bytes (disksize s)) as [e|r] eqn:Er;
      [discriminate|].
    apply percent_nonneg in Er; [|specialize (Hp _ _ E); lia|lia].
    cbn [ret] in Hrun.
    destruct (r =? 0) eqn:Ez.
    + cbn in Hrun. injection Hrun as <- _. lia.
    + apply Z.eqb_neq in Ez. injection Hrun as <- _. lia.
  - pose proof (keeps_getRequestedPercentage layout size
                  ltac:(reflexivity) s) as Hk.
    now rewrite Hrun in Hk.
Qed.

Lemma layout_getRequestedPercentage size s :
  layout (snd (_getRequestedPercentage size s)) = layout s.
Proof. apply (keeps_getRequestedPercentage layout size ltac:(reflexivity) s). Qed.

Lemma same_layout s s' :
  layout s' = layout s -> sizes_ok s -> Inv s ->
  Final s' /\ sizes_ok s' /\ Inv s'.
Proof.
  unfold layout, Final, sizes_ok, Inv. intros [= -> -> -> -> -> ->] Hs Hi.
  split; [now apply good_final in Hi|]. split; assumption.
Qed.

Lemma ok_same_layout {A} (r : Res A) s s' :
  layout s' = layout s -> sizes_ok s -> Inv s -> ok_result (r, s').
Proof.
  intros Hl Hs Hi. destruct (same_layout _ _ Hl Hs Hi) as (H1 & H2 & H3).
  split; [exact H1|]. split; [exact H2|]. intros _ _. exact H3.
Qed.

Lemma clamp_value (b : bool) fmt (v w : Z) s :
  (if b then log_warning fmt ;;; ret v else ret w) s
  = (Val (if b then v else w), if b then add_log (Lwarning fmt) s else s).
Proof. destruct b; reflexivity. Qed.

(** The call and the move of the cursor that follows it. *)
Lemma tail_layout dev n ty part st en (upd : State -> State) s sp' es' ee' :
  sizes_ok s ->
  good (calls s ++ [{| nc_type := ty; nc_number := n;
                       nc_start := st; nc_end := en |}]) sp' es' ee' ->
  (forall s3,
     (startPercent s3, extensionStart s3, extensionEnd s3)
     = (startPercent s, extensionStart s, extensionEnd s) ->
     layout (upd s3)
     = (calls s3, (sp', es', ee'), (systemInstance s3, disksize s3))) ->
  effect (_createNextPartition tool pol dev n ty part st en ;;; modify upd) s.
Proof.
  intros Hs Hgood Hupd. unfold effect, ok_result, bind.
  pose proof (layout_createNextPartition dev n ty part st en s) as Hl.
  destruct (_createNextPartition tool pol dev n ty part st en s)
    as [[[]| |e] s3]; cbn [fst snd modify] in *.
  - unfold layout in Hl. injection Hl as Hc Hg1 Hg2 Hg3 Hsys Hd.
    specialize (Hupd s3 ltac:(congruence)). unfold layout in Hupd.
    injection Hupd as Hc' Hsp Hes Hee Hsys' Hd'.
    unfold Final, sizes_ok, Inv.
    rewrite Hc', Hsp, Hes, Hee, Hsys', Hd', Hc, Hsys, Hd.
    split; [now apply good_final in Hgood|]. split; [exact Hs|]. intros _ _. exact Hgood.
  - unfold layout in Hl. injection Hl as Hc _ _ _ Hsys Hd.
    unfold Final, sizes_ok. rewrite Hc, Hsys, Hd.
    split; [now apply good_final in Hgood|]. split; [exact Hs|]. discriminate.
  - unfold layout in Hl. injection Hl as Hc _ _ _ Hsys Hd.
    unfold Final, sizes_ok. rewrite Hc, Hsys, Hd.
    split; [now apply good_final in Hgood|]. split; [exact Hs|]. discriminate.
Qed.

Lemma layout_if_log (b : bool) e s :
  layout (if b then add_log e s else s) = layout s.
Proof. destruct b; reflexivity. Qed.

Lemma sizes_ok_layout s s' : layout s' = layout s -> sizes_ok s -> sizes_ok s'.
Proof. unfold layout, sizes_ok. intros [= _ _ _ _ -> ->]. auto. Qed.

Lemma primary_layout dev n part s :
  sizes_ok s -> Inv s -> effect (_createPrimaryPartition tool pol dev n part) s.
Proof.
  intros Hs Hi. unfold effect, _createPrimaryPartition.
  unfold bind at 1, item.
  destruct (nth_error part 2) as [p2|]; [|now apply (ok_same_layout _ s)].
  unfold ret at 1. cbv beta iota. unfold bind at 1.
  pose proof (layout_getRequestedPercentage p2 s) as Hl1.
  destruct (_getRequestedPercentage p2 s) as [[pct| |e] s1] eqn:E1;
    cbn [snd] in Hl1; try now apply (ok_same_layout _ s).
  destruct (getRequestedPercentage_value _ _ _ _ Hs E1) as [Hpct _].
  unfold bind at 1, get. cbv beta iota.
  unfold bind at 1. rewrite clamp_value.
  set (en := if startPercent s1 + pct >? 100 then 100 else startPercent s1 + pct).
  set (s2 := if startPercent s1 + pct >? 100 then add_log _ s1 else s1).
  assert (Hl2 : layout s2 = layout s) by (unfold s2; now rewrite layout_if_log).
  unfold layout in Hl1, Hl2. injection Hl1 as _ Hsp _ _ _ _.
  injection Hl2 as Hc Hsp2 Hes2 Hee2 Hsys2 Hd2.
  apply tail_layout with (sp' := en) (es' := extensionStart s) (ee' := extensionEnd s).
  - unfold sizes_ok. now rewrite Hsys2, Hd2.
  - rewrite Hc, Hsp.
    apply good_primary; [exact Hi|].
    destruct Hi as (Hb & _). unfold en. rewrite Hsp.
    destruct (startPercent s + pct >? 100) eqn:Eg; [lia|].
    rewrite Z.gtb_ltb in Eg. apply Z.ltb_ge in Eg. lia.
  - intros s3 [= _ Hes3 Hee3]. unfold layout. cbn. congruence.
Qed.

Lemma extended_layout dev n part s :
  sizes_ok s -> Inv s -> extensionStart s = -1 ->
  effect (_createExtendedPartition tool pol dev n part) s.
Proof.
  intros Hs Hi Hnone. unfold effect, _createExtendedPartition.
  unfold bind at 1, item.
  destruct (nth_error part 2) as [p2|]; [|now apply (ok_same_layout _ s)].
  unfold ret at 1. cbv beta iota. unfold bind at 1.
  pose proof (layout_getRequestedPercentage p2 s) as Hl1.
  destruct (_getRequestedPercentage p2 s) as [[pct| |e] s1] eqn:E1;
    cbn [snd] in Hl1; try now apply (ok_same_layout _ s).
  destruct (getRequestedPercentage_value _ _ _ _ Hs E1) as [Hpct _].
  unfold bind at 1, get. cbv beta iota.
  unfold bind at 1. rewrite clamp_value.
  set (en := if startPercent s1 + pct >? 100 then 100 else startPercent s1 + pct).
  set (s2 := if startPercent s1 + pct >? 100 then add_log _ s1 else s1).
  assert (Hl2 : layout s2 = layout s) by (unfold s2; now rewrite layout_if_log).
  unfold layout in Hl1, Hl2. injection Hl1 as _ Hsp _ _ _ _.
  injection Hl2 as Hc Hsp2 Hes2 Hee2 Hsys2 Hd2.
  apply tail_layout with (sp' := startPercent s) (es' := startPercent s) (ee' := en).
  - unfold sizes_ok. now rewrite Hsys2, Hd2.
  - rewrite Hc, Hsp.
    unfold Inv in Hi. rewrite Hnone in Hi.
    apply (good_extended _ _ (extensionEnd s)); [exact Hi|].
    destruct Hi as (Hb & _). unfold en. rewrite Hsp.
    destruct (startPercent s + pct >? 100) eqn:Eg; [lia|].
    rewrite Z.gtb_ltb in Eg. apply Z.ltb_ge in Eg. lia.
  - intros s3 [= Hsp3 _ _]. unfold layout. cbn. congruence.
Qed.

Lemma logical_layout dev n part s :
  sizes_ok s -> Inv s ->
  effect (_createLogicalPartition tool pol dev n part) s.
Proof.
  intros Hs Hi. unfold effect, _createLogicalPartition.
  unfold bind at 1, get. cbv beta iota.
  destruct (extensionStart s =? -1) eqn:Ees; [now apply (ok_same_layout _ s)|].
  apply Z.eqb_neq in Ees.
  unfold bind at 1, item.
  destruct (nth_error part 2) as [p2|]; [|now apply (ok_same_layout _ s)].
  unfold ret at 1. cbv beta iota. unfold bind at 1.
  pose proof (layout_getRequestedPercentage p2 s) as Hl1.
  destruct (_getRequestedPercentage p2 s) as [[pct| |e] s1] eqn:E1;
    cbn [snd] in Hl1; try now apply (ok_same_layout _ s).
  destruct (getRequestedPercentage_value _ _ _ _ Hs E1) as [Hpct _].
  unfold bind at 1, get. cbv beta iota.
  unfold bind at 1. rewrite clamp_value.
  set (en := if extensionStart s1 + pct >? extensionEnd s1
             then extensionEnd s1 else extensionStart s1 + pct).
  set (s2 := if extensionStart s1 + pct >? extensionEnd s1
             then add_log _ s1 else s1).
  assert (Hl2 : layout s2 = layout s) by (unfold s2; now rewrite layout_if_log).
  unfold layout in Hl1, Hl2. injection Hl1 as _ Hsp Hes Hee _ _.
  injection Hl2 as Hc Hsp2 Hes2 Hee2 Hsys2 Hd2.
  apply tail_layout with (sp' := startPercent s) (es' := en) (ee' := extensionEnd s).
  - unfold sizes_ok. now rewrite Hsys2, Hd2.
  - rewrite Hc, Hes.
    apply good_logical; [exact Hi|exact Ees|].
    destruct Hi as (_ & _ & _ & _ & _ & Hext).
    destruct (Hext Ees) as (Hb & _). unfold en. rewrite Hes, Hee.
    destruct (extensionStart s + pct >? extensionEnd s) eqn:Eg; [lia|].
    rewrite Z.gtb_ltb in Eg. apply Z.ltb_ge in Eg. lia.
  - intros s3 [= Hsp3 _ _]. unfold layout. cbn. congruence.
Qed.

Lemma ok_catch_part {A} (m : M A) s :
  ok_result (m s) -> ok_result (catch_part m s).
Proof.
  unfold catch_part. destruct (m s) as [[a| |[]] s1]; auto;
    intros (H1 & H2 & _); (split; [exact H1|split; [exact H2|discriminate]]).
Qed.

Lemma layout_createPartitionEntry part n dev fid pf :
  keeps layout (_createPartitionEntry part n dev fid pf).
Proof. unfold _createPartitionEntry. keeps_auto. Qed.

Lemma ok_create_entry (create : M unit) part n dev fid (c : Z * Z) s :
  effect create s ->
  ok_result ((create ;;; _createPartitionEntry part n dev fid None ;;; ret c) s).
Proof.
  unfold effect. intros (H1 & H2 & H3). unfold bind at 1.
  destruct (create s) as [[[]| |e] s1]; cbn [fst snd] in *.
  - specialize (H3 tt eq_refl).
    apply (ok_same_layout _ s1); auto.
    apply (keeps_bind layout
             (_createPartitionEntry part n dev fid None) (fun _ => ret c)
             (layout_createPartitionEntry _ _ _ _ _)
             (fun _ => keeps_ret layout c) s1).
  - split; [exact H1|]. split; [exact H2|]. discriminate.
  - split; [exact H1|]. split; [exact H2|]. discriminate.
Qed.

Lemma effect_ret s : sizes_ok s -> Inv s -> effect (ret tt) s.
Proof. intros Hs Hi. now apply (ok_same_layout _ s). Qed.

Lemma step_layout disk c part s :
  sizes_ok s -> Inv s ->
  ok_result (catch_part (process_part tool pol true disk c part) s).
Proof.
  intros Hs Hi. apply ok_catch_part. destruct c as [p l].
  unfold process_part. unfold bind at 1, item.
  destruct (nth_error part 1) as [token|]; [|now apply (ok_same_layout _ s)].
  unfold ret at 1. cbv beta iota.
  destruct (ascii_is (last_char token) "L").
  { destruct (negb (PART_LOGICAL_EXTENDED_ALLOWED pol));
      [now apply (ok_same_layout _ s)|].
    destruct (_ || _ || _); [now apply (ok_same_layout _ s)|].
    apply ok_create_entry. now apply logical_layout. }
  destruct (ascii_is (last_char token) "E").
  { destruct (negb (PART_LOGICAL_EXTENDED_ALLOWED pol));
      [now apply (ok_same_layout _ s)|].
    destruct (p >? PART_PRIMARY_PARTITIONS pol); [now apply (ok_same_layout _ s)|].
    destruct (bool_decide _); [now apply (ok_same_layout _ s)|].
    unfold bind at 1, get. cbv beta iota.
    destruct (extensionStart s =? -1) eqn:Ees; cbn [negb];
      [|now apply (ok_same_layout _ s)].
    apply Z.eqb_eq in Ees.
    apply ok_create_entry. now apply extended_layout. }
  destruct (last_char token); [|now apply (ok_same_layout _ s)].
  destruct (p >? PART_PRIMARY_PARTITIONS pol); [now apply (ok_same_layout _ s)|].
  apply ok_create_entry. now apply primary_layout.
Qed.

Lemma loop_layout disk parts : forall c s,
  sizes_ok s -> Inv s ->
  ok_result (partition_loop tool pol true disk parts c s).
Proof.
  induction parts as [|part parts IH]; intros c s Hs Hi.
  - now apply (ok_same_layout _ s).
  - cbn [partition_loop]. unfold bind at 1.
    pose proof (step_layout disk c part s Hs Hi) as (H1 & H2 & H3).
    destruct (catch_part _ s) as [[c1| |e] s1]; cbn [fst snd] in *.
    + apply IH; [exact H2|]. now apply (H3 c1).
    + split; [exact H1|]. split; [exact H2|]. discriminate.
    + split; [exact H1|]. split; [exact H2|]. discriminate.
Qed.

Lemma calls_swap_step build sw : keeps calls (swap_step tool build sw).
Proof.
  intros s. destruct sw as [[dev n] part]. unfold swap_step.
  lazymatch goal with
  | |- calls (snd (match ?body s with _ => _ end)) = _ =>
      assert (Hk : keeps calls body) by keeps_auto;
      specialize (Hk s); destruct (body s) as [[[]| |e] s1]; exact Hk
  end.
Qed.

Lemma calls_finish_partitioning build disk :
  keeps calls (finish_partitioning tool build disk).
Proof.
  unfold finish_partitioning.
  apply keeps_bind; [apply keeps_call; reflexivity|intros r1].
  apply keeps_bind; [destruct (r1 =? 0); [apply keeps_ret|apply keeps_log_warning; reflexivity]|intros _].
  apply keeps_bind; [apply keeps_call; reflexivity|intros r2].
  apply keeps_bind; [destruct (r2 =? 0); [apply keeps_ret|apply keeps_log_warning; reflexivity]|intros _].
  apply keeps_bind; [apply keeps_get|intros st].
  apply keeps_bind; [apply keeps_for_each; intros sw; apply calls_swap_step|intros _].
  apply keeps_bind; [apply keeps_modify; reflexivity|intros _].
  apply keeps_bind; [apply keeps_get|intros st'].
  apply keeps_ret.
Qed.

(** X1.  The part of C1 that every build-mode run satisfies, for sizes that
    are not negative on a disk of positive size: each extent lies on
    the disk, the primary partitions follow each other without
    overlap, so do the logical partitions, every logical partition
    lies inside the extended one, and at most one extended partition
    is created.  Nothing is said of a primary partition against the
    extended one. *)
Theorem extents_laid_out env options s disk parts s1 :
  prologue tool pol env options true s = (Val (disk, parts), s1) ->
  calls s = [] -> sizes_ok s1 ->
  StronglySorted laid_out
    (calls (snd (_doPartitioning tool pol env options true s)))
  /\ Forall on_disk (calls (snd (_doPartitioning tool pol env options true s))).
Proof.
  intros Hpro Hcalls Hs.
  destruct (prologue_state _ _ _ _ _ _ _ _ _ Hpro)
    as (_ & _ & _ & Hsp & Hes & Hc & _).
  assert (Hi : Inv s1).
  { unfold Inv, good. rewrite Hc, Hcalls, Hsp, Hes.
    split; [lia|]. repeat split; try constructor; congruence. }
  pose proof (loop_layout disk parts (1, 5) s1 Hs Hi) as (Hfinal & _).
  assert (Hsame : calls (snd (_doPartitioning tool pol env options true s))
                  = calls (snd (partition_loop tool pol true disk parts (1, 5) s1))).
  { unfold _doPartitioning, bind at 1. rewrite Hpro. unfold bind at 1.
    destruct (partition_loop tool pol true disk parts (1, 5) s1) as [[c| |e] s2];
      try reflexivity.
    apply (calls_finish_partitioning true disk s2). }
  rewrite Hsame. exact Hfinal.
Qed.

End Extents.

(** ** More on the partition modules *)

Lemma keeps_partition_loop {X} (f : State -> X) tool pol build disk :
  (forall e s, f (add_log e s) = f s) ->
  (forall c part, keeps f (process_part tool pol build disk c part)) ->
  forall parts c, keeps f (partition_loop tool pol build disk parts c).
Proof.
  intros Hlog Hstep. induction parts as [|part parts IH]; intros c.
  - apply keeps_ret.
  - cbn [partition_loop]. apply keeps_bind; [|intros c'; apply IH].
    now apply keeps_catch_part.
Qed.

(** Frame proofs through the functions that create partitions. *)
Ltac keeps_creation :=
  unfold process_part, _createPrimaryPartition, _createExtendedPartition,
    _createLogicalPartition, _createNextPartition, set_flags,
    _editPartitionWithSfdisk, _createPartitionEntry;
  cbv zeta;
  repeat first
    [ apply keeps_getRequestedPercentage; reflexivity
    | keeps_step ].

Section MoreFrames.
Variable tool : list Cmd -> Cmd -> Z.
Variable pol : Policy.

Lemma disk_swaps_process_part build disk c part :
  keeps disk_swaps (process_part tool pol build disk c part).
Proof. destruct c as [p l], build; keeps_creation. Qed.

Lemma trace_process_part_reuse disk c part :
  keeps trace (process_part tool pol false disk c part).
Proof. destruct c as [p l]. keeps_creation. Qed.

Lemma swaps_process_part_reuse disk c part :
  keeps swaps (process_part tool pol false disk c part).
Proof. destruct c as [p l]. keeps_creation. Qed.

End MoreFrames.

Section MoreRuns.
Variable tool : list Cmd -> Cmd -> Z.
Variable pol : Policy.

(** The prologue of the reuse mode issues no command and leaves the
    swap work list empty. *)
Lemma prologue_reuse_trace env options s r s1 :
  prologue tool pol env options false s = (r, s1) ->
  trace s1 = trace s /\ (forall x, r = Val x -> swaps s1 = []).
Proof.
  unfold prologue, check_call, call, log_error, log_failed, log_devdebug.
  unfold bind, lift, modify, ret, raise, return_None.
  destruct (option_value options "system") as [e|system];
    [intros [= <- <-]; split; [reflexivity|discriminate]|].
  destruct (option_value options "disk-name") as [e|diskname];
    [intros [= <- <-]; split; [reflexivity|discriminate]|].
  destruct (env !! _getEnvKey system) as [sys|];
    [|intros [= <- <-]; split; [reflexivity|discriminate]].
  destruct (sys_disks sys ≫= _) as [d|];
    [|intros [= <- <-]; split; [reflexivity|discriminate]].
  destruct (d_partitions d);
    [intros [= <- <-]; split; [reflexivity|discriminate]|].
  destruct (sort_partitions _) as [e|ps]; intros [= <- <-];
    (split; [reflexivity|]); [discriminate|reflexivity].
Qed.

Lemma finish_without_swaps build disk s :
  swaps s = [] ->
  trace (snd (finish_partitioning tool build disk s))
  = trace s ++ [["sudo"; "partprobe"; d_device disk];
                ["sudo"; "udevadm"; "settle"]].
Proof.
  intros Hsw.
  unfold finish_partitioning, call, log_warning, log_passed.
  unfold bind, get, modify, ret. cbv beta iota.
  destruct (tool (trace s) ["sudo"; "partprobe"; d_device disk] =? 0);
    cbv beta iota;
    match goal with
    | |- context [tool ?h ["sudo"; "udevadm"; "settle"] =? 0] =>
        destruct (tool h ["sudo"; "udevadm"; "settle"] =? 0)
    end;
    cbn; rewrite Hsw; cbn; now rewrite <- app_assoc.
Qed.

(** X3.  The reuse mode never runs a partitioning tool: the only commands
    of [use_system_build] are the probe and the settle that follow a
    completed loop. *)
Theorem reuse_mode_commands env options s :
  let run := use_system_build tool pol env options s in
  trace (snd run) = trace s
  \/ exists disk,
       trace (snd run)
       = trace s ++ [["sudo"; "partprobe"; d_device disk];
                     ["sudo"; "udevadm"; "settle"]].
Proof.
  cbv zeta. unfold use_system_build.
  destruct (prologue tool pol env options false s) as [r s1] eqn:Hpro.
  destruct (prologue_reuse_trace _ _ _ _ _ Hpro) as [Ht1 Hsw1].
  destruct r as [[disk parts]| |e].
  - specialize (Hsw1 _ eq_refl).
    pose proof (keeps_partition_loop trace tool pol false disk
                  ltac:(reflexivity) (trace_process_part_reuse tool pol disk)
                  parts (1, 5) s1) as Ht2.
    pose proof (keeps_partition_loop swaps tool pol false disk
                  ltac:(reflexivity) (swaps_process_part_reuse tool pol disk)
                  parts (1, 5) s1) as Hsw2.
    destruct (partition_loop tool pol false disk parts (1, 5) s1)
      as [[c| |e] s2] eqn:Hloop; cbn [snd] in Ht2, Hsw2.
    + right. exists disk.
      assert (Hrun : _doPartitioning tool pol env options false s
                     = finish_partitioning tool false disk s2).
      { unfold _doPartitioning, bind at 1. rewrite Hpro.
        unfold bind at 1. now rewrite Hloop. }
      rewrite Hrun, finish_without_swaps by congruence.
      now rewrite Ht2, Ht1.
    + left.
      destruct (doPartitioning_loop_stops _ _ _ _ _ _ _ _ _ _ _ Hpro Hloop)
        as [-> _]; [discriminate|congruence].
    + left.
      destruct (doPartitioning_loop_stops _ _ _ _ _ _ _ _ _ _ _ Hpro Hloop)
        as [-> _]; [discriminate|congruence].
  - left. unfold _doPartitioning, bind at 1. now rewrite Hpro.
  - left. unfold _doPartitioning, bind at 1. now rewrite Hpro.
Qed.

(** X4.  The three refusals of lines 252-265: a run on a system that is
    not defined, on a disk that is not defined or on a disk that has
    partitions already logs one error, marks the step failed and
    returns [None]; it issues no command and writes no dictionary. *)
Theorem doPartitioning_refused env options build s system diskname :
  option_value options "system" = inr system ->
  option_value options "disk-name" = inr diskname ->
  match env !! _getEnvKey system with
  | None => True
  | Some sys =>
      match sys_disks sys ≫= (fun disks => disks !! diskname) with
      | None => True
      | Some disk => d_partitions disk <> None
      end
  end ->
  exists msg,
    _doPartitioning tool pol env options build s
    = (Ret_None,
       add_log Lfailed (add_log (Lerror msg) (set_swaps (fun _ => []) s))).
Proof.
  intros Hsys Hdisk Hbad.
  unfold _doPartitioning, prologue, log_error, log_failed.
  unfold bind, lift, modify, ret, raise, return_None.
  rewrite Hsys, Hdisk.
  destruct (env !! _getEnvKey system) as [sys|]; [|eexists; reflexivity].
  destruct (sys_disks sys ≫= _) as [d|]; [|eexists; reflexivity].
  destruct (d_partitions d); [eexists; reflexivity|congruence].
Qed.

Lemma finish_partitioning_passed build disk s :
  exists s5,
    finish_partitioning tool build disk s
    = (Val (partEntry s5), add_log Lpassed s5).
Proof.
  assert (Hw : forall (r : Z) fmt s0, exists s0',
             (if r =? 0 then ret tt else log_warning fmt) s0 = (Val tt, s0')).
  { intros r fmt s0. destruct (r =? 0); eexists; reflexivity. }
  unfold finish_partitioning.
  unfold bind at 1, call. cbv beta iota.
  unfold bind at 1.
  destruct (Hw (tool (trace s) ["sudo"; "partprobe"; d_device disk])
              "Part probe failed"
              (add_trace ["sudo"; "partprobe"; d_device disk] s)) as [s2 ->].
  unfold bind at 1, call. cbv beta iota.
  unfold bind at 1.
  destruct (Hw (tool (trace s2) ["sudo"; "udevadm"; "settle"])
              "settle failed"
              (add_trace ["sudo"; "udevadm"; "settle"] s2)) as [s4 ->].
  unfold bind at 1, get. cbv beta iota.
  unfold bind at 1.
  pose proof (swap_pass_value tool build (swaps s4) s4) as Hs.
  destruct (for_each (swaps s4) (swap_step tool build) s4) as [[[]| |e] s5];
    try discriminate.
  exists s5. reflexivity.
Qed.

(** X5.  Once the loop is through, nothing is fatal any more: whatever the
    probe, the settle and the swap tool answer, [_doPartitioning]
    marks the step passed and returns the partition dictionary, whose
    records are those of the loop up to the fstab-id. *)
Theorem doPartitioning_completes env options build s disk parts s1 c s2 :
  prologue tool pol env options build s = (Val (disk, parts), s1) ->
  partition_loop tool pol build disk parts (1, 5) s1 = (Val c, s2) ->
  exists s3,
    _doPartitioning tool pol env options build s = (Val (partEntry s3), s3)
    /\ last (log s3) = Some Lpassed
    /\ without_fstab_id <$> partEntry s3 = without_fstab_id <$> partEntry s2.
Proof.
  intros Hpro Hloop.
  assert (Hrun : _doPartitioning tool pol env options build s
                 = finish_partitioning tool build disk s2).
  { unfold _doPartitioning, bind at 1. rewrite Hpro.
    unfold bind at 1. now rewrite Hloop. }
  pose proof (finish_partitioning_records tool build disk s2) as Hrec.
  destruct (finish_partitioning_passed build disk s2) as [s5 Hfin].
  rewrite Hfin in Hrec. cbn [snd] in Hrec.
  exists (add_log Lpassed s5). rewrite Hrun, Hfin.
  split; [reflexivity|]. split; [|exact Hrec].
  cbn. apply last_snoc.
Qed.

End MoreRuns.

Section MoreRecords.
Variable tool : list Cmd -> Cmd -> Z.

(** Where a record of the final dictionary comes from. *)
Lemma final_record_origin pol env options build s disk parts s1 name rec :
  prologue tool pol env options build s = (Val (disk, parts), s1) ->
  partEntry (snd (_doPartitioning tool pol env options build s)) !! name
    = Some rec ->
  exists i part,
    parts !! i = Some part /\ nth_error part 0 = Some name
    /\ number rec = class_number parts i part
    /\ (is_logical part = false -> number rec <= PART_PRIMARY_PARTITIONS pol).
Proof.
  intros Hpro Hrec.
  destruct (prologue_state _ _ _ _ _ _ _ _ _ Hpro) as (Hempty & _).
  assert (Hrec' : (without_fstab_id <$>
            partEntry (snd (_doPartitioning tool pol env options build s))) !! name
          = Some (without_fstab_id rec)) by now rewrite lookup_fmap, Hrec.
  rewrite (doPartitioning_records _ _ _ _ _ _ _ _ _ Hpro), lookup_fmap in Hrec'.
  destruct (partEntry (snd (partition_loop tool pol build disk parts (1, 5) s1)) !! name)
    as [rec0|] eqn:E0; [|discriminate].
  simpl in Hrec'. injection Hrec' as Hnum _ _.
  apply loop_entries in E0 as [Hold|(i & part & sz & Hi & Hn & _ & -> & Hmax)].
  { rewrite Hempty, lookup_empty in Hold. discriminate. }
  exists i, part. rewrite <- Hnum.
  pose proof (numbered_from_positive 1 5 parts i part ltac:(lia) ltac:(lia)) as Hpos.
  rewrite partition_entry_positive in * by exact Hpos. cbn.
  repeat split; auto.
Qed.

(** X6.  On an MSDOS disk no two names of the partition dictionary carry
    the same number, whatever their classes: the primary and extended
    partitions are numbered up to 4 and the logical ones from 5. *)
Theorem msdos_numbers_distinct env options build s disk parts s1 :
  prologue tool Msdos env options build s = (Val (disk, parts), s1) ->
  forall name1 name2 rec1 rec2,
    name1 <> name2 ->
    partEntry (snd (_doPartitioning tool Msdos env options build s)) !! name1
      = Some rec1 ->
    partEntry (snd (_doPartitioning tool Msdos env options build s)) !! name2
      = Some rec2 ->
    1 <= number rec1 /\ 1 <= number rec2 /\ number rec1 <> number rec2.
Proof.
  intros Hpro name1 name2 rec1 rec2 Hne H1 H2.
  destruct (final_record_origin _ _ _ _ _ _ _ _ _ _ Hpro H1)
    as (i & pi & Hi & Hni & Hnum1 & Hmax1).
  destruct (final_record_origin _ _ _ _ _ _ _ _ _ _ Hpro H2)
    as (j & pj & Hj & Hnj & Hnum2 & Hmax2).
  assert (Hij : i <> j) by (intros ->; congruence).
  rewrite Hnum1, Hnum2 in *. unfold class_number in *. cbn in Hmax1, Hmax2.
  pose proof (count_class_nonneg (is_logical pi) (take i parts)) as Hci.
  pose proof (count_class_nonneg (is_logical pj) (take j parts)) as Hcj.
  destruct (is_logical pi) eqn:Eli, (is_logical pj) eqn:Elj;
    try specialize (Hmax1 eq_refl); try specialize (Hmax2 eq_refl);
    (split; [lia|split; [lia|]]); try lia.
  - destruct (Nat.lt_trichotomy i j) as [Hlt|[->|Hlt]]; [|congruence|].
    + pose proof (count_class_take_lt true parts i j pi Hi Eli Hlt). lia.
    + pose proof (count_class_take_lt true parts j i pj Hj Elj Hlt). lia.
  - destruct (Nat.lt_trichotomy i j) as [Hlt|[->|Hlt]]; [|congruence|].
    + pose proof (count_class_take_lt false parts i j pi Hi Eli Hlt). lia.
    + pose proof (count_class_take_lt false parts j i pj Hj Elj Hlt). lia.
Qed.

(** A GPT table takes neither logical nor extended declarations. *)
Lemma gpt_step build disk c part s c' s' :
  catch_part (process_part tool Gpt build disk c part) s = (Val c', s') ->
  is_logical part = false /\ is_extended part = false.
Proof.
  destruct c as [p l]. unfold is_logical, is_extended.
  unfold catch_part, process_part, bind at 1, item.
  destruct (nth_error part 1) as [token|] eqn:Htok; [|discriminate].
  rewrite (order_token_item _ _ Htok).
  cbv beta iota. unfold ret at 1. cbv beta iota.
  destruct (ascii_is (last_char token) "L"); [discriminate|].
  destruct (ascii_is (last_char token) "E"); [discriminate|].
  auto.
Qed.

Lemma gpt_loop build disk parts : forall c s c' s',
  partition_loop tool Gpt build disk parts c s = (Val c', s') ->
  Forall (fun part => is_logical part = false /\ is_extended part = false) parts.
Proof.
  induction parts as [|part parts IH]; intros c s c' s' Hrun; [constructor|].
  cbn [partition_loop] in Hrun. unfold bind at 1 in Hrun.
  destruct (catch_part _ s) as [[c1| |e] s1] eqn:E1; try discriminate.
  constructor; [eapply gpt_step; eauto|eapply IH; eauto].
Qed.

Lemma count_class_all lg parts :
  Forall (fun part => is_logical part = lg) parts ->
  count_class lg parts = Z.of_nat (length parts).
Proof.
  induction 1 as [|part parts Hp _ IH]; [reflexivity|].
  cbn [count_class length]. rewrite Hp, Bool.eqb_reflx, IH. lia.
Qed.

(** X7.  A run on a GPT table that returns a dictionary had primary
    declarations only, and numbered each record with the position of
    its declaration in processing order, counted from 1 and at most
    128.  So a declaration set with a logical or an extended
    declaration never completes on GPT. *)
Theorem gpt_only_primary env options build s disk parts s1 pe s2 :
  prologue tool Gpt env options build s = (Val (disk, parts), s1) ->
  _doPartitioning tool Gpt env options build s = (Val pe, s2) ->
  Forall (fun part => is_logical part = false /\ is_extended part = false) parts
  /\ forall name rec,
       pe !! name = Some rec ->
       exists i part,
         parts !! i = Some part /\ nth_error part 0 = Some name
         /\ number rec = Z.of_nat i + 1 /\ number rec <= 128.
Proof.
  intros Hpro Hrun.
  destruct (partition_loop tool Gpt build disk parts (1, 5) s1)
    as [[c| |e] s3] eqn:Hloop.
  2,3: destruct (doPartitioning_loop_stops _ _ _ _ _ _ _ _ _ _ _ Hpro Hloop)
         as (_ & Hn & He); [discriminate|];
       rewrite Hrun in Hn, He; cbn in Hn, He;
       first [specialize (Hn eq_refl)|specialize (He _ eq_refl)]; discriminate.
  pose proof (gpt_loop _ _ _ _ _ _ _ Hloop) as Hall.
  split; [exact Hall|].
  intros name rec Hrec.
  assert (Hval : exists s3',
            _doPartitioning tool Gpt env options build s = (Val (partEntry s3'), s3')).
  { destruct (finish_partitioning_passed tool build disk s3) as [s5 Hfin].
    exists (add_log Lpassed s5).
    unfold _doPartitioning, bind at 1. rewrite Hpro.
    unfold bind at 1. rewrite Hloop. exact Hfin. }
  destruct Hval as (s3' & Hrun').
  rewrite Hrun in Hrun'. injection Hrun' as -> ->.
  assert (Hfin : partEntry (snd (_doPartitioning tool Gpt env options build s)) !! name
                 = Some rec) by now rewrite Hrun.
  destruct (final_record_origin _ _ _ _ _ _ _ _ _ _ Hpro Hfin)
    as (i & part & Hi & Hn & Hnum & Hmax).
  exists i, part.
  assert (Hcls : is_logical part = false).
  { rewrite Forall_forall in Hall.
    apply (Hall part). apply list_elem_of_lookup. eauto. }
  specialize (Hmax Hcls). cbn in Hmax.
  unfold class_number in Hnum. rewrite Hcls in Hnum.
  rewrite count_class_all in Hnum.
  2:{ apply Forall_take. eapply Forall_impl; [exact Hall|]. now intros x [Hx _]. }
  rewrite length_take in Hnum.
  pose proof (lookup_lt_Some _ _ _ Hi) as Hlt.
  split; [exact Hi|]. split; [exact Hn|]. split; lia.
Qed.

End MoreRecords.

Section SwapList.
Variable tool : list Cmd -> Cmd -> Z.
Variable pol : Policy.

Lemma swap_step_labelled build sw s :
  swaps_labelled s -> swaps_labelled (snd (swap_step tool build sw s)).
Proof.
  intros Hinv. destruct sw as [[dev n] part]. unfold swap_step.
  set (name := hd EmptyString part).
  unfold bind at 1.
  assert (Hfirst : forall r1 s1,
    (if build then
       st <- get ;;
       match partEntry st !! name with
       | Some r => check_call tool ["sudo"; "mkswap"; "-L"; name; device r]
       | None => raise KeyError
       end
     else ret tt) s = (r1, s1) ->
    partEntry s1 = partEntry s /\ disk_swaps s1 = disk_swaps s).
  { intros r1 s1 H. destruct build; [|now inversion H].
    unfold bind, get in H. destruct (partEntry s !! name).
    - unfold check_call, bind, call in H.
      destruct (_ =? 0); inversion H; split; reflexivity.
    - inversion H; split; reflexivity. }
  destruct (_ s) as [r1 s1] eqn:E1.
  destruct (Hfirst _ _ eq_refl) as [Hpe Hds].
  assert (Hinv1 : forall s', partEntry s' = partEntry s1 ->
                    disk_swaps s' = disk_swaps s1 -> swaps_labelled s').
  { intros s' H1 H2 label rec. rewrite H1, H2, Hpe, Hds. apply Hinv. }
  destruct r1 as [[]| |e]; cbn [snd]; try (apply Hinv1; reflexivity).
  unfold bind, get. destruct (partEntry s1 !! name) as [r|] eqn:Er; cbn;
    [|apply Hinv1; reflexivity].
  intros label rec Hin. cbn in Hin.
  apply elem_of_app in Hin as [Hin|Hin].
  - rewrite Hds in Hin. destruct (Hinv _ _ Hin) as [Hl Hf].
    split; [|exact Hf]. cbn.
    destruct (decide (name = label)) as [->|Hne].
    + rewrite lookup_insert_eq. rewrite <- Hpe, Er in Hl.
      injection Hl as ->. destruct rec as [n0 sz0 d0 f0]. cbn in *. now subst.
    + rewrite lookup_insert_ne by exact Hne. now rewrite Hpe.
  - apply list_elem_of_singleton in Hin. injection Hin as -> ->.
    split; [cbn; apply lookup_insert_eq|reflexivity].
Qed.

Lemma swap_pass_labelled build sws : forall s,
  swaps_labelled s -> swaps_labelled (snd (for_each sws (swap_step tool build) s)).
Proof.
  induction sws as [|sw sws IH]; intros s Hinv; [exact Hinv|].
  cbn [for_each]. unfold bind at 1.
  pose proof (swap_step_labelled build sw s Hinv) as H1.
  pose proof (swap_step_value tool build sw s) as Hv.
  destruct (swap_step tool build sw s) as [[[]| |e] s1]; try discriminate.
  now apply IH.
Qed.

Lemma finish_partitioning_labelled build disk s :
  swaps_labelled s ->
  swaps_labelled (snd (finish_partitioning tool build disk s)).
Proof.
  intros Hinv.
  assert (Hw : forall (r : Z) fmt s0, swaps_labelled s0 -> exists s0',
             (if r =? 0 then ret tt else log_warning fmt) s0 = (Val tt, s0')
             /\ swaps_labelled s0').
  { intros r fmt s0 H0. destruct (r =? 0); eexists; (split; [reflexivity|]);
      exact H0. }
  unfold finish_partitioning.
  unfold bind at 1, call. cbv beta iota.
  unfold bind at 1.
  destruct (Hw (tool (trace s) ["sudo"; "partprobe"; d_device disk])
              "Part probe failed"
              (add_trace ["sudo"; "partprobe"; d_device disk] s) Hinv)
    as (s2 & -> & H2).
  unfold bind at 1, call. cbv beta iota.
  unfold bind at 1.
  destruct (Hw (tool (trace s2) ["sudo"; "udevadm"; "settle"])
              "settle failed"
              (add_trace ["sudo"; "udevadm"; "settle"] s2) H2)
    as (s4 & -> & H4).
  unfold bind at 1, get. cbv beta iota.
  unfold bind at 1.
  pose proof (swap_pass_labelled build (swaps s4) s4 H4) as H5.
  pose proof (swap_pass_value tool build (swaps s4) s4) as Hs.
  destruct (for_each (swaps s4) (swap_step tool build) s4) as [[[]| |e] s5];
    try discriminate.
  exact H5.
Qed.

(** X8.  However a run past the prologue ends, every entry [(label, rec)]
    of the swap list of the disk is the record that the partition
    dictionary holds under [label], and its fstab-id is
    [LABEL=<label>]. *)
Theorem swap_list_labelled env options build s disk parts s1 :
  prologue tool pol env options build s = (Val (disk, parts), s1) ->
  swaps_labelled (snd (_doPartitioning tool pol env options build s)).
Proof.
  intros Hpro.
  destruct (prologue_state _ _ _ _ _ _ _ _ _ Hpro) as (_ & _ & Hds & _).
  pose proof (keeps_partition_loop disk_swaps tool pol build disk
                ltac:(reflexivity) (disk_swaps_process_part tool pol build disk)
                parts (1, 5) s1) as Hk.
  destruct (partition_loop tool pol build disk parts (1, 5) s1)
    as [r s2] eqn:Hloop. cbn [snd] in Hk.
  assert (H2 : swaps_labelled s2).
  { intros label rec Hin. rewrite Hk, Hds in Hin. now apply elem_of_nil in Hin. }
  destruct r as [c| |e].
  - assert (Hrun : _doPartitioning tool pol env options build s
                   = finish_partitioning tool build disk s2).
    { unfold _doPartitioning, bind at 1. rewrite Hpro.
      unfold bind at 1. now rewrite Hloop. }
    rewrite Hrun. now apply finish_partitioning_labelled.
  - destruct (doPartitioning_loop_stops _ _ _ _ _ _ _ _ _ _ _ Hpro Hloop)
      as [-> _]; [discriminate|exact H2].
  - destruct (doPartitioning_loop_stops _ _ _ _ _ _ _ _ _ _ _ Hpro Hloop)
      as [-> _]; [discriminate|exact H2].
Qed.

End SwapList.

(** ** Instances on the example disk *)

Lemma parse_digits_nonneg s : forall acc n rest,
  parse_digits s acc = (Some n, rest) ->
  (forall a, acc = Some a -> 0 <= a) -> 0 <= n.
Proof.
  induction s as [|a s IH]; intros acc n rest H Hacc; cbn in H.
  - injection H as -> _. now apply Hacc.
  - destruct (Ascii.is_nat a) as [d|].
    + apply (IH _ _ _ H). intros a0 [= <-].
      destruct acc as [a1|]; cbn; [specialize (Hacc _ eq_refl)|]; lia.
    + injection H as -> _. now apply Hacc.
Qed.

(** The parser of the examples gives no negative size. *)
Lemma size_in_bytes_nonneg size bytes :
  size_in_bytes size = inr bytes -> 0 <= bytes.
Proof.
  unfold size_in_bytes.
  destruct (parse_digits size None) as [[n|] rest] eqn:E; [|discriminate].
  pose proof (parse_digits_nonneg _ _ _ _ E ltac:(discriminate)) as Hn.
  destruct rest as [|a [|b rest]]; try discriminate;
    destruct a as [[] [] [] [] [] [] [] []]; try discriminate;
    intros [= <-]; lia.
Qed.

Lemma extents_laid_out_witness :
  prologue tools_ok Msdos example_env example_options true blank
  = (Val (example_disk, example_parts),
     snd (prologue tools_ok Msdos example_env example_options true blank))
  /\ calls blank = []
  /\ sizes_ok (snd (prologue tools_ok Msdos example_env example_options true blank))
  /\ StronglySorted laid_out
       (calls (snd (_doPartitioning tools_ok Msdos example_env example_options
                      true blank))).
Proof.
  assert (Hs : sizes_ok (snd (prologue tools_ok Msdos example_env example_options
                                true blank))).
  { split; [reflexivity|]. intros size bytes. apply size_in_bytes_nonneg. }
  split; [reflexivity|]. split; [reflexivity|]. split; [exact Hs|].
  exact (proj1 (extents_laid_out tools_ok Msdos example_env example_options blank
                  example_disk example_parts _ eq_refl eq_refl Hs)).
Defined.

Lemma modes_agree_without_fstab_id_witness :
  _doPartitioning tools_ok Msdos example_env documented_options true blank
  = (Val (partEntry (snd (_doPartitioning tools_ok Msdos example_env
                            documented_options true blank))),
     snd (_doPartitioning tools_ok Msdos example_env documented_options true blank))
  /\ exists reused sr,
       _doPartitioning tools_ok Msdos example_env documented_options false blank
       = (Val reused, sr)
       /\ without_fstab_id <$> reused
          = without_fstab_id <$>
              partEntry (snd (_doPartitioning tools_ok Msdos example_env
                                documented_options true blank)).
Proof.
  assert (H : _doPartitioning tools_ok Msdos example_env documented_options true blank
    = (Val (partEntry (snd (_doPartitioning tools_ok Msdos example_env
                              documented_options true blank))),
       snd (_doPartitioning tools_ok Msdos example_env documented_options true blank)))
    by (vm_compute; reflexivity).
  split; [exact H|].
  exact (modes_agree_without_fstab_id tools_ok Msdos example_env documented_options
           blank _ _ H).
Defined.

Lemma doPartitioning_refused_witness :
  option_value documented_options "system" = inr "mysystem"
  /\ option_value documented_options "disk-name" = inr "mydisk"
  /\ exists msg,
       _doPartitioning tools_ok Msdos partitioned_env documented_options true blank
       = (Ret_None,
          add_log Lfailed (add_log (Lerror msg) (set_swaps (fun _ => []) blank))).
Proof.
  split; [reflexivity|]. split; [reflexivity|].
  apply (doPartitioning_refused tools_ok Msdos partitioned_env documented_options
           true blank "mysystem" "mydisk" eq_refl eq_refl).
  vm_compute. discriminate.
Defined.

Lemma doPartitioning_completes_witness :
  prologue refuses_flags Msdos example_env documented_options false blank
  = (Val (example_disk,
          [["root"; "01"; "10G"; "ext4"; "boot"]; ["swap"; "02"; "2G"; "linux-swap"]]),
     snd (prologue refuses_flags Msdos example_env documented_options false blank))
  /\ exists s3,
       _doPartitioning refuses_flags Msdos example_env documented_options false blank
       = (Val (partEntry s3), s3)
       /\ last (log s3) = Some Lpassed.
Proof.
  assert (H1 : prologue refuses_flags Msdos example_env documented_options false blank
    = (Val (example_disk,
          [["root"; "01"; "10G"; "ext4"; "boot"]; ["swap"; "02"; "2G"; "linux-swap"]]),
       snd (prologue refuses_flags Msdos example_env documented_options false blank)))
    by (vm_compute; reflexivity).
  split; [exact H1|].
  destruct (doPartitioning_completes refuses_flags Msdos example_env
              documented_options false blank _ _ _ (3, 5)
              (snd (partition_loop refuses_flags Msdos false example_disk
                      [["root"; "01"; "10G"; "ext4"; "boot"];
                       ["swap"; "02"; "2G"; "linux-swap"]] (1, 5)
                      (snd (prologue refuses_flags Msdos example_env
                              documented_options false blank))))
              H1 ltac:(vm_compute; reflexivity))
    as (s3 & Hrun & Hlast & _).
  exists s3. split; assumption.
Defined.

Lemma msdos_numbers_distinct_witness :
  prologue tools_ok Msdos example_env example_options true blank
  = (Val (example_disk, example_parts),
     snd (prologue tools_ok Msdos example_env example_options true blank))
  /\ forall name1 name2 rec1 rec2,
       name1 <> name2 ->
       partEntry (snd (_doPartitioning tools_ok Msdos example_env example_options
                         true blank)) !! name1 = Some rec1 ->
       partEntry (snd (_doPartitioning tools_ok Msdos example_env example_options
                         true blank)) !! name2 = Some rec2 ->
       1 <= number rec1 /\ 1 <= number rec2 /\ number rec1 <> number rec2.
Proof.
  split; [reflexivity|].
  exact (msdos_numbers_distinct tools_ok example_env example_options true blank
           example_disk example_parts _ eq_refl).
Defined.

Lemma gpt_only_primary_witness :
  prologue tools_ok Gpt example_env documented_options true blank
  = (Val (example_disk,
          [["root"; "01"; "10G"; "ext4"; "boot"]; ["swap"; "02"; "2G"; "linux-swap"]]),
     snd (prologue tools_ok Gpt example_env documented_options true blank))
  /\ _doPartitioning tools_ok Gpt example_env documented_options true blank
     = (Val (partEntry (snd (_doPartitioning tools_ok Gpt example_env
                               documented_options true blank))),
        snd (_doPartitioning tools_ok Gpt example_env documented_options true blank))
  /\ Forall (fun part => is_logical part = false /\ is_extended part = false)
       [["root"; "01"; "10G"; "ext4"; "boot"]; ["swap"; "02"; "2G"; "linux-swap"]].
Proof.
  assert (H1 : prologue tools_ok Gpt example_env documented_options true blank
    = (Val (example_disk,
          [["root"; "01"; "10G"; "ext4"; "boot"]; ["swap"; "02"; "2G"; "linux-swap"]]),
       snd (prologue tools_ok Gpt example_env documented_options true blank)))
    by (vm_compute; reflexivity).
  assert (H2 : _doPartitioning tools_ok Gpt example_env documented_options true blank
     = (Val (partEntry (snd (_doPartitioning tools_ok Gpt example_env
                               documented_options true blank))),
        snd (_doPartitioning tools_ok Gpt example_env documented_options true blank)))
    by (vm_compute; reflexivity).
  split; [exact H1|]. split; [exact H2|].
  exact (proj1 (gpt_only_primary tools_ok example_env documented_options true blank
                  _ _ _ _ _ H1 H2)).
Defined.

Lemma swap_list_labelled_witness :
  prologue tools_ok Msdos example_env example_options true blank
  = (Val (example_disk, example_parts),
     snd (prologue tools_ok Msdos example_env example_options true blank))
  /\ swaps_labelled (snd (_doPartitioning tools_ok Msdos example_env
                            example_options true blank)).
Proof.
  split; [reflexivity|].
  exact (swap_list_labelled tools_ok Msdos example_env example_options true blank
           example_disk example_parts _ eq_refl).
Defined.

(** ** The later build steps *)

Section WKeeps.
Context {E X : Type} (f : World E -> X).

Lemma wkeeps_ret {A} (a : A) : wkeeps f (wret a).
Proof. intros w. reflexivity. Qed.

Lemma wkeeps_raise {A} e : wkeeps f (@wraise E A e).
Proof. intros w. reflexivity. Qed.

Lemma wkeeps_return_None {A} : wkeeps f (@wreturn_None E A).
Proof. intros w. reflexivity. Qed.

Lemma wkeeps_get : wkeeps f wget.
Proof. intros w. reflexivity. Qed.

Lemma wkeeps_lift {A} (r : exn + A) : wkeeps f (wlift r).
Proof. destruct r; intros w; reflexivity. Qed.

Lemma wkeeps_bind {A B} (m : W E A) (k : A -> W E B) :
  wkeeps f m -> (forall a, wkeeps f (k a)) -> wkeeps f (wbind m k).
Proof.
  intros Hm Hk w. unfold wbind. specialize (Hm w).
  destruct (m w) as [[a| |e] w1]; simpl in *; [|assumption..].
  now rewrite Hk.
Qed.

Lemma wkeeps_try {A} (m h : W E A) :
  wkeeps f m -> wkeeps f h -> wkeeps f (try_except m h).
Proof.
  intros Hm Hh w. unfold try_except. specialize (Hm w).
  destruct (m w) as [[a| |e] w1]; simpl in *; try assumption.
  now rewrite Hh.
Qed.

Lemma wkeeps_for_each {A} (l : list A) body :
  (forall x, wkeeps f (body x)) -> wkeeps f (wfor_each l body).
Proof.
  intros Hb. induction l as [|x l IH]; simpl.
  - apply wkeeps_ret.
  - apply wkeeps_bind; auto.
Qed.

Lemma wkeeps_modify g : (forall w, f (set_obj g w) = f w) -> wkeeps f (wmodify g).
Proof. intros H w. apply H. Qed.

Lemma wkeeps_log e : (forall w, f (add_w_log e w) = f w) -> wkeeps f (wlog e).
Proof. intros H w. apply H. Qed.

End WKeeps.

Ltac wkeeps_step :=
  lazymatch goal with
  | |- wkeeps _ (wbind _ _) => apply wkeeps_bind; [|intros ?]
  | |- wkeeps _ (wret _) => apply wkeeps_ret
  | |- wkeeps _ (wraise _) => apply wkeeps_raise
  | |- wkeeps _ wreturn_None => apply wkeeps_return_None
  | |- wkeeps _ wget => apply wkeeps_get
  | |- wkeeps _ (wlift _) => apply wkeeps_lift
  | |- wkeeps _ (wlog _) => apply wkeeps_log; reflexivity
  | |- wkeeps _ (wmodify _) => apply wkeeps_modify; reflexivity
  | |- wkeeps _ (try_except _ _) => apply wkeeps_try
  | |- wkeeps _ (wfor_each _ _) => apply wkeeps_for_each; intros ?
  | |- wkeeps _ (if ?b then _ else _) => destruct b
  | |- wkeeps _ (match ?x with _ => _ end) => destruct x
  end.

Lemma option_value_raises options k e :
  option_value options k = inl e -> e = KeyError.
Proof.
  induction options as [|[k' v] rest IH]; cbn; [now intros [= <-]|].
  destruct (String.eqb k' k); [discriminate|exact IH].
Qed.

Section FileSystemFacts.
Variable tool : list Cmd -> Cmd -> Z.

(** A labeler that is not asked to build runs nothing. *)
Lemma labeler_reuse_trace fstype method fslabel device :
  labeler tool fstype = Some method ->
  wkeeps (E := FsObjects) w_trace (method fslabel device false).
Proof.
  unfold labeler. intros H.
  repeat match type of H with
         | (if ?b then _ else _) = _ => destruct b
         end;
    try discriminate; injection H as <-;
    unfold _labelFileSystem_ext2, _labelFileSystem_ext3, _labelFileSystem_ext4,
      _labelFileSystem_ext, _labelFileSystem_btrfs, _labelFileSystem_fat,
      _labelFileSystem_vfat, _labelFileSystem_NTFS, _labelFileSystem_jfs,
      _labelFileSystem_xfs, label_with; cbv zeta; repeat wkeeps_step.
Qed.

Lemma make_filesystem_reuse_trace mountpt fstype fsoptions fslabel device target current :
  wkeeps w_trace
    (make_filesystem tool false mountpt fstype fsoptions fslabel device target current).
Proof.
  unfold make_filesystem, label_target.
  apply wkeeps_bind; [apply wkeeps_ret|intros _].
  apply wkeeps_bind; [|intros ?; wkeeps_step].
  destruct current as [id|]; [|wkeeps_step].
  destruct (negb (chr_in "=" id)); [|wkeeps_step].
  destruct (labeler tool fstype) as [method|] eqn:El; [|wkeeps_step].
  apply wkeeps_try; [|repeat wkeeps_step].
  apply wkeeps_bind; [now apply (labeler_reuse_trace fstype)|intros ?].
  repeat wkeeps_step.
Qed.

Lemma record_mount_reuse_trace options mountpt :
  wkeeps w_trace (record_mount tool options false mountpt).
Proof.
  unfold record_mount.
  apply wkeeps_bind; [apply wkeeps_lift|intros value].
  destruct (mount_spec value) as [[[cd ty] fo]|]; [|repeat wkeeps_step].
  cbv zeta. destruct (device_names (strip cd)) as [d p].
  apply wkeeps_bind; [apply wkeeps_get|intros o].
  apply wkeeps_bind; [apply wkeeps_lift|intros ds].
  destruct (ds !! d) as [de|]; [|repeat wkeeps_step].
  apply wkeeps_bind; [wkeeps_step|intros _].
  destruct p as [p|]; [|apply make_filesystem_reuse_trace].
  apply wkeeps_bind; [apply wkeeps_lift|intros ps].
  destruct (ps !! p) as [rec|]; [|repeat wkeeps_step].
  apply wkeeps_bind; [wkeeps_step|intros _].
  apply make_filesystem_reuse_trace.
Qed.

(** [record_all] in terms of its loop. *)
Lemma record_all_eq options build w :
  record_all tool options build w
  = match FileSystem.mountpts options with
    | inl e => (Throw (Builtin e), w)
    | inr ms =>
        match wfor_each ms (record_mount tool options build) w with
        | (Done _, w1) =>
            (Done (fsEntry (w_obj w1)),
             add_w_log Lpassed (add_w_trace ["sync"] w1))
        | (Return_None, w1) => (Return_None, w1)
        | (Throw e, w1) => (Throw e, w1)
        end
    end.
Proof.
  unfold record_all. unfold wbind at 1.
  destruct (FileSystem.mountpts options) as [e|ms]; [reflexivity|].
  cbn [wlift wret]. unfold wbind at 1.
  destruct (wfor_each ms (record_mount tool options build) w) as [[[]| |e] w1];
    reflexivity.
Qed.

(** The commands of [record_all] when it is not asked to build. *)
Lemma record_all_reuse_trace options w r w' :
  record_all tool options false w = (r, w') ->
  w_trace w' = match r with
               | Done _ => w_trace w ++ [["sync"]]
               | _ => w_trace w
               end.
Proof.
  rewrite record_all_eq.
  destruct (FileSystem.mountpts options) as [e|ms]; [now intros [= <- <-]|].
  pose proof (wkeeps_for_each w_trace ms (record_mount tool options false)
                (record_mount_reuse_trace options) w) as Hk.
  destruct (wfor_each ms (record_mount tool options false) w) as [[[]| |e] w1];
    cbn [snd] in Hk; intros [= <- <-]; cbn; now rewrite Hk.
Qed.

(** [_createFileSystemRecord] in terms of [record_all], once the
    system is found without a file system. *)
Lemma createFileSystemRecord_eq options build w system entry :
  option_value options "system" = inr system ->
  w_obj w !! _getEnvKey system = Some (System entry) ->
  e_filesystem entry = None ->
  _createFileSystemRecord tool options build w
  = on_entry (_getEnvKey system) entry (record_all tool options build) w.
Proof.
  intros Hs He Hf. unfold _createFileSystemRecord. unfold wbind at 1.
  rewrite Hs. cbn [wlift wret]. unfold wbind at 1. cbn [wget].
  rewrite He, Hf. reflexivity.
Qed.

Lemma createFileSystemRecord_cases options build w r w' :
  _createFileSystemRecord tool options build w = (r, w') ->
  (exists system entry,
     option_value options "system" = inr system
     /\ w_obj w !! _getEnvKey system = Some (System entry)
     /\ e_filesystem entry = None)
  \/ stops_early w r w'.
Proof.
  unfold _createFileSystemRecord. unfold wbind at 1.
  destruct (option_value options "system") as [e|system] eqn:Hs.
  - apply option_value_raises in Hs as ->. intros [= <- <-].
    right. repeat split; auto.
  - cbn [wlift wret]. unfold wbind at 1. cbn [wget].
    destruct (w_obj w !! _getEnvKey system) as [[text|entry]|] eqn:He.
    + destruct (str_in "filesystem" text); intros [= <- <-]; right.
      * repeat split; auto. right; right. split; [reflexivity|]. eexists.
        cbn. rewrite <- app_assoc. reflexivity.
      * repeat split; auto.
    + destruct (e_filesystem entry) as [fs|] eqn:Hf.
      * intros [= <- <-]. right. repeat split; auto. right; right.
        split; [reflexivity|]. eexists.
        cbn. rewrite <- app_assoc. reflexivity.
      * left. eauto.
    + intros [= <- <-]. right. repeat split; auto. right; right.
      split; [reflexivity|]. eexists.
      cbn. rewrite <- app_assoc. reflexivity.
Qed.

End FileSystemFacts.

Section FileSystemSteps.
Variable tool : list Cmd -> Cmd -> Z.

(** Every labeler runs one command, when it is asked to build, and
    returns a label. *)
Lemma labeler_method {E} fstype method :
  @labeler tool E fstype = Some method ->
  forall fslabel device, exists command l,
    forall build, method fslabel device build = label_with tool command l build.
Proof.
  unfold labeler. intros H fslabel device.
  repeat match type of H with
         | (if ?b then _ else _) = _ => destruct b
         end;
    try discriminate; injection H as <-;
    eexists; eexists; intros build; reflexivity.
Qed.

Lemma label_with_eq {E} command l build (w : World E) :
  label_with tool command l build w
  = if build then
      if tool (w_trace w) command =? 0
      then (Done (Some l), add_w_trace command w)
      else (Throw (Builtin CalledProcessError), add_w_trace command w)
    else (Done (Some l), w).
Proof.
  unfold label_with, wcheck_call, wcall, wbind, wret, wraise.
  destruct build; [|reflexivity].
  destruct (tool (w_trace w) command =? 0); reflexivity.
Qed.

Lemma label_target_done build fstype fslabel device target current w id' w1 :
  label_target tool build fstype fslabel device target current w = (Done id', w1) ->
  exists id,
    current = Some id
    /\ fsEntry (w_obj w1) = fsEntry (w_obj w)
    /\ fsinfoEntry (w_obj w1) = fsinfoEntry (w_obj w)
    /\ ((disks (w_obj w1) = disks (w_obj w) /\ id' = id)
        \/ (exists l, id' = "LABEL=" +:+ l)
           /\ chr_in "=" id = false
           /\ disks (w_obj w1) = set_fstab_id target id' <$> disks (w_obj w))
    /\ (chr_in "=" id' = true
        \/ @labeler tool FsObjects fstype = None
        \/ (build = true /\ Lexception label_failure ∈ w_log w1))
    /\ (exists l, w_log w1 = w_log w ++ l).
Proof.
  unfold label_target. destruct current as [id|]; [|discriminate].
  intros H. exists id. split; [reflexivity|].
  destruct (chr_in "=" id) eqn:Hid; cbn [negb] in H.
  { injection H as <- <-. repeat split; auto. exists []. now rewrite app_nil_r. }
  destruct (labeler tool fstype) as [method|] eqn:El.
  2:{ injection H as <- <-. repeat split; auto. exists []. now rewrite app_nil_r. }
  destruct (labeler_method _ _ El fslabel device) as (command & l & Hm).
  unfold try_except, wbind at 1 in H. rewrite Hm, label_with_eq in H.
  destruct build.
  - destruct (tool (w_trace w) command =? 0).
    + injection H as <- <-. cbn. repeat split; auto.
      * right. repeat split; eauto.
      * exists []. now rewrite app_nil_r.
    + injection H as <- <-. cbn. repeat split; auto.
      * right; right. split; [reflexivity|]. apply elem_of_app. right. left.
      * eexists. reflexivity.
  - injection H as <- <-. cbn. repeat split; auto.
    + right. repeat split; eauto.
    + exists []. now rewrite app_nil_r.
Qed.

Lemma make_filesystem_done build m fstype fsoptions fslabel device target current w w1 :
  make_filesystem tool build m fstype fsoptions fslabel device target current w
  = (Done tt, w1) ->
  exists id id',
    current = Some id
    /\ fsEntry (w_obj w1) = <[m := (m, device, fstype, id')]> (fsEntry (w_obj w))
    /\ fsinfoEntry (w_obj w1) = fsinfoEntry (w_obj w)
    /\ ((disks (w_obj w1) = disks (w_obj w) /\ id' = id)
        \/ (exists l, id' = "LABEL=" +:+ l)
           /\ chr_in "=" id = false
           /\ disks (w_obj w1) = set_fstab_id target id' <$> disks (w_obj w))
    /\ (chr_in "=" id' = true
        \/ @labeler tool FsObjects fstype = None
        \/ (build = true /\ Lexception label_failure ∈ w_log w1))
    /\ (exists l, w_log w1 = w_log w ++ l).
Proof.
  unfold make_filesystem. unfold wbind at 1.
  set (cmd := ["sudo"; "mkfs"; "-t"; fstype] ++ fsoptions ++ [device]).
  assert (Hpre : forall w0 : World FsObjects,
            w_obj w0 = w_obj w -> w_log w0 = w_log w ->
            (fstabid <- label_target tool build fstype fslabel device target current ;;
             wmodify (set_fsEntry (insert m (m, device, fstype, fstabid))))%W w0
            = (Done tt, w1) ->
            exists id id',
              current = Some id
              /\ fsEntry (w_obj w1) = <[m := (m, device, fstype, id')]> (fsEntry (w_obj w))
              /\ fsinfoEntry (w_obj w1) = fsinfoEntry (w_obj w)
              /\ ((disks (w_obj w1) = disks (w_obj w) /\ id' = id)
                  \/ (exists l, id' = "LABEL=" +:+ l)
                     /\ chr_in "=" id = false
                     /\ disks (w_obj w1) = set_fstab_id target id' <$> disks (w_obj w))
              /\ (chr_in "=" id' = true
                  \/ @labeler tool FsObjects fstype = None
                  \/ (build = true /\ Lexception label_failure ∈ w_log w1))
              /\ (exists l, w_log w1 = w_log w ++ l)).
  { intros w0 Ho Hl. unfold wbind at 1.
    destruct (label_target tool build fstype fslabel device target current w0)
      as [[id'| |e] w2] eqn:Hlt; try discriminate.
    cbn [wmodify]. intros [= <-].
    apply label_target_done in Hlt as (id & -> & Hfs & Hfi & Hd & Hlab & Hlog).
    exists id, id'. cbn. rewrite Hfs, Hfi, <- Ho.
    repeat split; auto. now rewrite <- Hl. }
  destruct build.
  - unfold wcheck_call, wcall, wbind at 1.
    destruct (tool (w_trace w) cmd =? 0); [|discriminate].
    cbn [wret]. now apply Hpre.
  - cbn [wret]. now apply Hpre.
Qed.

(** One round of the loop that reaches its end. *)
Lemma record_mount_done options build m w w1 :
  record_mount tool options build m w = (Done tt, w1) ->
  mount_recorded tool options build m w w1.
Proof.
  unfold record_mount, mount_recorded. unfold wbind at 1.
  destruct (option_value options m) as [e|value]; [discriminate|].
  cbn [wlift wret].
  destruct (mount_spec value) as [[[cd ty] fo]|] eqn:Hspec; [|discriminate].
  cbv zeta. destruct (device_names (strip cd)) as [d p] eqn:Hn.
  unfold wbind at 1. cbn [wget]. unfold wbind at 1.
  destruct (disks (w_obj w)) as [ds|] eqn:Hds; [|discriminate].
  cbn [wlift wret].
  lazymatch goal with
  | |- (match ?x with _ => _ end) _ = _ -> _ => destruct x as [de|] eqn:Hd
  end; [|discriminate].
  unfold wbind at 1. cbn [wmodify].
  destruct p as [pn|].
  - unfold wbind at 1.
    destruct (d_partitions de) as [ps|] eqn:Hps; [|discriminate].
    cbn [wlift wret].
    lazymatch goal with
    | |- (match ?x with _ => _ end) _ = _ -> _ => destruct x as [rec|] eqn:Hp
    end; [|discriminate].
    unfold wbind at 1. cbn [wmodify]. intros H.
    apply make_filesystem_done in H
      as (id & id' & Hcur & Hfs & Hfi & Hdisks & Hlab & Hlog).
    exists value, d, (Some pn), ds, pn, (device rec), (strip ty),
      (OnPartition d pn), id, id'.
    cbn -[set_fstab_id] in Hfs, Hfi, Hdisks, Hlog. rewrite insert_insert_eq in Hfi.
    rewrite Hds in Hdisks. cbn -[set_fstab_id] in Hdisks.
    repeat split; auto.
    + unfold named_device. now rewrite Hspec, Hn.
    + unfold fs_target. rewrite Hd. cbn. rewrite Hps. cbn. rewrite Hp. cbn.
      now rewrite Hcur.
  - intros H.
    apply make_filesystem_done in H
      as (id & id' & Hcur & Hfs & Hfi & Hdisks & Hlab & Hlog).
    exists value, d, None, ds, d, (d_device de), (strip ty), (OnDisk d), id, id'.
    cbn -[set_fstab_id] in Hfs, Hfi, Hdisks, Hlog.
    rewrite Hds in Hdisks. cbn -[set_fstab_id] in Hdisks.
    repeat split; auto.
    + unfold named_device. now rewrite Hspec, Hn.
    + unfold fs_target. rewrite Hd. cbn. now rewrite Hcur.
Qed.

(** An invariant of the rounds that come to their end. *)
Lemma wfor_each_done {E A} (I : list A -> World E -> Prop) (body : A -> W E unit) :
  (forall done x w w1, I done w -> body x w = (Done tt, w1) -> I (done ++ [x]) w1) ->
  forall l done w w1,
    I done w -> wfor_each l body w = (Done tt, w1) -> I (done ++ l) w1.
Proof.
  intros Hstep. induction l as [|x l IH]; intros done w w1 HI.
  - cbn. intros [= <-]. now rewrite app_nil_r.
  - cbn [wfor_each]. unfold wbind.
    destruct (body x w) as [[[]| |e] w2] eqn:Hb; try discriminate.
    intros H. replace (done ++ x :: l) with ((done ++ [x]) ++ l)
      by now rewrite <- app_assoc.
    eapply IH; [|exact H]. eapply Hstep; eauto.
Qed.

End FileSystemSteps.

Section FileSystemLoop.
Variable tool : list Cmd -> Cmd -> Z.

Lemma fs_target_object ds d p lbl dev t cur :
  fs_target ds d p = Some (lbl, dev, t, cur) ->
  t = match p with
      | None => OnDisk d
      | Some pn => OnPartition d pn
      end.
Proof.
  unfold fs_target. destruct (ds !! d) as [de|]; cbn; [|discriminate].
  destruct p as [pn|]; [|now intros [= _ _ <- _]].
  destruct (d_partitions de) as [ps|]; cbn; [|discriminate].
  destruct (ps !! pn) as [rec|]; cbn; [|discriminate].
  now intros [= _ _ <- _].
Qed.

(** A new fstab id reaches the object it is given to, and nothing
    else of what the mount points refer to. *)
Lemma fs_target_set tgt v ds d p lbl dev t cur :
  fs_target ds d p = Some (lbl, dev, t, cur) ->
  fs_target (set_fstab_id tgt v ds) d p
  = Some (lbl, dev, t, if decide (t = tgt) then Some v else cur).
Proof.
  intros H. pose proof (fs_target_object _ _ _ _ _ _ _ H) as Ht.
  revert H. unfold fs_target, set_fstab_id.
  destruct tgt as [d0|d0 p0].
  - destruct (decide (d0 = d)) as [->|Hne].
    + rewrite lookup_alter_eq. destruct (ds !! d) as [de|]; cbn; [|discriminate].
      destruct p as [pn|].
      * subst t. rewrite decide_False by discriminate. auto.
      * subst t. rewrite decide_True by reflexivity. now intros [= <- <- <-].
    + rewrite lookup_alter_ne by assumption.
      rewrite decide_False; [auto|]. subst t. destruct p; congruence.
  - destruct (decide (d0 = d)) as [->|Hne].
    + rewrite lookup_alter_eq. destruct (ds !! d) as [de|]; cbn; [|discriminate].
      destruct p as [pn|].
      * destruct (d_partitions de) as [ps|]; cbn; [|discriminate].
        destruct (decide (p0 = pn)) as [->|Hp].
        -- rewrite lookup_alter_eq. destruct (ps !! pn) as [rec|]; cbn; [|discriminate].
           subst t. rewrite decide_True by reflexivity. now intros [= <- <- <-].
        -- rewrite lookup_alter_ne by assumption.
           subst t. rewrite decide_False by congruence. auto.
      * subst t. rewrite decide_False by discriminate. auto.
    + rewrite lookup_alter_ne by assumption.
      rewrite decide_False; [auto|]. subst t. destruct p; congruence.
Qed.

Lemma fs_target_set_device tgt v ds d p lbl dev t cur :
  fs_target ds d p = Some (lbl, dev, t, cur) ->
  exists cur', fs_target (set_fstab_id tgt v ds) d p = Some (lbl, dev, t, cur').
Proof. intros H. eexists. apply fs_target_set. exact H. Qed.

Lemma recorded_step options build done x w w1 :
  recorded tool build done w ->
  record_mount tool options build x w = (Done tt, w1) ->
  recorded tool build (done ++ [x]) w1.
Proof.
  intros (Hfs & Hfi & Hent) H.
  apply record_mount_done in H
    as (value & d & p & ds & lbl & dev & ty & tgt & id & id' & Hval & Hname & Hds
        & Htgt & Hfs1 & Hfi1 & Hdisks & Hlab & l & Hlog).
  assert (Hdev : exists ds1, disks (w_obj w1) = Some ds1
            /\ forall d2 p2 lbl2 dev2 t2 cur2,
                 fs_target ds d2 p2 = Some (lbl2, dev2, t2, cur2) ->
                 exists cur', fs_target ds1 d2 p2 = Some (lbl2, dev2, t2, cur')).
  { destruct Hdisks as [[Hd _]|(_ & _ & Hd)].
    - exists ds. split; [assumption|]. eauto.
    - eexists. split; [eassumption|]. intros. eapply fs_target_set_device; eassumption. }
  destruct Hdev as (ds1 & Hds1 & Hkeep).
  split; [|split].
  - intros m. rewrite Hfs1, lookup_insert_is_Some, elem_of_app, list_elem_of_singleton.
    rewrite Hfs. destruct (decide (x = m)); intuition congruence.
  - intros m. rewrite Hfi1, lookup_insert_is_Some, elem_of_app, list_elem_of_singleton.
    rewrite Hfi. destruct (decide (x = m)); intuition congruence.
  - intros m mp dev0 ty0 id0. rewrite Hfs1, Hfi1.
    destruct (decide (x = m)) as [->|Hne].
    + rewrite !lookup_insert_eq. intros [= <- <- <- <-].
      split; [reflexivity|]. split; [exact Hlab|].
      destruct (Hkeep _ _ _ _ _ _ Htgt) as (cur' & Hc).
      eexists _, ds1, lbl, tgt, cur'. repeat split; auto.
    + rewrite !lookup_insert_ne by assumption. intros Hm.
      destruct (Hent _ _ _ _ _ Hm) as (-> & Hl & i & ds0 & lbl0 & tgt0 & cur0
                                       & Hi & Hds0 & Ht0).
      split; [reflexivity|]. split.
      * destruct Hl as [Hl|[Hl|[Hb Hl]]]; [now left|now right; left|].
        right; right. split; [assumption|]. rewrite Hlog, elem_of_app. now left.
      * rewrite Hds in Hds0. injection Hds0 as <-.
        destruct (Hkeep _ _ _ _ _ _ Ht0) as (cur' & Hc).
        exists i, ds1, lbl0, tgt0, cur'. repeat split; auto.
Qed.

Lemma recorded_loop options build ms w w1 :
  fsEntry (w_obj w) = ∅ -> fsinfoEntry (w_obj w) = ∅ ->
  wfor_each ms (record_mount tool options build) w = (Done tt, w1) ->
  recorded tool build ms w1.
Proof.
  intros Hfs Hfi H.
  apply (wfor_each_done (recorded tool build) (record_mount tool options build)
           (fun done x w w1 => recorded_step options build done x w w1)
           ms [] w w1); [|exact H].
  split; [|split].
  - intros m. rewrite Hfs, lookup_empty, elem_of_nil. split; [intros []; discriminate|tauto].
  - intros m. rewrite Hfi, lookup_empty, elem_of_nil. split; [intros []; discriminate|tauto].
  - intros m mp dev ty id. now rewrite Hfs, lookup_empty.
Qed.

(** A run of [_createFileSystemRecord] that returns the table. *)
Lemma createFileSystemRecord_done options build w fs w' :
  _createFileSystemRecord tool options build w = (Done fs, w') ->
  exists system entry ms wl,
    option_value options "system" = inr system
    /\ w_obj w !! _getEnvKey system = Some (System entry)
    /\ e_filesystem entry = None
    /\ FileSystem.mountpts options = inr ms
    /\ recorded tool build ms wl
    /\ fs = fsEntry (w_obj wl)
    /\ w_obj w' = <[_getEnvKey system := System (entry_with entry (w_obj wl))]> (w_obj w)
    /\ w_log w' = w_log wl ++ [Lpassed].
Proof.
  intros H.
  destruct (createFileSystemRecord_cases tool _ _ _ _ _ H)
    as [(system & entry & Hs & He & Hf)|(_ & _ & [[? _]|[[? _]|[? _]]])];
    try discriminate.
  rewrite (createFileSystemRecord_eq tool _ _ _ _ _ Hs He Hf) in H.
  unfold on_entry in H. rewrite record_all_eq in H.
  destruct (FileSystem.mountpts options) as [e|ms] eqn:Hms; [discriminate|].
  match type of H with
  | context [wfor_each ms ?b ?w0] => destruct (wfor_each ms b w0) as [[[]| |e] wl] eqn:Hl
  end; try discriminate.
  injection H as <- <-.
  exists system, entry, ms, wl.
  split; [exact Hs|]. split; [exact He|]. split; [exact Hf|].
  split; [reflexivity|].
  split; [apply recorded_loop in Hl; [exact Hl|reflexivity..]|].
  split; [reflexivity|]. split; reflexivity.
Qed.

End FileSystemLoop.

(** *** Properties of the file system step *)

Section FileSystemProperties.
Variable tool : list Cmd -> Cmd -> Z.

(** X9.  Not asked to build, [_createFileSystemRecord] runs no tool but
    [sync], and that one only when it returns the table. *)
Theorem filesystem_reuse_commands options w :
  let '(r, w') := _createFileSystemRecord tool options false w in
  w_trace w' = match r with
               | Done _ => w_trace w ++ [["sync"]]
               | _ => w_trace w
               end.
Proof.
  destruct (_createFileSystemRecord tool options false w) as [r w'] eqn:H.
  destruct (createFileSystemRecord_cases tool _ _ _ _ _ H)
    as [(system & entry & Hs & He & Hf)|(_ & Ht & Hr)].
  - rewrite (createFileSystemRecord_eq tool _ _ _ _ _ Hs He Hf) in H.
    unfold on_entry in H.
    match type of H with
    | context [record_all tool options false ?w0] =>
        destruct (record_all tool options false w0) as [r0 w0'] eqn:Hr
    end.
    injection H as <- <-. cbn [w_trace].
    now apply record_all_reuse_trace in Hr.
  - rewrite Ht. destruct Hr as [[-> _]|[[-> _]|[-> _]]]; reflexivity.
Qed.

(** X10.  A system gets its file system table once: whatever the first call
    did, a second call for the same system is refused, and it touches
    nothing but the log. *)
Theorem filesystem_defined_once options build options2 build2 system entry w r w1 :
  option_value options "system" = inr system ->
  option_value options2 "system" = inr system ->
  w_obj w !! _getEnvKey system = Some (System entry) ->
  _createFileSystemRecord tool options build w = (r, w1) ->
  _createFileSystemRecord tool options2 build2 w1
  = (Return_None,
     add_w_log Lfailed
       (add_w_log (Lerror "System '%s' already has a filesystem defined") w1)).
Proof.
  intros Hs Hs2 He H.
  assert (Hdef : exists entry1 fs,
            w_obj w1 !! _getEnvKey system = Some (System entry1)
            /\ e_filesystem entry1 = Some fs).
  { destruct (e_filesystem entry) as [fs|] eqn:Hf.
    - destruct (createFileSystemRecord_cases tool _ _ _ _ _ H)
        as [(system' & entry' & Hs' & He' & Hf')|(Ho & _)].
      + rewrite Hs in Hs'. injection Hs' as <-.
        rewrite He in He'. injection He' as <-. congruence.
      + exists entry, fs. now rewrite Ho.
    - rewrite (createFileSystemRecord_eq tool _ _ _ _ _ Hs He Hf) in H.
      unfold on_entry in H.
      match type of H with
      | context [record_all tool options build ?w0] =>
          destruct (record_all tool options build w0) as [r0 w0'] eqn:Hr
      end.
      injection H as <- <-. cbn [w_obj].
      eexists _, _. rewrite lookup_insert_eq. split; reflexivity. }
  destruct Hdef as (entry1 & fs & He1 & Hf1).
  unfold _createFileSystemRecord. unfold wbind at 1. rewrite Hs2.
  cbn [wlift wret]. unfold wbind at 1. cbn [wget]. rewrite He1, Hf1.
  reflexivity.
Qed.

(** X11.  The table that [_createFileSystemRecord] returns is the one it
    has stored in the system entry; its keys, and those of the
    ['filesystem-info'] dictionary, are the mount points of the
    options, each row starts with its key, and no other variable of
    the environment has changed. *)
Theorem filesystem_table_stored options build w fs w' :
  _createFileSystemRecord tool options build w = (Done fs, w') ->
  exists system entry info ms,
    option_value options "system" = inr system
    /\ FileSystem.mountpts options = inr ms
    /\ w_obj w' !! _getEnvKey system = Some (System entry)
    /\ e_filesystem entry = Some fs
    /\ e_filesystem_info entry = Some info
    /\ (forall m, is_Some (fs !! m) <-> m ∈ ms)
    /\ (forall m, is_Some (info !! m) <-> m ∈ ms)
    /\ (forall m mp dev ty id, fs !! m = Some (mp, dev, ty, id) -> mp = m)
    /\ (forall k, k <> _getEnvKey system -> w_obj w' !! k = w_obj w !! k)
    /\ last (w_log w') = Some Lpassed.
Proof.
  intros H.
  apply createFileSystemRecord_done in H
    as (system & entry & ms & wl & Hs & He & Hf & Hms & (Hfs & Hfi & Hent)
        & -> & Ho & Hl).
  exists system, (entry_with entry (w_obj wl)), (fsinfoEntry (w_obj wl)), ms.
  split; [exact Hs|]. split; [exact Hms|].
  split; [now rewrite Ho, lookup_insert_eq|].
  split; [reflexivity|]. split; [reflexivity|].
  split; [exact Hfs|]. split; [exact Hfi|].
  split; [intros m mp dev ty id Hm; now destruct (Hent _ _ _ _ _ Hm)|].
  split; [intros k Hk; now rewrite Ho, lookup_insert_ne|].
  rewrite Hl. apply last_snoc.
Qed.

(** X12.  The device of every row of the table is the device of the disk,
    or of the partition, that ['filesystem-info'] names for the mount
    point, as the system entry holds it when the call returns. *)
Theorem filesystem_devices_named options build w fs w' m mp dev ty id :
  _createFileSystemRecord tool options build w = (Done fs, w') ->
  fs !! m = Some (mp, dev, ty, id) ->
  exists system entry info i ds lbl tgt cur,
    option_value options "system" = inr system
    /\ w_obj w' !! _getEnvKey system = Some (System entry)
    /\ e_filesystem_info entry = Some info
    /\ info !! m = Some i
    /\ sys_disks (e_system entry) = Some ds
    /\ fs_target ds (info_disk i) (info_partition i) = Some (lbl, dev, tgt, cur).
Proof.
  intros H Hm.
  apply createFileSystemRecord_done in H
    as (system & entry & ms & wl & Hs & He & Hf & Hms & (Hfs & Hfi & Hent)
        & -> & Ho & Hl).
  destruct (Hent _ _ _ _ _ Hm) as (_ & _ & i & ds & lbl & tgt & cur & Hi & Hds & Ht).
  exists system, (entry_with entry (w_obj wl)), (fsinfoEntry (w_obj wl)),
    i, ds, lbl, tgt, cur.
  split; [exact Hs|]. split; [now rewrite Ho, lookup_insert_eq|].
  split; [reflexivity|]. split; [exact Hi|]. split; [exact Hds|exact Ht].
Qed.

(** X13.  No file system is left without a label in silence: the fstab id
    of a row holds an [=], or the type of the row has no labeler, or
    the call was building and the log has the exception of the labeler. *)
Theorem filesystem_labelled_or_reported options build w fs w' m mp dev ty id :
  _createFileSystemRecord tool options build w = (Done fs, w') ->
  fs !! m = Some (mp, dev, ty, id) ->
  labelled_or_reported tool build (w_log w') ty id.
Proof.
  intros H Hm.
  apply createFileSystemRecord_done in H
    as (system & entry & ms & wl & Hs & He & Hf & Hms & (Hfs & Hfi & Hent)
        & -> & Ho & Hl).
  destruct (Hent _ _ _ _ _ Hm) as (_ & [Hlab|[Hlab|[Hb Hlab]]] & _).
  - now left.
  - now right; left.
  - right; right. split; [exact Hb|]. rewrite Hl, elem_of_app. now left.
Qed.

(** X14.  A mount point on a partition whose record has no fstab id stops
    the step: [_createFileSystemRecord] never returns the table. *)
Theorem filesystem_needs_fstab_id options build w system entry ds ms m value
    d p lbl dev tgt :
  option_value options "system" = inr system ->
  w_obj w !! _getEnvKey system = Some (System entry) ->
  sys_disks (e_system entry) = Some ds ->
  FileSystem.mountpts options = inr ms ->
  m ∈ ms ->
  option_value options m = inr value ->
  named_device value = Some (d, Some p) ->
  fs_target ds d (Some p) = Some (lbl, dev, tgt, None) ->
  forall fs w', _createFileSystemRecord tool options build w <> (Done fs, w').
Proof.
  intros Hs He Hds Hms Hin Hval Hname Htgt fs w' H.
  destruct (createFileSystemRecord_cases tool _ _ _ _ _ H)
    as [(system' & entry' & Hs' & He' & Hf)|(_ & _ & [[? _]|[[? _]|[? _]]])];
    try discriminate.
  rewrite Hs in Hs'. injection Hs' as <-.
  rewrite He in He'. injection He' as <-.
  rewrite (createFileSystemRecord_eq tool _ _ _ _ _ Hs He Hf) in H.
  unfold on_entry in H. rewrite record_all_eq, Hms in H.
  match type of H with
  | context [wfor_each ms ?b ?w0] =>
      destruct (wfor_each ms b w0) as [[[]| |e] wl] eqn:Hl
  end; try discriminate.
  clear H.
  pose (I := fun (done : list string) (w : World FsObjects) =>
               (m ∉ done)
               /\ exists ds', disks (w_obj w) = Some ds'
                   /\ fs_target ds' d (Some p) = Some (lbl, dev, tgt, None)).
  assert (HI : I ([] ++ ms) wl).
  { apply (wfor_each_done I (record_mount tool options build)) with (w := 
             {| w_obj := {| disks := sys_disks (e_system entry);
                            fsEntry := ∅; fsinfoEntry := ∅ |};
                w_log := w_log w; w_trace := w_trace w |}); [| |exact Hl].
    - clear Hl. intros done x w0 w1 (Hnot & ds' & Hds' & Ht') Hx.
      apply record_mount_done in Hx
        as (value' & d' & p' & ds0 & lbl' & dev' & ty' & tgt' & id & id' & Hval'
            & Hname' & Hds0 & Htgt' & _ & _ & Hdisks & _).
      rewrite Hds' in Hds0. injection Hds0 as <-.
      assert (Hne : x <> m).
      { intros ->. rewrite Hval in Hval'. injection Hval' as <-.
        rewrite Hname in Hname'. injection Hname' as <- <-. congruence. }
      split.
      + rewrite elem_of_app, list_elem_of_singleton. intros [?|?]; congruence.
      + destruct Hdisks as [[Hd _]|(_ & _ & Hd)].
        * exists ds'. split; assumption.
        * eexists. split; [exact Hd|].
          rewrite (fs_target_set _ _ _ _ _ _ _ _ _ Ht').
          rewrite decide_False; [reflexivity|].
          intros <-.
          pose proof (fs_target_object _ _ _ _ _ _ _ Ht') as Ho1.
          pose proof (fs_target_object _ _ _ _ _ _ _ Htgt') as Ho2.
          rewrite Ho1 in Ho2. destruct p' as [pn|]; [|discriminate].
          injection Ho2 as <- <-. congruence.
    - split; [apply not_elem_of_nil|]. exists ds. split; assumption. }
  destruct HI as [Hnot _]. now apply Hnot.
Qed.

Lemma take_str_length n s : (String.length (take_str n s) <= n)%nat.
Proof.
  revert s. induction n as [|n IH]; intros [|a s]; cbn; try lia.
  specialize (IH s). lia.
Qed.

Lemma upper_length s : String.length (upper s) = String.length s.
Proof. induction s as [|a s IH]; cbn; congruence. Qed.

Lemma upper_char_idem a : upper_char (upper_char a) = upper_char a.
Proof. destruct a as [[] [] [] [] [] [] [] []]; vm_compute; reflexivity. Qed.

Lemma upper_idem s : upper (upper s) = upper s.
Proof. induction s as [|a s IH]; cbn; [reflexivity|]. now rewrite upper_char_idem, IH. Qed.

(** X15.  The label that the FAT labeler returns, and gives to [fatlabel]
    when it builds, has at most eleven characters and no lower case
    letter; without building it runs nothing and cannot fail. *)
Theorem vfat_label_fits fslabel device build (w : World FsObjects) :
  let '(r, w') := _labelFileSystem_vfat tool fslabel device build w in
  match r with
  | Done (Some l) =>
      (String.length l <= 11)%nat /\ upper l = l
      /\ w_trace w' = (if build then w_trace w ++ [["sudo"; "fatlabel"; device; l]]
                       else w_trace w)
  | Done None => False
  | Return_None => False
  | Throw _ => build = true
  end.
Proof.
  unfold _labelFileSystem_vfat. cbv zeta. rewrite label_with_eq.
  destruct build; [destruct (tool _ _ =? 0)|]; try reflexivity;
    (split; [|split; [apply upper_idem|reflexivity]]);
    rewrite upper_length;
    (etransitivity; [apply take_str_length|apply Nat.le_min_r]).
Qed.

End FileSystemProperties.

(** *** Properties of the partition device aspect *)

Lemma startswith_env_ k :
  startswith k "env_" = true -> k = "env_" +:+ drop_str 4 k.
Proof.
  unfold startswith.
  destruct k as [|a1 [|a2 [|a3 [|a4 rest]]]]; cbn -[ascii_dec]; try discriminate;
    repeat (destruct (ascii_dec _ _) as [<-|]; cbn -[ascii_dec]; try discriminate);
    reflexivity.
Qed.

Lemma lstrip_chars_mount_point m :
  startswith m "/" = true -> lstrip_chars "env_" ("env_" +:+ m) = m.
Proof.
  unfold startswith. destruct m as [|a m]; cbn -[ascii_dec]; [discriminate|].
  destruct (ascii_dec _ _) as [<-|]; [reflexivity|discriminate].
Qed.

(** X16.  [lstrip('env_')] drops a set of characters, not a prefix; the
    name of a mount point starts with [/], which is not in the set, so
    the aspect does find the mount points that its options name. *)
Theorem environment_variables_of_mount_points options :
  (forall k v, (k, v) ∈ options -> startswith k "env_" = true ->
               startswith (drop_str 4 k) "/" = true) ->
  GetPartitionDevices._getEnvironmentVariables options
  = map (fun kv => (drop_str 4 (fst kv), snd kv))
      (List.filter (fun kv => startswith (fst kv) "env_") options).
Proof.
  induction options as [|[k v] rest IH]; intros H; [reflexivity|].
  cbn [GetPartitionDevices._getEnvironmentVariables List.filter fst].
  destruct (startswith k "env_") eqn:Hk.
  - cbn [map fst snd]. rewrite IH by (intros; eapply H; [right|]; eassumption).
    f_equal. f_equal.
    rewrite (startswith_env_ _ Hk) at 1.
    apply lstrip_chars_mount_point. eapply H; [left|exact Hk].
  - apply IH. intros; eapply H; [right|]; eassumption.
Qed.

Section DeviceVariables.
Import GetPartitionDevices.

Lemma wkeeps_for_each_in {E X A} (f : World E -> X) (l : list A) body :
  (forall x, x ∈ l -> wkeeps f (body x)) -> wkeeps f (wfor_each l body).
Proof.
  induction l as [|x l IH]; intros Hb; simpl.
  - apply wkeeps_ret.
  - apply wkeeps_bind; [apply Hb; left|intros _; apply IH].
    intros y Hy. apply Hb. now right.
Qed.

Lemma bind_variable_eq env value (w : World Env) :
  exists w', bind_variable env value w = (Done tt, w')
    /\ w_obj w' = <[env := Str value]> (w_obj w)
    /\ w_trace w' = w_trace w.
Proof.
  unfold bind_variable, wbind, wget, wmodify, wlog, wret.
  destruct (decide (is_Some (w_obj w !! env))); eexists; repeat split.
Qed.

Lemma bind_variable_keeps k env value :
  env <> k -> wkeeps (fun w : World Env => w_obj w !! k) (bind_variable env value).
Proof.
  intros Hne w. destruct (bind_variable_eq env value w) as (w' & Hrun & Ho & _).
  rewrite Hrun. cbn [snd]. rewrite Ho. now apply lookup_insert_ne.
Qed.

(** The aspect writes no variable but the ones its options name. *)
Lemma start_frame phase options k :
  k ∉ variables options ->
  wkeeps (fun w : World Env => w_obj w !! k) (start phase options).
Proof.
  intros Hk. unfold start.
  assert (Hbody : forall m v, (m, v) ∈ _getEnvironmentVariables options -> v <> k).
  { intros m v Hin ->. apply Hk. unfold variables.
    apply list_elem_of_fmap. now exists (m, k). }
  destruct (_ || _)%bool.
  - unfold start__build. cbv zeta.
    apply wkeeps_bind; [apply wkeeps_lift|intros name].
    apply wkeeps_bind; [apply wkeeps_get|intros vars].
    destruct (vars !! _getEnvKey name) as [system|]; [|repeat wkeeps_step].
    apply wkeeps_bind; [|intros _; wkeeps_step].
    apply wkeeps_for_each_in. intros [m v] Hin.
    destruct system as [text|entry].
    + repeat wkeeps_step.
    + destruct (e_filesystem entry) as [fs|]; [|repeat wkeeps_step].
      destruct (fs !! m) as [[[[? dev] ?] ?]|].
      * apply bind_variable_keeps. eauto.
      * apply wkeeps_bind; [wkeeps_step|intros _].
        intros w. cbn. rewrite lookup_insert_ne; eauto.
  - apply wkeeps_bind; [|intros _; wkeeps_step].
    apply wkeeps_for_each_in. intros [m v] Hin.
    apply bind_variable_keeps. eauto.
Qed.

Lemma end_loop (l : list (string * string)) (w : World Env) :
  exists w', wfor_each l
               (fun '(_, env) =>
                  (vars <- wget ;;
                   if decide (is_Some (vars !! env)) then wmodify (delete env)
                   else wret tt)%W) w = (Done tt, w')
    /\ w_log w' = w_log w /\ w_trace w' = w_trace w
    /\ forall k, w_obj w' !! k = if decide (k ∈ l.*2) then None else w_obj w !! k.
Proof.
  revert w. induction l as [|[m v] l IH]; intros w.
  - exists w. split; [reflexivity|]. split; [reflexivity|]. split; [reflexivity|].
    intros k. rewrite decide_False; [reflexivity|]. apply not_elem_of_nil.
  - cbn [wfor_each]. unfold wbind at 1. unfold wbind at 1. cbn [wget].
    assert (Hstep : exists w1,
              (if decide (is_Some (w_obj w !! v)) then wmodify (delete v)
               else wret tt) w = (Done tt, w1)
              /\ w_log w1 = w_log w /\ w_trace w1 = w_trace w
              /\ w_obj w1 = delete v (w_obj w)).
    { destruct (decide (is_Some (w_obj w !! v))) as [Hs|Hn].
      - eexists. repeat split.
      - exists w. repeat split. symmetry. apply delete_id.
        now apply eq_None_not_Some. }
    destruct Hstep as (w1 & -> & Hl1 & Ht1 & Ho1).
    destruct (IH w1) as (w' & Hrun & Hl & Ht & Ho).
    exists w'. split; [exact Hrun|]. split; [congruence|]. split; [congruence|].
    intros k. rewrite Ho, Ho1. cbn [fmap list_fmap snd].
    destruct (decide (k = v)) as [->|Hne].
    + rewrite (decide_True (P := v ∈ v :: _)) by left.
      destruct (decide (v ∈ l.*2)); [reflexivity|apply lookup_delete_eq].
    + rewrite lookup_delete_ne by congruence.
      destruct (decide (k ∈ l.*2)) as [Hin|Hnin].
      * rewrite decide_True; [reflexivity|now right].
      * rewrite decide_False; [reflexivity|].
        rewrite elem_of_cons. tauto.
Qed.

(** What [end] does. *)
Lemma end_eq options (w : World Env) :
  exists w', end_ options w = (Done tt, w')
    /\ w_log w' = w_log w ++ [Lpassed] /\ w_trace w' = w_trace w
    /\ forall k, w_obj w' !! k
                 = if decide (k ∈ variables options) then None else w_obj w !! k.
Proof.
  unfold end_. unfold wbind at 1.
  destruct (end_loop (_getEnvironmentVariables options) w)
    as (w1 & -> & Hl & Ht & Ho).
  eexists. split; [reflexivity|]. cbn. rewrite Hl, Ht. repeat split. exact Ho.
Qed.

(** X17.  The variables that [start] binds are gone after [end], and
    nothing else has changed: with variables that were not bound
    before, the environment is again what it was, in every phase and
    whether or not [start] found the system. *)
Theorem start_end_restores phase options (w : World Env) :
  (forall v, v ∈ variables options -> w_obj w !! v = None) ->
  fst (end_ options (snd (start phase options w))) = Done tt
  /\ w_obj (snd (end_ options (snd (start phase options w)))) = w_obj w.
Proof.
  intros Hfree.
  destruct (end_eq options (snd (start phase options w)))
    as (w' & -> & _ & _ & Ho).
  split; [reflexivity|]. cbn [snd]. apply map_eq. intros k. rewrite Ho.
  destruct (decide (k ∈ variables options)) as [Hin|Hnin].
  - symmetry. now apply Hfree.
  - now apply (start_frame phase options k Hnin w).
Qed.

(** Rounds that bind one variable each. *)
Lemma wfor_each_binds (val : string -> string)
    (body : string * string -> W Env unit) :
  (forall m v w, exists w', body (m, v) w = (Done tt, w')
     /\ w_obj w' = <[v := Str (val m)]> (w_obj w) /\ w_trace w' = w_trace w) ->
  forall (l : list (string * string)) w, exists w', wfor_each l body w = (Done tt, w')
    /\ w_trace w' = w_trace w
    /\ (forall k, k ∉ l.*2 -> w_obj w' !! k = w_obj w !! k)
    /\ (NoDup l.*2 -> forall m v, (m, v) ∈ l -> w_obj w' !! v = Some (Str (val m))).
Proof.
  intros Hbody. induction l as [|[m0 v0] l IH]; intros w.
  - exists w. repeat split. intros _ m v Hin. now apply elem_of_nil in Hin.
  - cbn [wfor_each]. unfold wbind.
    destruct (Hbody m0 v0 w) as (w1 & -> & Ho1 & Ht1).
    destruct (IH w1) as (w' & -> & Ht & Hframe & Hbound).
    exists w'. split; [reflexivity|]. split; [congruence|]. split.
    + intros k Hk. cbn [fmap list_fmap snd] in Hk.
      rewrite not_elem_of_cons in Hk. destruct Hk as [Hne Hk].
      rewrite (Hframe k Hk), Ho1. now rewrite lookup_insert_ne.
    + cbn [fmap list_fmap snd]. intros Hnd m v Hin.
      apply NoDup_cons in Hnd as [Hnot Hnd].
      apply elem_of_cons in Hin as [[= -> ->]|Hin].
      * rewrite (Hframe v0 Hnot), Ho1. apply lookup_insert_eq.
      * now apply (Hbound Hnd).
Qed.

(** [start__build] on a system that has its file system table. *)
Lemma start__build_binds options system entry fs (w : World Env) :
  option_value options "system" = inr system ->
  w_obj w !! _getEnvKey system = Some (System entry) ->
  e_filesystem entry = Some fs ->
  exists w', start__build options w = (Done tt, w')
    /\ w_trace w' = w_trace w
    /\ last (w_log w') = Some Lpassed
    /\ (forall k, k ∉ variables options -> w_obj w' !! k = w_obj w !! k)
    /\ (NoDup (variables options) ->
        forall m v, (m, v) ∈ _getEnvironmentVariables options ->
                    w_obj w' !! v = Some (Str (device_of fs m))).
Proof.
  intros Hs He Hf. unfold start__build. cbv zeta. unfold wbind at 1.
  rewrite Hs. cbn [wlift wret]. unfold wbind at 1. cbn [wget]. rewrite He.
  unfold wbind at 1.
  match goal with
  | |- context [wfor_each ?l0 ?b w] =>
      assert (Hbody : forall m v w, exists w', b (m, v) w = (Done tt, w')
                /\ w_obj w' = <[v := Str (device_of fs m)]> (w_obj w)
                /\ w_trace w' = w_trace w);
      [|destruct (wfor_each_binds (device_of fs) b Hbody l0 w)
          as (w1 & -> & Ht & Hframe & Hbound)]
  end.
  { intros m v w0. rewrite Hf. unfold device_of.
    destruct (fs !! m) as [[[[? dev] ?] ?]|].
    - apply bind_variable_eq.
    - eexists. unfold wbind, wlog, wmodify. split; [reflexivity|]. split; reflexivity. }
  eexists. split; [reflexivity|]. split; [exact Ht|].
  split; [apply last_snoc|]. split; [exact Hframe|exact Hbound].
Qed.

(** X18.  With distinct variables, [start__build] binds each one to the
    device that the file system table has for its mount point, or to
    the text for a mount point that the table does not have; it runs
    no command and leaves the other variables alone. *)
Theorem start__build_devices options system entry fs (w : World Env) :
  option_value options "system" = inr system ->
  w_obj w !! _getEnvKey system = Some (System entry) ->
  e_filesystem entry = Some fs ->
  NoDup (variables options) ->
  exists w', start__build options w = (Done tt, w')
    /\ w_trace w' = w_trace w
    /\ last (w_log w') = Some Lpassed
    /\ (forall k, k ∉ variables options -> w_obj w' !! k = w_obj w !! k)
    /\ forall m v, (m, v) ∈ _getEnvironmentVariables options ->
                   w_obj w' !! v = Some (Str (device_of fs m)).
Proof.
  intros Hs He Hf Hnd.
  destruct (start__build_binds options system entry fs w Hs He Hf)
    as (w' & Hrun & Ht & Hl & Hframe & Hbound).
  exists w'. repeat split; auto.
Qed.

(** X19.  The two steps together: after [_createFileSystemRecord] has
    returned the table, the aspect binds the variable of a mount point
    to the device that the table has for it. *)
Theorem devices_of_recorded_filesystem tool options build options2 system
    (w : World Env) fs w1 :
  _createFileSystemRecord tool options build w = (Done fs, w1) ->
  option_value options "system" = inr system ->
  option_value options2 "system" = inr system ->
  NoDup (variables options2) ->
  exists w2, start__build options2 w1 = (Done tt, w2)
    /\ forall m v, (m, v) ∈ _getEnvironmentVariables options2 ->
                   w_obj w2 !! v = Some (Str (device_of fs m)).
Proof.
  intros H Hs Hs2 Hnd.
  apply createFileSystemRecord_done in H
    as (system' & entry & ms & wl & Hs' & He & Hf & Hms & _ & -> & Ho & Hl).
  rewrite Hs in Hs'. injection Hs' as <-.
  destruct (start__build_binds options2 system (entry_with entry (w_obj wl))
              (fsEntry (w_obj wl)) w1 Hs2)
    as (w2 & Hrun & _ & _ & _ & Hbound);
    [now rewrite Ho, lookup_insert_eq|reflexivity|].
  exists w2. split; [exact Hrun|]. now apply Hbound.
Qed.

End DeviceVariables.

(** *** Instances on the example system *)

Lemma filesystem_defined_once_witness :
  option_value root_only "system" = inr "mysystem"
  /\ option_value fs_options "system" = inr "mysystem"
  /\ _createFileSystemRecord tools_ok fs_options true
       (snd (_createFileSystemRecord tools_ok root_only true (world example_system)))
     = (Return_None,
        add_w_log Lfailed
          (add_w_log (Lerror "System '%s' already has a filesystem defined")
             (snd (_createFileSystemRecord tools_ok root_only true
                     (world example_system))))).
Proof.
  split; [reflexivity|]. split; [reflexivity|].
  eapply (filesystem_defined_once tools_ok root_only true fs_options true "mysystem"
            _ (world example_system) (Return_None));
    [reflexivity|reflexivity|reflexivity|vm_compute; reflexivity].
Defined.

Lemma fs_table_built :
  _createFileSystemRecord tools_ok fs_options true (world example_system)
  = (Done fs_table,
     snd (_createFileSystemRecord tools_ok fs_options true (world example_system))).
Proof. vm_compute. reflexivity. Qed.

Lemma filesystem_table_stored_witness :
  _createFileSystemRecord tools_ok fs_options true (world example_system)
  = (Done fs_table,
     snd (_createFileSystemRecord tools_ok fs_options true (world example_system)))
  /\ exists system entry info ms,
       option_value fs_options "system" = inr system
       /\ FileSystem.mountpts fs_options = inr ms
       /\ w_obj (snd (_createFileSystemRecord tools_ok fs_options true
                        (world example_system))) !! _getEnvKey system
          = Some (System entry)
       /\ e_filesystem entry = Some fs_table
       /\ e_filesystem_info entry = Some info
       /\ (forall m, is_Some (fs_table !! m) <-> m ∈ ms)
       /\ (forall m, is_Some (info !! m) <-> m ∈ ms)
       /\ (forall m mp dev ty id, fs_table !! m = Some (mp, dev, ty, id) -> mp = m)
       /\ (forall k, k <> _getEnvKey system ->
             w_obj (snd (_createFileSystemRecord tools_ok fs_options true
                           (world example_system))) !! k
             = w_obj (world example_system) !! k)
       /\ last (w_log (snd (_createFileSystemRecord tools_ok fs_options true
                              (world example_system)))) = Some Lpassed.
Proof.
  split; [exact fs_table_built|].
  exact (filesystem_table_stored tools_ok fs_options true (world example_system)
           fs_table _ fs_table_built).
Defined.

Lemma filesystem_devices_named_witness :
  _createFileSystemRecord tools_ok fs_options true (world example_system)
  = (Done fs_table,
     snd (_createFileSystemRecord tools_ok fs_options true (world example_system)))
  /\ fs_table !! "/boot" = Some ("/boot", "/dev/sda1", "vfat", "LABEL=BOOT")
  /\ exists system entry info i ds lbl tgt cur,
       option_value fs_options "system" = inr system
       /\ w_obj (snd (_createFileSystemRecord tools_ok fs_options true
                        (world example_system))) !! _getEnvKey system
          = Some (System entry)
       /\ e_filesystem_info entry = Some info
       /\ info !! "/boot" = Some i
       /\ sys_disks (e_system entry) = Some ds
       /\ fs_target ds (info_disk i) (info_partition i)
          = Some (lbl, "/dev/sda1", tgt, cur).
Proof.
  split; [exact fs_table_built|]. split; [reflexivity|].
  exact (filesystem_devices_named tools_ok fs_options true (world example_system)
           fs_table _ "/boot" _ _ _ _ fs_table_built eq_refl).
Defined.

Lemma filesystem_labelled_or_reported_witness :
  _createFileSystemRecord tools_ok fs_options true (world example_system)
  = (Done fs_table,
     snd (_createFileSystemRecord tools_ok fs_options true (world example_system)))
  /\ fs_table !! "/" = Some ("/", "/dev/sda5", "btrfs", "LABEL=data")
  /\ labelled_or_reported tools_ok true
       (w_log (snd (_createFileSystemRecord tools_ok fs_options true
                      (world example_system))))
       "btrfs" "LABEL=data".
Proof.
  split; [exact fs_table_built|]. split; [reflexivity|].
  exact (filesystem_labelled_or_reported tools_ok fs_options true
           (world example_system) fs_table _ "/" _ _ _ _ fs_table_built eq_refl).
Defined.

Lemma filesystem_needs_fstab_id_witness :
  option_value root_only "system" = inr "mysystem"
  /\ FileSystem.mountpts root_only = inr ["/"]
  /\ option_value root_only "/" = inr "mydisk.root, ext4"
  /\ named_device "mydisk.root, ext4" = Some ("mydisk", Some "root")
  /\ forall fs w',
       _createFileSystemRecord tools_ok root_only false (world uuid_system)
       <> (Done fs, w').
Proof.
  split; [reflexivity|]. split; [reflexivity|]. split; [reflexivity|].
  split; [reflexivity|].
  eapply (filesystem_needs_fstab_id tools_ok root_only false (world uuid_system)
            "mysystem" _ _ ["/"] "/" "mydisk.root, ext4" "mydisk" "root"
            "root" "/dev/sda1" (OnPartition "mydisk" "root"));
    [reflexivity|reflexivity|reflexivity|reflexivity|left|reflexivity|reflexivity
    |vm_compute; reflexivity].
Defined.

Lemma environment_variables_of_mount_points_witness :
  (forall k v, (k, v) ∈ device_options -> startswith k "env_" = true ->
               startswith (drop_str 4 k) "/" = true)
  /\ GetPartitionDevices._getEnvironmentVariables device_options
     = [("/", "ROOTDEV"); ("/boot", "BOOTDEV"); ("/var", "VARDEV")].
Proof.
  assert (H : forall k v, (k, v) ∈ device_options -> startswith k "env_" = true ->
                          startswith (drop_str 4 k) "/" = true).
  { intros k v Hin. unfold device_options in Hin.
    repeat (apply elem_of_cons in Hin as [[= -> ->]|Hin]; [vm_compute; auto|]).
    now apply elem_of_nil in Hin. }
  split; [exact H|].
  exact (environment_variables_of_mount_points device_options H).
Defined.

Lemma start_end_restores_witness :
  (forall v, v ∈ variables device_options ->
             w_obj (world example_system) !! v = None)
  /\ fst (GetPartitionDevices.end_ device_options
            (snd (GetPartitionDevices.start "build" device_options
                    (world example_system)))) = Done tt
  /\ w_obj (snd (GetPartitionDevices.end_ device_options
                   (snd (GetPartitionDevices.start "build" device_options
                           (world example_system)))))
     = w_obj (world example_system).
Proof.
  assert (H : forall v, v ∈ variables device_options ->
                        w_obj (world example_system) !! v = None).
  { intros v Hin. change (variables device_options)
      with ["ROOTDEV"; "BOOTDEV"; "VARDEV"] in Hin.
    repeat (apply elem_of_cons in Hin as [->|Hin]; [vm_compute; reflexivity|]).
    now apply elem_of_nil in Hin. }
  split; [exact H|].
  exact (start_end_restores "build" device_options (world example_system) H).
Defined.

Lemma variables_distinct : NoDup (variables device_options).
Proof.
  change (variables device_options) with ["ROOTDEV"; "BOOTDEV"; "VARDEV"].
  repeat (apply NoDup_cons; split;
          [rewrite ?elem_of_cons, elem_of_nil; intuition discriminate|]).
  apply NoDup_nil_2.
Qed.

Lemma start__build_devices_witness :
  option_value device_options "system" = inr "mysystem"
  /\ NoDup (variables device_options)
  /\ exists w',
       GetPartitionDevices.start__build device_options
         (snd (_createFileSystemRecord tools_ok fs_options true (world example_system)))
       = (Done tt, w')
       /\ w_obj w' !! "BOOTDEV" = Some (Str "/dev/sda1")
       /\ w_obj w' !! "VARDEV" = Some (Str "## Device not found").
Proof.
  split; [reflexivity|]. split; [exact variables_distinct|].
  destruct (start__build_devices device_options "mysystem" _ fs_table
              (snd (_createFileSystemRecord tools_ok fs_options true
                      (world example_system)))
              eq_refl ltac:(vm_compute; reflexivity) eq_refl variables_distinct)
    as (w' & Hrun & _ & _ & _ & Hbound).
  exists w'. split; [exact Hrun|]. split.
  - apply (Hbound "/boot"). right; left.
  - apply (Hbound "/var"). right; right; left.
Defined.

Lemma devices_of_recorded_filesystem_witness :
  _createFileSystemRecord tools_ok fs_options true (world example_system)
  = (Done fs_table,
     snd (_createFileSystemRecord tools_ok fs_options true (world example_system)))
  /\ option_value fs_options "system" = inr "mysystem"
  /\ option_value device_options "system" = inr "mysystem"
  /\ NoDup (variables device_options)
  /\ exists w2,
       GetPartitionDevices.start__build device_options
         (snd (_createFileSystemRecord tools_ok fs_options true (world example_system)))
       = (Done tt, w2)
       /\ forall m v,
            (m, v) ∈ GetPartitionDevices._getEnvironmentVariables device_options ->
            w_obj w2 !! v = Some (Str (device_of fs_table m)).
Proof.
  split; [exact fs_table_built|]. split; [reflexivity|]. split; [reflexivity|].
  split; [exact variables_distinct|].
  exact (devices_of_recorded_filesystem tools_ok fs_options true device_options
           "mysystem" (world example_system) fs_table _ fs_table_built
           eq_refl eq_refl variables_distinct).
Defined.
